(** * Bio.TreeIO.PhyloXMLIO: the phyloXML reader and writer

    A shallow embedding of [Bio/TreeIO/PhyloXMLIO.py].  The XML event
    source ([ElementTree.iterparse]) is a list of [(event, elem)] pairs
    that the parser consumes from the front; Python exceptions are values
    of [exn] carried by [result]; the host language's [float()] is a
    parameter of the development (class [PyFloat]). *)

From Stdlib Require Import ZArith Ascii String List Lia Bool.
From stdpp Require Import base option strings gmap list.

Open Scope string_scope.
Open Scope list_scope.

Set Warnings "-register-all".

(* ===================================================================== *)
(** ** Python strings *)
(* ===================================================================== *)

Module Py.

(** [s[1:]] *)
Definition slice1 (s : string) : string :=
  match s with
  | EmptyString => EmptyString
  | String _ rest => rest
  end.

(** The first occurrence of [sep] cuts [s] in two; [None] when [sep] does
    not occur. *)
Fixpoint partition (sep : ascii) (s : string) : option (string * string) :=
  match s with
  | EmptyString => None
  | String a rest =>
      if Ascii.eqb a sep then Some (EmptyString, rest)
      else match partition sep rest with
           | Some (before, after) => Some (String a before, after)
           | None => None
           end
  end.

(** [s.split(sep, 1)] for a one-character separator. *)
Definition split1 (s : string) (sep : ascii) : list string :=
  match partition sep s with
  | Some (before, after) => [before; after]
  | None => [s]
  end.

(** [s.index(sep)]; [None] stands for the ValueError of a missing
    substring. *)
Fixpoint index (sep : ascii) (s : string) : option nat :=
  match s with
  | EmptyString => None
  | String a rest =>
      if Ascii.eqb a sep then Some 0
      else match index sep rest with Some n => Some (S n) | None => None end
  end.

(** [s[n:]] *)
Fixpoint slice_from (n : nat) (s : string) : string :=
  match n, s with
  | 0, _ => s
  | S n', String _ rest => slice_from n' rest
  | S _, EmptyString => EmptyString
  end.

(** Whitespace of [str.split()] and [str.strip()]: space, TAB, LF, VT, FF,
    CR. *)
Definition isspace (a : ascii) : bool :=
  Ascii.eqb a " " || Ascii.eqb a "009" || Ascii.eqb a "010"
  || Ascii.eqb a "011" || Ascii.eqb a "012" || Ascii.eqb a "013".

Fixpoint lstrip (s : string) : string :=
  match s with
  | EmptyString => EmptyString
  | String a rest => if isspace a then lstrip rest else s
  end.

(** [rstrip] keeps a character when it is not a space or when something
    that is kept follows it. *)
Fixpoint rstrip (s : string) : string :=
  match s with
  | EmptyString => EmptyString
  | String a rest =>
      match rstrip rest with
      | EmptyString => if isspace a then EmptyString else String a EmptyString
      | kept => String a kept
      end
  end.

(** [s.strip()] *)
Definition strip (s : string) : string := rstrip (lstrip s).

(** [s.split()]: the maximal runs of non-whitespace characters.  [cur] is
    the run being read, reversed. *)
Fixpoint split_ws_go (cur : list ascii) (s : string) : list string :=
  let flush (k : list string) :=
    match cur with
    | [] => k
    | _ => string_of_list_ascii (rev cur) :: k
    end in
  match s with
  | EmptyString => flush []
  | String a rest =>
      if isspace a then flush (split_ws_go [] rest)
      else split_ws_go (a :: cur) rest
  end.

Definition split_ws (s : string) : list string := split_ws_go [] s.

(** [sep.join(parts)] *)
Fixpoint join (sep : string) (parts : list string) : string :=
  match parts with
  | [] => EmptyString
  | [p] => p
  | p :: rest => p +:+ sep +:+ join sep rest
  end.

(** [s.replace(old, new)] for one-character [old] and [new]. *)
Fixpoint replace (old new : ascii) (s : string) : string :=
  match s with
  | EmptyString => EmptyString
  | String a rest =>
      String (if Ascii.eqb a old then new else a) (replace old new rest)
  end.

(** A letter and its other case differ in one bit; the letters are the
    codes 65 to 90 and 97 to 122. *)
Definition is_letter_low5 (b0 b1 b2 b3 b4 : bool) : bool :=
  (* the low five bits stand for 1 to 26 *)
  negb (negb b0 && negb b1 && negb b2 && negb b3 && negb b4)
  && negb (b4 && b3 && (b2 || (b1 && b0))).

Definition upper_ascii (a : ascii) : ascii :=
  match a with
  | Ascii b0 b1 b2 b3 b4 true true false =>
      if is_letter_low5 b0 b1 b2 b3 b4
      then Ascii b0 b1 b2 b3 b4 false true false else a
  | _ => a
  end.

Definition lower_ascii (a : ascii) : ascii :=
  match a with
  | Ascii b0 b1 b2 b3 b4 false true false =>
      if is_letter_low5 b0 b1 b2 b3 b4
      then Ascii b0 b1 b2 b3 b4 true true false else a
  | _ => a
  end.

Fixpoint map_string (f : ascii -> ascii) (s : string) : string :=
  match s with
  | EmptyString => EmptyString
  | String a rest => String (f a) (map_string f rest)
  end.

(** [s.upper()], [s.lower()] *)
Definition upper : string -> string := map_string upper_ascii.
Definition lower : string -> string := map_string lower_ascii.

(** Truth value of a string: the empty string is false. *)
Definition truthy (s : string) : bool :=
  match s with EmptyString => false | _ => true end.

Definition digit_of (a : ascii) : option Z :=
  if Ascii.eqb a "0" then Some 0%Z else if Ascii.eqb a "1" then Some 1%Z
  else if Ascii.eqb a "2" then Some 2%Z else if Ascii.eqb a "3" then Some 3%Z
  else if Ascii.eqb a "4" then Some 4%Z else if Ascii.eqb a "5" then Some 5%Z
  else if Ascii.eqb a "6" then Some 6%Z else if Ascii.eqb a "7" then Some 7%Z
  else if Ascii.eqb a "8" then Some 8%Z else if Ascii.eqb a "9" then Some 9%Z
  else None.

Fixpoint digits_go (acc : Z) (s : string) : option Z :=
  match s with
  | EmptyString => Some acc
  | String a rest =>
      match digit_of a with
      | Some d => digits_go (10 * acc + d) rest
      | None => None
      end
  end.

Definition digits (s : string) : option Z :=
  match s with
  | EmptyString => None
  | _ => digits_go 0 s
  end.

(** [int(s)] on a string: surrounding whitespace, an optional sign, then
    decimal digits.  [None] stands for the ValueError. *)
Definition int (s : string) : option Z :=
  match strip s with
  | EmptyString => None
  | String sign rest =>
      if Ascii.eqb sign "-" then option_map Z.opp (digits rest)
      else if Ascii.eqb sign "+" then digits rest
      else digits (String sign rest)
  end.

Definition digit_char (d : nat) : ascii :=
  match d with
  | 0 => "0" | 1 => "1" | 2 => "2" | 3 => "3" | 4 => "4"
  | 5 => "5" | 6 => "6" | 7 => "7" | 8 => "8" | _ => "9"
  end%char.

Fixpoint repr_nat_go (fuel : nat) (n : nat) (acc : string) : string :=
  match fuel with
  | 0 => acc
  | S fuel' =>
      let acc' := String (digit_char (n mod 10)) acc in
      if Nat.ltb n 10 then acc' else repr_nat_go fuel' (n / 10) acc'
  end.

(** [unicode(n)] for an integer. *)
Definition repr_int (z : Z) : string :=
  let n := Z.abs_nat z in
  let body := repr_nat_go (S n) n EmptyString in
  if Z.ltb z 0 then String "-" body else body.

End Py.

(* ===================================================================== *)
(** ** Exceptions and results *)
(* ===================================================================== *)

(** The exception classes the module raises or lets through, each with
    its message.  [SyntaxError] is what [iterparse] raises on a file that
    is not well-formed; its message names a place in the file and is left
    out. *)
Inductive exn : Type :=
  | PhyloXMLError (msg : string)
  | ValueError (msg : string)
  | AssertionError (msg : string)
  | IndexError (msg : string)
  | TypeError (msg : string)
  | AttributeError (msg : string)
  | StopIteration
  | SyntaxError.

(** The outcome of running a piece of the program: a value or a raised
    exception. *)
Inductive result (A : Type) : Type :=
  | Ok (a : A)
  | Raise (e : exn).

Arguments Ok {A} a.
Arguments Raise {A} e.

(** How an iteration leaves a loop: it goes on with a new state, it
    breaks out with the value to return, or it raises. *)
Inductive flow (A : Type) : Type :=
  | Next (a : A)
  | Break (a : A)
  | Throw (e : exn).

Arguments Next {A} a.
Arguments Break {A} a.
Arguments Throw {A} e.

(** Sequencing: an exception skips what follows.
    With these instances [x ← r; k] is the usual monadic let. *)
#[export] Instance result_ret : MRet result := fun _ a => Ok a.

#[export] Instance result_bind : MBind result := fun _ _ k r =>
  match r with
  | Ok a => k a
  | Raise e => Raise e
  end.

Definition is_ok {A : Type} (r : result A) : bool :=
  match r with Ok _ => true | _ => false end.

Definition is_raise {A : Type} (r : result A) : bool :=
  match r with Raise _ => true | _ => false end.

(** [[f(x) for x in l]] where [f] can raise: left to right, the first
    exception wins. *)
Fixpoint map_result {A B : Type} (f : A -> result B) (l : list A)
  : result (list B) :=
  match l with
  | [] => Ok []
  | x :: rest =>
      y ← f x;
      ys ← map_result f rest;
      Ok (y :: ys)
  end.

(** The host language's floating point numbers: [float(s)] on a string
    ([None] for the ValueError), [unicode(x)], and the truth value of a
    float (zero is false). *)
Class PyFloat : Type := {
  float_t : Type;
  float : string -> option float_t;
  float_repr : float_t -> string;
  float_truthy : float_t -> bool
}.

(* ===================================================================== *)
(** ** ElementTree *)
(* ===================================================================== *)

Module ET.

(** An [ElementTree.Element]: its tag ([{namespace}local] for a
    namespaced element), attribute dictionary, text before the first
    child, and children in document order. *)
Inductive Element : Type :=
  mkElement {
    tag : string;
    attrib : gmap string string;
    text : option string;
    children : list Element
  }.

(** [elem.find(path)]: the first direct child with that tag. *)
Definition find (elem : Element) (path : string) : option Element :=
  List.find (fun child => String.eqb (tag child) path) (children elem).

(** [elem.findall(path)]: the direct children with that tag, in order. *)
Definition findall (elem : Element) (path : string) : list Element :=
  List.filter (fun child => String.eqb (tag child) path) (children elem).

(** [elem.get(key)] *)
Definition get (elem : Element) (key : string) : option string :=
  attrib elem !! key.

(** The two kinds of event [iterparse] is asked for. *)
Inductive event : Type := EvStart | EvEnd.

Definition is_start (ev : event) : bool :=
  match ev with EvStart => true | EvEnd => false end.

Definition is_end (ev : event) : bool :=
  match ev with EvStart => false | EvEnd => true end.

(** What [iterparse(file, events=('start', 'end'))] yields for one
    element: its start, the events of its children in order, its end. *)
Fixpoint events_of (elem : Element) : list (event * Element) :=
  (EvStart, elem)
    :: (fix events_of_list (l : list Element) : list (event * Element) :=
          match l with
          | [] => []
          | child :: rest => events_of child ++ events_of_list rest
          end) (children elem)
    ++ [(EvEnd, elem)].

Definition events_of_list (l : list Element) : list (event * Element) :=
  flat_map events_of l.

(** *** A document written to a file and parsed from it *)

(** The characters a file of XML can hold, among the code points below
    256: TAB, LF, CR and every code point from the space on. *)
Definition is_char (a : ascii) : bool :=
  Ascii.eqb a "009" || Ascii.eqb a "010" || Ascii.eqb a "013"
  || Ascii.leb " " a.

Fixpoint all_of (test : ascii -> bool) (s : string) : bool :=
  match s with
  | EmptyString => true
  | String a rest => test a && all_of test rest
  end.

(** The characters of a name: a letter or an underscore comes first,
    digits, hyphens, full stops and the middle dot may follow.  The
    letters above 127 are those of Latin-1. *)
Definition is_name_start (a : ascii) : bool :=
  (Ascii.leb "A" a && Ascii.leb a "Z") || (Ascii.leb "a" a && Ascii.leb a "z")
  || Ascii.eqb a "_"
  || (Ascii.leb "192" a && negb (Ascii.eqb a "215")
      && negb (Ascii.eqb a "247")).

Definition is_name_char (a : ascii) : bool :=
  is_name_start a || (Ascii.leb "0" a && Ascii.leb a "9")
  || Ascii.eqb a "-" || Ascii.eqb a "." || Ascii.eqb a "183".

(** A name without a colon. *)
Definition is_ncname (s : string) : bool :=
  match s with
  | EmptyString => false
  | String a rest => is_name_start a && all_of is_name_char rest
  end.

(** A tag, or the key of an attribute, that the writer can put in a
    file: a name without a colon, either bare or behind a namespace in
    braces.  The writer declares a prefix for the namespace, which must
    not be empty, and the parser gives the qualified name back in
    braces; the prefixes and their declarations are not modelled. *)
Definition is_qname (s : string) : bool :=
  match s with
  | String "{" rest =>
      match Py.partition "}" rest with
      | Some (uri, name) =>
          negb (String.eqb uri "") && all_of is_char uri && is_ncname name
      | None => false
      end
  | _ => is_ncname s
  end.

(** The attributes the writer can put in a file: the keys are names, the
    values hold characters of XML.  A bare key [xmlns] would be taken for
    the declaration of a namespace. *)
Definition attrib_ok (attrib : gmap string string) : bool :=
  forallb (fun '(key, val) =>
             is_qname key && negb (String.eqb key "xmlns")
             && all_of is_char val)
    (map_to_list attrib).

(** The file that [ElementTree.write] makes of [elem] is well-formed:
    the markup characters apart, which it escapes, the writer puts names
    and strings in the file as they are. *)
Fixpoint well_formed (elem : Element) : bool :=
  is_qname (tag elem) && attrib_ok (attrib elem)
  && from_option (all_of is_char) true (text elem)
  && forallb well_formed (children elem).

(** Character data as the parser delivers it: every end of line is one
    LF.  A CR before an LF is dropped, any other CR becomes an LF. *)
Fixpoint character_data (s : string) : string :=
  match s with
  | EmptyString => EmptyString
  | String a rest =>
      if Ascii.eqb a "013" then
        match rest with
        | String b _ =>
            if Ascii.eqb b "010" then character_data rest
            else String "010" (character_data rest)
        | EmptyString => String "010" EmptyString
        end
      else String a (character_data rest)
  end.

(** The value of an attribute as the parser delivers it: the ends of
    line are normalised as in character data, then each TAB and each LF
    becomes a space.  The writer puts the three characters in the file as
    they are (ElementTree up to 1.2; from 1.3 on an LF is written as a
    character reference and comes back as an LF). *)
Definition attribute_value (s : string) : string :=
  Py.map_string
    (fun a => if Ascii.eqb a "009" || Ascii.eqb a "010" then " "%char else a)
    (character_data s).

(** A character that the file keeps wherever it stands: a character of
    XML other than TAB, LF and CR. *)
Definition kept (a : ascii) : bool :=
  is_char a
  && negb (Ascii.eqb a "009" || Ascii.eqb a "010" || Ascii.eqb a "013").

(** The text an element has when it is read back from the file it was
    written to: an empty text is written as no text at all. *)
Definition reparse_text (text : option string) : option string :=
  match text with
  | Some EmptyString => None
  | Some s => Some (character_data s)
  | None => None
  end.

(** The document that [iterparse] reads from the file that
    [ElementTree.write] made of [elem], when that file is well-formed:
    names come back as they were, character data and the values of
    attributes as the parser normalises them. *)
Fixpoint reparse (elem : Element) : Element :=
  mkElement (tag elem) (attribute_value <$> attrib elem)
    (reparse_text (text elem)) (map reparse (children elem)).

End ET.

Abbreviation Element := ET.Element.
Abbreviation EvStart := ET.EvStart.
Abbreviation EvEnd := ET.EvEnd.

(** The parser's cursor: the events not consumed yet. *)
Definition context : Type := list (ET.event * Element).

(** The events of [elem] that follow its start event: those of its
    children, then its end event.  A function called at the start event
    of [elem] finds them at the front of the cursor. *)
Definition events_within (elem : Element) : context :=
  ET.events_of_list (ET.children elem) ++ [(EvEnd, elem)].

(* ===================================================================== *)
(** ** Namespaces and tags *)
(* ===================================================================== *)

Definition NAMESPACES_phy : string := "http://www.phyloxml.org".
Definition NAMESPACES_xs : string := "http://www.w3.org/2001/XMLSchema".

(** [local(tag)]: [tag[0]] raises on the empty string and [tag.index]
    when no closing brace follows. *)
Definition local (tag : string) : result string :=
  match tag with
  | EmptyString => Raise (IndexError "string index out of range")
  | String c _ =>
      if Ascii.eqb c "{" then
        match Py.index "}" tag with
        | Some i => Ok (Py.slice_from (i + 1) tag)
        | None => Raise (ValueError "substring not found")
        end
      else Ok tag
  end.

(** [split_namespace(tag)]: the body of the [try] is
    [tag[1:].split('}', 1)]; slicing and splitting a string raise
    nothing, so the [except] branch, kept here as it is written, is never
    taken. *)
Definition split_namespace (tag : string) : list string :=
  match (Ok (Py.split1 (Py.slice1 tag) "}") : result (list string)) with
  | Ok parts => parts
  | _ => [""; tag]
  end.

(** [namespace, tag = split_namespace(elem.tag)]: unpacking into two
    names raises ValueError unless the sequence has two items. *)
Definition unpack2 (parts : list string) : result (string * string) :=
  match parts with
  | [a; b] => Ok (a, b)
  | [] | [_] => Raise (ValueError "need more than 1 value to unpack")
  | _ => Raise (ValueError "too many values to unpack")
  end.

(** [_ns(tag, namespace)] is ['{%s}%s' % (namespace, tag)]. *)
Definition _ns_in (tag namespace : string) : string :=
  "{" +:+ namespace +:+ "}" +:+ tag.

(** [_ns(tag)] with the default namespace. *)
Definition _ns (tag : string) : string := _ns_in tag NAMESPACES_phy.

(* ===================================================================== *)
(** ** Utilities *)
(* ===================================================================== *)

Definition str2bool (text : string) : result bool :=
  if String.eqb text "true" then Ok true
  else if String.eqb text "false" then Ok false
  else Raise (ValueError ("String could not be converted to boolean: " +:+ text)).

(** [_int(text)]: [None] for an absent text and for any exception of
    [int]. *)
Definition _int (text : option string) : option Z :=
  match text with
  | Some t => match Py.int t with Some n => Some n | None => None end
  | None => None
  end.

(** [collapse_wspace(text)] *)
Definition collapse_wspace (text : option string) : option string :=
  match text with
  | Some t => Some (Py.join " " (Py.split_ws t))
  | None => None
  end.

(** [replace_wspace(text)] *)
Definition replace_wspace (text : string) : string :=
  Py.replace "013" " " (Py.replace "010" " " (Py.replace "009" " " text)).

(** [text and text.strip() or None] *)
Definition strip_or_none (text : option string) : option string :=
  match text with
  | Some t =>
      if Py.truthy t then
        (if Py.truthy (Py.strip t) then Some (Py.strip t) else None)
      else None
  | None => None
  end.

(** [elem.text.strip()]: the attribute lookup fails on [None]. *)
Definition text_strip (elem : Element) : result string :=
  match ET.text elem with
  | Some t => Ok (Py.strip t)
  | None => Raise (AttributeError "'NoneType' object has no attribute 'strip'")
  end.

(** [in] on a list of strings. *)
Definition in_list (x : string) (l : list string) : bool :=
  existsb (String.eqb x) l.

(** A constructor called with [elem.attrib] as keywords: a key it does
    not name is a TypeError. *)
Definition check_kwargs {V : Type} (allowed : list string) (kw : gmap string V)
  : result unit :=
  match List.find (fun k => negb (in_list k allowed)) (map fst (map_to_list kw)) with
  | Some k => Raise (TypeError ("__init__() got an unexpected keyword argument '" +:+ k +:+ "'"))
  | None => Ok tt
  end.

(** A stand-in for the host's floats that the examples run on: integral
    literals only (["3"], ["-2"], ["3.0"]), on which it agrees with
    [float()] and [unicode()]. *)
Definition integral_float : PyFloat := {|
  float_t := Z;
  float := fun s =>
    match Py.partition "." (Py.strip s) with
    | Some (whole, frac) =>
        if String.eqb frac "0" then Py.int whole else None
    | None => Py.int s
    end;
  float_repr := fun z => Py.repr_int z +:+ ".0";
  float_truthy := fun z => negb (Z.eqb z 0)
|}.

(* ===================================================================== *)
(** ** The object graph (Bio.Tree.PhyloXML) *)
(* ===================================================================== *)

Section PhyloXMLIO.

Context `{PF : PyFloat}.

(** A value of a Python dictionary once the parser has replaced some of
    the attribute strings by converted values. *)
Inductive pyval : Type :=
  | VStr (s : string)
  | VBool (b : bool)
  | VFloat (x : float_t).

(** [float(s)] where the ValueError propagates. *)
Definition float_strict (s : string) : result float_t :=
  match float s with
  | Some x => Ok x
  | None => Raise (ValueError ("could not convert string to float: " +:+ s))
  end.

(** [int(s)] where the ValueError propagates. *)
Definition int_strict (s : string) : result Z :=
  match Py.int s with
  | Some n => Ok n
  | None => Raise (ValueError ("invalid literal for int() with base 10: " +:+ s))
  end.

(** [int(elem.get(key))]: [int(None)] is a TypeError. *)
Definition int_strict_opt (s : option string) : result Z :=
  match s with
  | Some t => int_strict t
  | None => Raise (TypeError "int() argument must be a string or a number, not 'NoneType'")
  end.

(** [_float(text)]: [None] for an absent text and for any exception of
    [float]. *)
Definition _float (text : option string) : option float_t :=
  match text with
  | Some t => match float t with Some x => Some x | None => None end
  | None => None
  end.

(** Modelled from the spec: the classes of Bio.Tree.PhyloXML are not
    among the sources.  Each record below has the fields that the
    constructor calls of the parser and the attribute and subnode tables
    of the writer name; a constructor stores its arguments. *)
Inductive Other : Type :=
  Tree_Other {
    other_tag : string;
    other_namespace : string;
    other_attributes : gmap string string;
    other_value : option string;
    other_children : list Other
  }.

Record Confidence : Type := Tree_Confidence {
  confidence_value : option float_t;
  confidence_type : option string
}.

Record Accession : Type := Tree_Accession {
  accession_value : string;
  accession_source : option string
}.

Record Uri : Type := Tree_Uri {
  uri_value : string;
  uri_desc : option string;
  uri_type : option string
}.

Record Property : Type := Tree_Property {
  property_value : string;
  property_ref : option string;
  property_applies_to : option string;
  property_datatype : option string;
  property_unit : option string;
  property_id_ref : option string
}.

Record Id : Type := Tree_Id {
  id_value : string;
  id_provider : option string
}.

Record MolSeq : Type := Tree_MolSeq {
  mol_seq_value : string;
  mol_seq_is_aligned : option bool
}.

Record ProteinDomain : Type := Tree_ProteinDomain {
  domain_value : string;
  domain_start : Z;
  domain_end : Z;
  domain_confidence : option float_t;
  domain_id : option string
}.

Record DomainArchitecture : Type := Tree_DomainArchitecture {
  domain_architecture_length : Z;
  domain_architecture_domains : list ProteinDomain
}.

Record Annotation : Type := Tree_Annotation {
  annotation_ref : option string;
  annotation_source : option string;
  annotation_evidence : option string;
  annotation_type : option string;
  annotation_desc : option string;
  annotation_confidence : option Confidence;
  annotation_properties : list Property;
  annotation_uri : option Uri
}.

Record Sequence : Type := Tree_Sequence {
  sequence_type : option string;
  sequence_id_ref : option string;
  sequence_id_source : option string;
  sequence_symbol : option string;
  sequence_accession : option Accession;
  sequence_name : option string;
  sequence_location : option string;
  sequence_mol_seq : option MolSeq;
  sequence_uri : option Uri;
  sequence_domain_architecture : option DomainArchitecture;
  sequence_annotations : list Annotation;
  sequence_other : list Other
}.

Record Taxonomy : Type := Tree_Taxonomy {
  taxonomy_id_source : option string;
  taxonomy_id : option Id;
  taxonomy_code : option string;
  taxonomy_scientific_name : option string;
  taxonomy_authority : option string;
  taxonomy_common_names : list string;
  taxonomy_synonyms : list string;
  taxonomy_rank : option string;
  taxonomy_uri : option Uri;
  taxonomy_other : list Other
}.

Record Point : Type := Tree_Point {
  point_geodetic_datum : option string;
  point_lat : option float_t;
  point_long : option float_t;
  point_alt : option float_t;
  point_alt_unit : option string
}.

Record Polygon : Type := Tree_Polygon {
  polygon_points : list Point
}.

Record Distribution : Type := Tree_Distribution {
  distribution_desc : option string;
  distribution_points : list Point;
  distribution_polygons : list Polygon
}.

Record Date : Type := Tree_Date {
  date_unit : option string;
  date_desc : option string;
  date_value : option float_t;
  date_minimum : option float_t;
  date_maximum : option float_t
}.

Record Events : Type := Tree_Events {
  events_type : option string;
  events_duplications : option Z;
  events_speciations : option Z;
  events_losses : option Z;
  events_confidence : option Confidence
}.

Record BranchColor : Type := Tree_BranchColor {
  color_red : option Z;
  color_green : option Z;
  color_blue : option Z
}.

Record BinaryCharacters : Type := Tree_BinaryCharacters {
  binary_characters_type : option string;
  binary_characters_gained_count : option Z;
  binary_characters_lost_count : option Z;
  binary_characters_present_count : option Z;
  binary_characters_absent_count : option Z;
  binary_characters_gained : option (list string);
  binary_characters_lost : option (list string);
  binary_characters_present : option (list string);
  binary_characters_absent : option (list string)
}.

Record CladeRelation : Type := Tree_CladeRelation {
  clade_relation_type : option string;
  clade_relation_id_ref_0 : option string;
  clade_relation_id_ref_1 : option string;
  clade_relation_distance : option string;
  clade_relation_confidence : option Confidence
}.

Record SequenceRelation : Type := Tree_SequenceRelation {
  sequence_relation_type : option string;
  sequence_relation_id_ref_0 : option string;
  sequence_relation_id_ref_1 : option string;
  sequence_relation_distance : option float_t;
  sequence_relation_confidence : option Confidence
}.

Record Reference : Type := Tree_Reference {
  reference_doi : option string;
  reference_desc : option string
}.

(** The Node of the spec: the recursive entity. *)
Inductive Clade : Type :=
  Tree_Clade {
    branch_length : option float_t;
    id_source : option string;
    name : option string;
    width : option float_t;
    color : option BranchColor;
    node_id : option string;
    events : option Events;
    binary_characters : option BinaryCharacters;
    date : option Date;
    confidences : list Confidence;
    taxonomies : list Taxonomy;
    sequences : list Sequence;
    distributions : list Distribution;
    references : list Reference;
    properties : list Property;
    clades : list Clade;
    other : list Other
  }.

(** The Tree of the spec. *)
Record Phylogeny : Type := Tree_Phylogeny {
  phy_rooted : option bool;
  phy_rerootable : option bool;
  phy_branch_length_unit : option string;
  phy_type : option string;
  phy_name : option string;
  phy_id : option Id;
  phy_description : option string;
  phy_date : option Date;
  phy_confidences : list Confidence;
  phy_clade : option Clade;
  phy_clade_relations : list CladeRelation;
  phy_sequence_relations : list SequenceRelation;
  phy_properties : list Property;
  phy_other : list Other
}.

(** The Document of the spec. *)
Record Phyloxml : Type := Tree_Phyloxml {
  attributes : gmap string string;
  phylogenies : list Phylogeny;
  phyloxml_other : list Other
}.

(** Attribute assignment [clade.field = v]: one setter per field. *)

Definition set_branch_length v (c : Clade) : Clade :=
  Tree_Clade v (id_source c) (name c) (width c) (color c) (node_id c)
    (events c) (binary_characters c) (date c) (confidences c) (taxonomies c)
    (sequences c) (distributions c) (references c) (properties c) (clades c)
    (other c).

Definition set_id_source v (c : Clade) : Clade :=
  Tree_Clade (branch_length c) v (name c) (width c) (color c) (node_id c)
    (events c) (binary_characters c) (date c) (confidences c) (taxonomies c)
    (sequences c) (distributions c) (references c) (properties c) (clades c)
    (other c).

Definition set_name v (c : Clade) : Clade :=
  Tree_Clade (branch_length c) (id_source c) v (width c) (color c) (node_id
    c) (events c) (binary_characters c) (date c) (confidences c) (taxonomies
    c) (sequences c) (distributions c) (references c) (properties c) (clades
    c) (other c).

Definition set_width v (c : Clade) : Clade :=
  Tree_Clade (branch_length c) (id_source c) (name c) v (color c) (node_id
    c) (events c) (binary_characters c) (date c) (confidences c) (taxonomies
    c) (sequences c) (distributions c) (references c) (properties c) (clades
    c) (other c).

Definition set_color v (c : Clade) : Clade :=
  Tree_Clade (branch_length c) (id_source c) (name c) (width c) v (node_id
    c) (events c) (binary_characters c) (date c) (confidences c) (taxonomies
    c) (sequences c) (distributions c) (references c) (properties c) (clades
    c) (other c).

Definition set_node_id v (c : Clade) : Clade :=
  Tree_Clade (branch_length c) (id_source c) (name c) (width c) (color c) v
    (events c) (binary_characters c) (date c) (confidences c) (taxonomies c)
    (sequences c) (distributions c) (references c) (properties c) (clades c)
    (other c).

Definition set_events v (c : Clade) : Clade :=
  Tree_Clade (branch_length c) (id_source c) (name c) (width c) (color c)
    (node_id c) v (binary_characters c) (date c) (confidences c) (taxonomies
    c) (sequences c) (distributions c) (references c) (properties c) (clades
    c) (other c).

Definition set_binary_characters v (c : Clade) : Clade :=
  Tree_Clade (branch_length c) (id_source c) (name c) (width c) (color c)
    (node_id c) (events c) v (date c) (confidences c) (taxonomies c)
    (sequences c) (distributions c) (references c) (properties c) (clades c)
    (other c).

Definition set_date v (c : Clade) : Clade :=
  Tree_Clade (branch_length c) (id_source c) (name c) (width c) (color c)
    (node_id c) (events c) (binary_characters c) v (confidences c)
    (taxonomies c) (sequences c) (distributions c) (references c)
    (properties c) (clades c) (other c).

Definition set_confidences v (c : Clade) : Clade :=
  Tree_Clade (branch_length c) (id_source c) (name c) (width c) (color c)
    (node_id c) (events c) (binary_characters c) (date c) v (taxonomies c)
    (sequences c) (distributions c) (references c) (properties c) (clades c)
    (other c).

Definition set_taxonomies v (c : Clade) : Clade :=
  Tree_Clade (branch_length c) (id_source c) (name c) (width c) (color c)
    (node_id c) (events c) (binary_characters c) (date c) (confidences c) v
    (sequences c) (distributions c) (references c) (properties c) (clades c)
    (other c).

Definition set_sequences v (c : Clade) : Clade :=
  Tree_Clade (branch_length c) (id_source c) (name c) (width c) (color c)
    (node_id c) (events c) (binary_characters c) (date c) (confidences c)
    (taxonomies c) v (distributions c) (references c) (properties c) (clades
    c) (other c).

Definition set_distributions v (c : Clade) : Clade :=
  Tree_Clade (branch_length c) (id_source c) (name c) (width c) (color c)
    (node_id c) (events c) (binary_characters c) (date c) (confidences c)
    (taxonomies c) (sequences c) v (references c) (properties c) (clades c)
    (other c).

Definition set_references v (c : Clade) : Clade :=
  Tree_Clade (branch_length c) (id_source c) (name c) (width c) (color c)
    (node_id c) (events c) (binary_characters c) (date c) (confidences c)
    (taxonomies c) (sequences c) (distributions c) v (properties c) (clades
    c) (other c).

Definition set_properties v (c : Clade) : Clade :=
  Tree_Clade (branch_length c) (id_source c) (name c) (width c) (color c)
    (node_id c) (events c) (binary_characters c) (date c) (confidences c)
    (taxonomies c) (sequences c) (distributions c) (references c) v (clades
    c) (other c).

Definition set_clades v (c : Clade) : Clade :=
  Tree_Clade (branch_length c) (id_source c) (name c) (width c) (color c)
    (node_id c) (events c) (binary_characters c) (date c) (confidences c)
    (taxonomies c) (sequences c) (distributions c) (references c)
    (properties c) v (other c).

Definition set_other v (c : Clade) : Clade :=
  Tree_Clade (branch_length c) (id_source c) (name c) (width c) (color c)
    (node_id c) (events c) (binary_characters c) (date c) (confidences c)
    (taxonomies c) (sequences c) (distributions c) (references c)
    (properties c) (clades c) v.



(** Attribute assignment [phylogeny.field = v]. *)

Definition set_phy_rooted v (p : Phylogeny) : Phylogeny :=
  Tree_Phylogeny v (phy_rerootable p) (phy_branch_length_unit p) (phy_type
    p) (phy_name p) (phy_id p) (phy_description p) (phy_date p)
    (phy_confidences p) (phy_clade p) (phy_clade_relations p)
    (phy_sequence_relations p) (phy_properties p) (phy_other p).

Definition set_phy_rerootable v (p : Phylogeny) : Phylogeny :=
  Tree_Phylogeny (phy_rooted p) v (phy_branch_length_unit p) (phy_type p)
    (phy_name p) (phy_id p) (phy_description p) (phy_date p)
    (phy_confidences p) (phy_clade p) (phy_clade_relations p)
    (phy_sequence_relations p) (phy_properties p) (phy_other p).

Definition set_phy_branch_length_unit v (p : Phylogeny) : Phylogeny :=
  Tree_Phylogeny (phy_rooted p) (phy_rerootable p) v (phy_type p) (phy_name
    p) (phy_id p) (phy_description p) (phy_date p) (phy_confidences p)
    (phy_clade p) (phy_clade_relations p) (phy_sequence_relations p)
    (phy_properties p) (phy_other p).

Definition set_phy_type v (p : Phylogeny) : Phylogeny :=
  Tree_Phylogeny (phy_rooted p) (phy_rerootable p) (phy_branch_length_unit
    p) v (phy_name p) (phy_id p) (phy_description p) (phy_date p)
    (phy_confidences p) (phy_clade p) (phy_clade_relations p)
    (phy_sequence_relations p) (phy_properties p) (phy_other p).

Definition set_phy_name v (p : Phylogeny) : Phylogeny :=
  Tree_Phylogeny (phy_rooted p) (phy_rerootable p) (phy_branch_length_unit
    p) (phy_type p) v (phy_id p) (phy_description p) (phy_date p)
    (phy_confidences p) (phy_clade p) (phy_clade_relations p)
    (phy_sequence_relations p) (phy_properties p) (phy_other p).

Definition set_phy_id v (p : Phylogeny) : Phylogeny :=
  Tree_Phylogeny (phy_rooted p) (phy_rerootable p) (phy_branch_length_unit
    p) (phy_type p) (phy_name p) v (phy_description p) (phy_date p)
    (phy_confidences p) (phy_clade p) (phy_clade_relations p)
    (phy_sequence_relations p) (phy_properties p) (phy_other p).

Definition set_phy_description v (p : Phylogeny) : Phylogeny :=
  Tree_Phylogeny (phy_rooted p) (phy_rerootable p) (phy_branch_length_unit
    p) (phy_type p) (phy_name p) (phy_id p) v (phy_date p) (phy_confidences
    p) (phy_clade p) (phy_clade_relations p) (phy_sequence_relations p)
    (phy_properties p) (phy_other p).

Definition set_phy_date v (p : Phylogeny) : Phylogeny :=
  Tree_Phylogeny (phy_rooted p) (phy_rerootable p) (phy_branch_length_unit
    p) (phy_type p) (phy_name p) (phy_id p) (phy_description p) v
    (phy_confidences p) (phy_clade p) (phy_clade_relations p)
    (phy_sequence_relations p) (phy_properties p) (phy_other p).

Definition set_phy_confidences v (p : Phylogeny) : Phylogeny :=
  Tree_Phylogeny (phy_rooted p) (phy_rerootable p) (phy_branch_length_unit
    p) (phy_type p) (phy_name p) (phy_id p) (phy_description p) (phy_date p)
    v (phy_clade p) (phy_clade_relations p) (phy_sequence_relations p)
    (phy_properties p) (phy_other p).

Definition set_phy_clade v (p : Phylogeny) : Phylogeny :=
  Tree_Phylogeny (phy_rooted p) (phy_rerootable p) (phy_branch_length_unit
    p) (phy_type p) (phy_name p) (phy_id p) (phy_description p) (phy_date p)
    (phy_confidences p) v (phy_clade_relations p) (phy_sequence_relations p)
    (phy_properties p) (phy_other p).

Definition set_phy_clade_relations v (p : Phylogeny) : Phylogeny :=
  Tree_Phylogeny (phy_rooted p) (phy_rerootable p) (phy_branch_length_unit
    p) (phy_type p) (phy_name p) (phy_id p) (phy_description p) (phy_date p)
    (phy_confidences p) (phy_clade p) v (phy_sequence_relations p)
    (phy_properties p) (phy_other p).

Definition set_phy_sequence_relations v (p : Phylogeny) : Phylogeny :=
  Tree_Phylogeny (phy_rooted p) (phy_rerootable p) (phy_branch_length_unit
    p) (phy_type p) (phy_name p) (phy_id p) (phy_description p) (phy_date p)
    (phy_confidences p) (phy_clade p) (phy_clade_relations p) v
    (phy_properties p) (phy_other p).

Definition set_phy_properties v (p : Phylogeny) : Phylogeny :=
  Tree_Phylogeny (phy_rooted p) (phy_rerootable p) (phy_branch_length_unit
    p) (phy_type p) (phy_name p) (phy_id p) (phy_description p) (phy_date p)
    (phy_confidences p) (phy_clade p) (phy_clade_relations p)
    (phy_sequence_relations p) v (phy_other p).

Definition set_phy_other v (p : Phylogeny) : Phylogeny :=
  Tree_Phylogeny (phy_rooted p) (phy_rerootable p) (phy_branch_length_unit
    p) (phy_type p) (phy_name p) (phy_id p) (phy_description p) (phy_date p)
    (phy_confidences p) (phy_clade p) (phy_clade_relations p)
    (phy_sequence_relations p) (phy_properties p) v.

(* ===================================================================== *)
(** ** Helpers over elements *)
(* ===================================================================== *)

(** [dict_str2bool(dct, keys)]: a copy of [dct] where the values at the
    listed keys, when present, are replaced by booleans. *)
Definition dict_str2bool (dct : gmap string string) (keys : list string)
  : result (gmap string pyval) :=
  foldl (fun acc key =>
           out ← acc;
           match out !! key with
           | Some (VStr s) => b ← str2bool s; Ok (<[key := VBool b]> out)
           | Some _ => Raise (TypeError "cannot concatenate 'str' and 'bool' objects")
           | None => Ok out
           end)
        (Ok (VStr <$> dct)) keys.

Definition as_str (v : pyval) : option string :=
  match v with VStr s => Some s | _ => None end.

Definition as_bool (v : pyval) : option bool :=
  match v with VBool b => Some b | _ => None end.

Definition as_float (v : pyval) : option float_t :=
  match v with VFloat x => Some x | _ => None end.

(** [get_child_as(parent, tag, construct)] *)
Definition get_child_as {A : Type} (parent : Element) (tag : string)
    (construct : Element -> result A) : result (option A) :=
  match ET.find parent (_ns tag) with
  | Some child => a ← construct child; Ok (Some a)
  | None => Ok None
  end.

(** [get_child_text(parent, tag, construct)]:
    [child.text and construct(child.text) or None], so an empty text and a
    converted value that is false both give [None].  [truth] is the truth
    value of the constructed type. *)
Definition get_child_text {A : Type} (parent : Element) (tag : string)
    (construct : string -> result A) (truth : A -> bool) : result (option A) :=
  match ET.find parent (_ns tag) with
  | Some child =>
      match ET.text child with
      | Some t =>
          if Py.truthy t then
            v ← construct t; Ok (if truth v then Some v else None)
          else Ok None
      | None => Ok None
      end
  | None => Ok None
  end.

(** The three constructors [get_child_text] is called with. *)
Definition get_child_unicode (parent : Element) (tag : string)
  : result (option string) :=
  get_child_text parent tag (fun t => Ok t) Py.truthy.

Definition get_child_int (parent : Element) (tag : string)
  : result (option Z) :=
  get_child_text parent tag int_strict (fun n => negb (Z.eqb n 0)).

Definition get_child_float (parent : Element) (tag : string)
  : result (option float_t) :=
  get_child_text parent tag float_strict float_truthy.

(** [get_children_as(parent, tag, construct)] *)
Definition get_children_as {A : Type} (parent : Element) (tag : string)
    (construct : Element -> result A) : result (list A) :=
  map_result construct (ET.findall parent (_ns tag)).

(** [get_children_text(parent, tag)] with the default constructor: the
    texts of the matching children whose text is not empty. *)
Definition get_children_text (parent : Element) (tag : string) : list string :=
  omap (fun child =>
          match ET.text child with
          | Some t => if Py.truthy t then Some t else None
          | None => None
          end)
       (ET.findall parent (_ns tag)).

(* ===================================================================== *)
(** ** Parser: the conversion table *)
(* ===================================================================== *)

Fixpoint to_other (elem : Element) : result Other :=
  '(namespace, localtag) ← unpack2 (split_namespace (ET.tag elem));
  children ← (fix to_others (l : list Element) : result (list Other) :=
                match l with
                | [] => Ok []
                | child :: rest =>
                    o ← to_other child; os ← to_others rest; Ok (o :: os)
                end) (ET.children elem);
  Ok (Tree_Other localtag namespace (ET.attrib elem)
        (strip_or_none (ET.text elem)) children).

Definition to_accession (elem : Element) : result Accession :=
  value ← text_strip elem;
  Ok (Tree_Accession value (ET.get elem "source")).

Definition to_confidence (elem : Element) : result Confidence :=
  Ok (Tree_Confidence (_float (ET.text elem)) (ET.get elem "type")).

Definition to_uri (elem : Element) : result Uri :=
  value ← text_strip elem;
  Ok (Tree_Uri value (collapse_wspace (ET.get elem "desc")) (ET.get elem "type")).

Definition to_property (elem : Element) : result Property :=
  value ← text_strip elem;
  Ok (Tree_Property value (ET.get elem "ref") (ET.get elem "applies_to")
        (ET.get elem "datatype") (ET.get elem "unit") (ET.get elem "id_ref")).

Definition to_annotation (elem : Element) : result Annotation :=
  desc ← get_child_unicode elem "desc";
  confidence ← get_child_as elem "confidence" to_confidence;
  properties ← get_children_as elem "property" to_property;
  uri ← get_child_as elem "uri" to_uri;
  _ ← check_kwargs ["ref"; "source"; "evidence"; "type"] (ET.attrib elem);
  Ok (Tree_Annotation (ET.get elem "ref") (ET.get elem "source")
        (ET.get elem "evidence") (ET.get elem "type")
        (collapse_wspace desc) confidence properties uri).

Definition to_binary_characters (elem : Element) : result BinaryCharacters :=
  let bc_getter (e : Element) : result (list string) :=
    Ok (get_children_text e "bc") in
  gained ← get_child_as elem "gained" bc_getter;
  lost ← get_child_as elem "lost" bc_getter;
  present ← get_child_as elem "present" bc_getter;
  absent ← get_child_as elem "absent" bc_getter;
  Ok (Tree_BinaryCharacters (ET.get elem "type")
        (_int (ET.get elem "gained_count")) (_int (ET.get elem "lost_count"))
        (_int (ET.get elem "present_count")) (_int (ET.get elem "absent_count"))
        gained lost present absent).

Definition to_clade_relation (elem : Element) : result CladeRelation :=
  confidence ← get_child_as elem "confidence" to_confidence;
  Ok (Tree_CladeRelation (ET.get elem "type") (ET.get elem "id_ref_0")
        (ET.get elem "id_ref_1") (ET.get elem "distance") confidence).

Definition to_color (elem : Element) : result BranchColor :=
  red ← get_child_int elem "red";
  green ← get_child_int elem "green";
  blue ← get_child_int elem "blue";
  Ok (Tree_BranchColor red green blue).

Definition to_date (elem : Element) : result Date :=
  desc ← get_child_unicode elem "desc";
  value ← get_child_float elem "value";
  minimum ← get_child_float elem "minimum";
  maximum ← get_child_float elem "maximum";
  Ok (Tree_Date (ET.get elem "unit") (collapse_wspace desc) value minimum maximum).

Definition to_point (elem : Element) : result Point :=
  lat ← get_child_float elem "lat";
  long ← get_child_float elem "long";
  alt ← get_child_float elem "alt";
  Ok (Tree_Point (ET.get elem "geodetic_datum") lat long alt
        (ET.get elem "alt_unit")).

Definition to_polygon (elem : Element) : result Polygon :=
  points ← get_children_as elem "point" to_point;
  Ok (Tree_Polygon points).

Definition to_distribution (elem : Element) : result Distribution :=
  desc ← get_child_unicode elem "desc";
  points ← get_children_as elem "point" to_point;
  polygons ← get_children_as elem "polygon" to_polygon;
  Ok (Tree_Distribution (collapse_wspace desc) points polygons).

Definition to_domain (elem : Element) : result ProteinDomain :=
  value ← text_strip elem;
  from ← int_strict_opt (ET.get elem "from");
  to ← int_strict_opt (ET.get elem "to");
  Ok (Tree_ProteinDomain value (from - 1)%Z to
        (_float (ET.get elem "confidence")) (ET.get elem "id")).

Definition to_domain_architecture (elem : Element) : result DomainArchitecture :=
  length ← int_strict_opt (ET.get elem "length");
  domains ← get_children_as elem "domain" to_domain;
  Ok (Tree_DomainArchitecture length domains).

Definition to_events (elem : Element) : result Events :=
  type ← get_child_unicode elem "type";
  duplications ← get_child_int elem "duplications";
  speciations ← get_child_int elem "speciations";
  losses ← get_child_int elem "losses";
  confidence ← get_child_as elem "confidence" to_confidence;
  Ok (Tree_Events type duplications speciations losses confidence).

(** [elem.get('provider') or elem.get('type')] *)
Definition to_id (elem : Element) : result Id :=
  let provider :=
    match ET.get elem "provider" with
    | Some p => if Py.truthy p then Some p else ET.get elem "type"
    | None => ET.get elem "type"
    end in
  value ← text_strip elem;
  Ok (Tree_Id value provider).

Definition to_mol_seq (elem : Element) : result MolSeq :=
  is_aligned ← match ET.get elem "is_aligned" with
               | Some s => b ← str2bool s; Ok (Some b)
               | None => Ok None
               end;
  value ← text_strip elem;
  Ok (Tree_MolSeq value is_aligned).

Definition to_reference (elem : Element) : result Reference :=
  desc ← get_child_unicode elem "desc";
  Ok (Tree_Reference (ET.get elem "doi") desc).

Definition to_sequence (elem : Element) : result Sequence :=
  symbol ← get_child_unicode elem "symbol";
  accession ← get_child_as elem "accession" to_accession;
  name ← get_child_unicode elem "name";
  location ← get_child_unicode elem "location";
  mol_seq ← get_child_as elem "mol_seq" to_mol_seq;
  uri ← get_child_as elem "uri" to_uri;
  domain_architecture ←
    get_child_as elem "domain_architecture" to_domain_architecture;
  annotations ← get_children_as elem "annotation" to_annotation;
  _ ← check_kwargs ["type"; "id_ref"; "id_source"] (ET.attrib elem);
  Ok (Tree_Sequence (ET.get elem "type") (ET.get elem "id_ref")
        (ET.get elem "id_source") symbol accession (collapse_wspace name)
        location mol_seq uri domain_architecture annotations []).

Definition to_sequence_relation (elem : Element) : result SequenceRelation :=
  confidence ← get_child_as elem "confidence" to_confidence;
  Ok (Tree_SequenceRelation (ET.get elem "type") (ET.get elem "id_ref_0")
        (ET.get elem "id_ref_1") (_float (ET.get elem "distance")) confidence).

Definition to_taxonomy (elem : Element) : result Taxonomy :=
  id ← get_child_as elem "id" to_id;
  code ← get_child_unicode elem "code";
  scientific_name ← get_child_unicode elem "scientific_name";
  authority ← get_child_unicode elem "authority";
  rank ← get_child_unicode elem "rank";
  uri ← get_child_as elem "uri" to_uri;
  _ ← check_kwargs ["id_source"] (ET.attrib elem);
  Ok (Tree_Taxonomy (ET.get elem "id_source") id code scientific_name
        authority (get_children_text elem "common_name")
        (get_children_text elem "synonym") rank uri []).

(* ===================================================================== *)
(** ** Parser: the state machine *)
(* ===================================================================== *)

(** Modelled from the spec: [Tree.Phyloxml(attributes)] of
    Bio.Tree.PhyloXML, a Document with its attributes and no tree or
    foreign node yet. *)
Definition Phyloxml_init (attributes : gmap string string) : Phyloxml :=
  Tree_Phyloxml attributes [] [].

(** Modelled from the spec: [Tree.Phylogeny] of Bio.Tree.PhyloXML, called
    with a dictionary of keyword arguments.  The keywords are the attributes the writer emits
    for a phylogeny; every other field starts absent or empty. *)
Definition Phylogeny_init (kwargs : gmap string pyval) : result Phylogeny :=
  _ ← check_kwargs ["rooted"; "rerootable"; "branch_length_unit"; "type"] kwargs;
  Ok (Tree_Phylogeny (kwargs !! "rooted" ≫= as_bool)
        (kwargs !! "rerootable" ≫= as_bool)
        (kwargs !! "branch_length_unit" ≫= as_str)
        (kwargs !! "type" ≫= as_str)
        None None None None [] None [] [] [] []).

(** Modelled from the spec: [Tree.Clade] of Bio.Tree.PhyloXML, called
    with a dictionary of keyword arguments.
    The keywords are [branch_length], seeded by the parser, and the
    attribute the writer emits for a clade; every other field starts
    absent or empty. *)
Definition Clade_init (kwargs : gmap string pyval) : result Clade :=
  _ ← check_kwargs ["branch_length"; "id_source"] kwargs;
  Ok (Tree_Clade (kwargs !! "branch_length" ≫= as_float)
        (kwargs !! "id_source" ≫= as_str)
        None None None None None None None [] [] [] [] [] [] [] []).

Definition _clade_complex_types : list string :=
  ["color"; "events"; "binary_characters"; "date"].

(** The keys of [_clade_list_types]. *)
Definition _clade_list_types : list string :=
  ["confidence"; "taxonomy"; "sequence"; "distribution"; "reference";
   "property"].

Definition _clade_tracked_tags : list string :=
  _clade_complex_types ++ _clade_list_types
    ++ ["branch_length"; "name"; "node_id"; "width"].

(** The head of [_parse_clade], before its loop: the [branch_length]
    attribute goes through [float], then [Tree.Clade] is called with
    [parent.attrib] as its keywords. *)
Definition _parse_clade_head (parent : Element) : result Clade :=
  kwargs ← match ET.get parent "branch_length" with
           | Some s =>
               x ← float_strict s;
               Ok (<["branch_length" := VFloat x]> (VStr <$> ET.attrib parent))
           | None => Ok (VStr <$> ET.attrib parent)
           end;
  Clade_init kwargs.

(** The body of the loop of [_parse_clade] for an end event whose tag
    passed the stack test: the chain of [if]/[elif] that assigns the
    converted element. *)
Definition _parse_clade_assign (clade : Clade) (namespace tag : string)
    (elem : Element) : result Clade :=
  if in_list tag _clade_complex_types then
    (* setattr(clade, tag, getattr(self, 'to_'+tag)(elem)) *)
    if String.eqb tag "color" then
      v ← to_color elem; Ok (set_color (Some v) clade)
    else if String.eqb tag "events" then
      v ← to_events elem; Ok (set_events (Some v) clade)
    else if String.eqb tag "binary_characters" then
      v ← to_binary_characters elem; Ok (set_binary_characters (Some v) clade)
    else
      v ← to_date elem; Ok (set_date (Some v) clade)
  else if in_list tag _clade_list_types then
    (* getattr(clade, plural).append(getattr(self, 'to_'+tag)(elem)) *)
    if String.eqb tag "confidence" then
      v ← to_confidence elem; Ok (set_confidences (confidences clade ++ [v]) clade)
    else if String.eqb tag "taxonomy" then
      v ← to_taxonomy elem; Ok (set_taxonomies (taxonomies clade ++ [v]) clade)
    else if String.eqb tag "sequence" then
      v ← to_sequence elem; Ok (set_sequences (sequences clade ++ [v]) clade)
    else if String.eqb tag "distribution" then
      v ← to_distribution elem;
      Ok (set_distributions (distributions clade ++ [v]) clade)
    else if String.eqb tag "reference" then
      v ← to_reference elem; Ok (set_references (references clade ++ [v]) clade)
    else
      v ← to_property elem; Ok (set_properties (properties clade ++ [v]) clade)
  else if String.eqb tag "branch_length" then
    match branch_length clade with
    | Some _ =>
        Raise (PhyloXMLError
                 ("Attribute branch_length was already set "
                  +:+ "for this Clade; overwriting the previous "
                  +:+ "value."))
    | None => Ok (set_branch_length (_float (ET.text elem)) clade)
    end
  else if String.eqb tag "width" then
    Ok (set_width (_float (ET.text elem)) clade)
  else if String.eqb tag "name" then
    Ok (set_name (collapse_wspace (ET.text elem)) clade)
  else if String.eqb tag "node_id" then
    Ok (set_node_id (strip_or_none (ET.text elem)) clade)
  else if negb (String.eqb namespace NAMESPACES_phy) then
    v ← to_other elem; Ok (set_other (other clade ++ [v]) clade)
  else
    Raise (PhyloXMLError ("Misidentified tag: " +:+ tag)).

(** What a function that reads the cursor gives back: its outcome and
    the events it did not consume; [None] when the fuel of the model ran
    out before the function returned. *)
Definition outcome (A : Type) : Type := option (result A * context).

(** Three views of an outcome: the exception raised, a look at the value
    returned, the events left. *)
Definition raised {A : Type} (o : outcome A) : option exn :=
  match o with
  | Some (Raise e, _) => Some e
  | _ => None
  end.

Definition returned {A B : Type} (look : A -> B) (o : outcome A) : option B :=
  match o with
  | Some (Ok a, _) => Some (look a)
  | _ => None
  end.

Definition left_over {A : Type} (o : outcome A) : option context :=
  match o with
  | Some (_, ctx) => Some ctx
  | None => None
  end.

(** [_parse_clade(parent)] and its loop [for event, elem in self.context].
    The cursor is threaded through: each function takes the events left
    and returns, next to its result, the events it did not consume.  The
    stack [tag_stack] has its top at the head of the list.  [fuel] bounds
    the iterations; [fuel_for] below is always enough.  The interpreter's
    own bound on the depth of recursion is not modelled: [_parse_clade]
    calls itself once for each level of nested clades, and past
    [sys.getrecursionlimit()] frames Python raises a RuntimeError, so
    what the model says of a document holds for the program when the
    clades of the document are nested less deeply than that bound
    allows. *)
Fixpoint _parse_clade_at (fuel : nat) (parent : Element) (ctx : context)
    {struct fuel} : outcome Clade :=
  match fuel with
  | 0 => None
  | S fuel =>
      match _parse_clade_head parent with
      | Ok clade => _parse_clade_loop fuel clade [] ctx
      | Raise e => Some (Raise e, ctx)
      end
  end
with _parse_clade_loop (fuel : nat) (clade : Clade) (tag_stack : list string)
    (ctx : context) {struct fuel} : outcome Clade :=
  match fuel with
  | 0 => None
  | S fuel =>
      match ctx with
      | [] => Some (Ok clade, [])
      | (event, elem) :: ctx =>
          match unpack2 (split_namespace (ET.tag elem)) with
          | Ok (namespace, tag) =>
              match event with
              | EvStart =>
                  if String.eqb tag "clade" then
                    match _parse_clade_at fuel elem ctx with
                    | Some (Ok subclade, ctx) =>
                        _parse_clade_loop fuel
                          (set_clades (clades clade ++ [subclade]) clade)
                          tag_stack ctx
                    | Some (Raise e, ctx) => Some (Raise e, ctx)
                    | None => None
                    end
                  else if in_list tag _clade_tracked_tags then
                    _parse_clade_loop fuel clade (tag :: tag_stack) ctx
                  else
                    _parse_clade_loop fuel clade tag_stack ctx
              | EvEnd =>
                  if String.eqb tag "clade" then Some (Ok clade, ctx)
                  else
                    match tag_stack with
                    | [] =>
                        Some (Raise (IndexError "list index out of range"), ctx)
                    | top :: popped =>
                        if negb (String.eqb tag top) then
                          _parse_clade_loop fuel clade tag_stack ctx
                        else
                          match _parse_clade_assign clade namespace tag elem with
                          | Ok clade => _parse_clade_loop fuel clade popped ctx
                          | Raise e => Some (Raise e, ctx)
                          end
                    end
              end
          | Raise e => Some (Raise e, ctx)
          end
      end
  end.

(** Fuel that always suffices: each call and each iteration takes one
    unit, and a call never gets more events than its caller had. *)
Definition fuel_for (ctx : context) : nat := 2 * length ctx + 3.

Definition _parse_clade (parent : Element) (ctx : context) : outcome Clade :=
  _parse_clade_at (fuel_for ctx) parent ctx.

(** The head of [_parse_phylogeny]: the two boolean attributes are
    converted, then [Tree.Phylogeny] is called with the result as its
    keywords. *)
Definition _parse_phylogeny_head (parent : Element) : result Phylogeny :=
  kwargs ← dict_str2bool (ET.attrib parent) ["rooted"; "rerootable"];
  Phylogeny_init kwargs.

Definition _phylogeny_complex_types : list string := ["date"; "id"].

(** The keys of [list_types] in [_parse_phylogeny]. *)
Definition _phylogeny_list_types : list string :=
  ["confidence"; "property"; "clade_relation"; "sequence_relation"].

(** The chain of [if]/[elif] that [_parse_phylogeny] runs on an end event
    other than the phylogeny's own. *)
Definition _parse_phylogeny_assign (phylogeny : Phylogeny)
    (namespace tag : string) (elem : Element) : result Phylogeny :=
  if in_list tag _phylogeny_complex_types then
    if String.eqb tag "date" then
      v ← to_date elem; Ok (set_phy_date (Some v) phylogeny)
    else
      v ← to_id elem; Ok (set_phy_id (Some v) phylogeny)
  else if in_list tag _phylogeny_list_types then
    if String.eqb tag "confidence" then
      v ← to_confidence elem;
      Ok (set_phy_confidences (phy_confidences phylogeny ++ [v]) phylogeny)
    else if String.eqb tag "property" then
      v ← to_property elem;
      Ok (set_phy_properties (phy_properties phylogeny ++ [v]) phylogeny)
    else if String.eqb tag "clade_relation" then
      v ← to_clade_relation elem;
      Ok (set_phy_clade_relations (phy_clade_relations phylogeny ++ [v])
            phylogeny)
    else
      v ← to_sequence_relation elem;
      Ok (set_phy_sequence_relations (phy_sequence_relations phylogeny ++ [v])
            phylogeny)
  else if String.eqb tag "name" then
    Ok (set_phy_name (collapse_wspace (ET.text elem)) phylogeny)
  else if String.eqb tag "description" then
    Ok (set_phy_description (collapse_wspace (ET.text elem)) phylogeny)
  else if negb (String.eqb namespace NAMESPACES_phy) then
    v ← to_other elem; Ok (set_phy_other (phy_other phylogeny ++ [v]) phylogeny)
  else
    Raise (PhyloXMLError ("Misidentified tag: " +:+ tag)).

(** The loop of [_parse_phylogeny]. *)
Fixpoint _parse_phylogeny_loop (fuel : nat) (phylogeny : Phylogeny)
    (ctx : context) {struct fuel} : outcome Phylogeny :=
  match fuel with
  | 0 => None
  | S fuel =>
      match ctx with
      | [] => Some (Ok phylogeny, [])
      | (event, elem) :: ctx =>
          match unpack2 (split_namespace (ET.tag elem)) with
          | Ok (namespace, tag) =>
              match event with
              | EvStart =>
                  if String.eqb tag "clade" then
                    match phy_clade phylogeny with
                    | Some _ =>
                        Some (Raise (AssertionError
                                       "Phylogeny object should only have 1 clade"),
                              ctx)
                    | None =>
                        match _parse_clade elem ctx with
                        | Some (Ok clade, ctx) =>
                            _parse_phylogeny_loop fuel
                              (set_phy_clade (Some clade) phylogeny) ctx
                        | Some (Raise e, ctx) => Some (Raise e, ctx)
                        | None => None
                        end
                    end
                  else _parse_phylogeny_loop fuel phylogeny ctx
              | EvEnd =>
                  if String.eqb tag "phylogeny" then Some (Ok phylogeny, ctx)
                  else
                    match _parse_phylogeny_assign phylogeny namespace tag elem with
                    | Ok phylogeny => _parse_phylogeny_loop fuel phylogeny ctx
                    | Raise e => Some (Raise e, ctx)
                    end
              end
          | Raise e => Some (Raise e, ctx)
          end
      end
  end.

Definition _parse_phylogeny (parent : Element) (ctx : context)
  : outcome Phylogeny :=
  match _parse_phylogeny_head parent with
  | Ok phylogeny => _parse_phylogeny_loop (fuel_for ctx) phylogeny ctx
  | Raise e => Some (Raise e, ctx)
  end.

(** [Parser]: the root element and the cursor behind it. *)
Record Parser : Type := mkParser {
  root : Element;
  parser_context : context
}.

(** [iterparse(file, events=('start', 'end'))]: a file is taken as the
    document it holds. *)
Definition iterparse (file : Element) : context := ET.events_of file.

(** [Parser.__init__]: the first event is taken for the root. *)
Definition Parser_init (events : context) : result Parser :=
  match events with
  | (event, root) :: ctx => Ok (mkParser root ctx)
  | [] => Raise StopIteration
  end.

(** [dict((local(key), val) for key, val in self.root.items())] *)
Definition root_attributes (root : Element) : result (gmap string string) :=
  items ← map_result (fun '(key, val) => k ← local key; Ok (k, val))
            (map_to_list (ET.attrib root));
  Ok (list_to_map (rev items)).

(** The loop of [Parser.read].  The calls of [clear()] are not modelled:
    an element keeps its children in the model.  In the program a
    [phylogeny] element parsed inside a foreign element at the top level
    is emptied before [to_other] reaches that foreign element, whose
    node then
    holds a [phylogeny] child without content where the model keeps the
    content; for every other document the nodes are the same. *)
Fixpoint read_loop (fuel : nat) (phyloxml : Phyloxml) (other_depth : Z)
    (ctx : context) {struct fuel} : outcome Phyloxml :=
  match fuel with
  | 0 => None
  | S fuel =>
      match ctx with
      | [] => Some (Ok phyloxml, [])
      | (event, elem) :: ctx =>
          match unpack2 (split_namespace (ET.tag elem)) with
          | Ok (namespace, localtag) =>
              match event with
              | EvStart =>
                  if negb (String.eqb namespace NAMESPACES_phy) then
                    read_loop fuel phyloxml (other_depth + 1)%Z ctx
                  else if String.eqb localtag "phylogeny" then
                    match _parse_phylogeny elem ctx with
                    | Some (Ok phylogeny, ctx) =>
                        read_loop fuel
                          (Tree_Phyloxml (attributes phyloxml)
                             (phylogenies phyloxml ++ [phylogeny])
                             (phyloxml_other phyloxml))
                          other_depth ctx
                    | Some (Raise e, ctx) => Some (Raise e, ctx)
                    | None => None
                    end
                  else read_loop fuel phyloxml other_depth ctx
              | EvEnd =>
                  if negb (String.eqb namespace NAMESPACES_phy) then
                    let other_depth := (other_depth - 1)%Z in
                    if Z.eqb other_depth 0 then
                      match to_other elem with
                      | Ok otr =>
                          read_loop fuel
                            (Tree_Phyloxml (attributes phyloxml)
                               (phylogenies phyloxml)
                               (phyloxml_other phyloxml ++ [otr]))
                            other_depth ctx
                      | Raise e => Some (Raise e, ctx)
                      end
                    else read_loop fuel phyloxml other_depth ctx
                  else read_loop fuel phyloxml other_depth ctx
              end
          | Raise e => Some (Raise e, ctx)
          end
      end
  end.

(** [Parser.read] *)
Definition Parser_read (self : Parser) : outcome Phyloxml :=
  match root_attributes (root self) with
  | Ok attrs =>
      read_loop (fuel_for (parser_context self)) (Phyloxml_init attrs) 0
        (parser_context self)
  | Raise e => Some (Raise e, parser_context self)
  end.

(** [read(file)] *)
Definition read (file : Element) : option (result Phyloxml) :=
  match Parser_init (iterparse file) with
  | Ok self => fst <$> Parser_read self
  | Raise e => Some (Raise e)
  end.

(** One resumption of the generator [Parser.parse]: the loop runs up to
    its next [yield], or to the end of the events, where the generator
    finishes with StopIteration. *)
Fixpoint Parser_parse_next (ctx : context) : outcome Phylogeny :=
  match ctx with
  | [] => Some (Raise StopIteration, [])
  | (event, elem) :: ctx =>
      if ET.is_start event && String.eqb (ET.tag elem) (_ns "phylogeny") then
        _parse_phylogeny elem ctx
      else Parser_parse_next ctx
  end.

(** The generator object that [parse(file)] returns: its cursor, and
    whether its body has finished (by exhaustion or by an exception). *)
Record generator : Type := mkGenerator {
  gen_context : context;
  gen_finished : bool
}.

(** [parse(file)] runs nothing of the body: it only builds the parser,
    which takes the root's start event. *)
Definition parse (file : Element) : result generator :=
  self ← Parser_init (iterparse file);
  Ok (mkGenerator (parser_context self) false).

(** [gen.next()] *)
Definition next (gen : generator) : option (result Phylogeny * generator) :=
  if gen_finished gen then Some (Raise StopIteration, gen)
  else
    match Parser_parse_next (gen_context gen) with
    | Some (Ok phylogeny, ctx) => Some (Ok phylogeny, mkGenerator ctx false)
    | Some (Raise e, ctx) => Some (Raise e, mkGenerator ctx true)
    | None => None
    end.

(* ===================================================================== *)
(** ** Writer *)
(* ===================================================================== *)

(** [serialize(value)], by the type of [value]. *)
Definition serialize_float (value : float_t) : string :=
  Py.upper (float_repr value).

Definition serialize_bool (value : bool) : string :=
  Py.lower (if value then "True" else "False").

Definition serialize_int (value : Z) : string := Py.repr_int value.

Definition serialize_str (value : string) : string := value.

(** [serialize] of a value that may be [None]: [unicode(None)]. *)
Definition serialize_opt {A : Type} (ser : A -> string) (value : option A)
  : string :=
  match value with
  | Some v => ser v
  | None => "None"
  end.

(** [_clean_attrib(obj, attrs)]: each entry is an attribute name with the
    object's serialized value, [None] when the object has none. *)
Definition _clean_attrib (attrs : list (string * option string))
  : gmap string string :=
  foldl (fun out '(key, val) =>
           match val with
           | Some v => <[key := v]> out
           | None => out
           end) ∅ attrs.

(** A singular entry of [subnodes]: the method runs when the attribute is
    not [None]. *)
Definition singular {A : Type} (method : A -> result Element) (val : option A)
  : result (list Element) :=
  match val with
  | Some v => e ← method v; Ok [e]
  | None => Ok []
  end.

(** A plural entry of [subnodes]: the method runs on each item. *)
Definition plural {A : Type} (method : A -> result Element) (items : list A)
  : result (list Element) :=
  map_result method items.

(** The function that [_handle_complex(tag, attribs, subnodes, has_text)]
    returns, with the object's attributes already looked up: the
    subnodes are appended in the order of the table. *)
Definition _handle_complex (tag : string) (attribs : list (string * option string))
    (subnodes : list (result (list Element))) (text : option string)
  : result Element :=
  children ← foldl (fun acc subn => done ← acc; es ← subn; Ok (done ++ es))
             (Ok []) subnodes;
  Ok (ET.mkElement tag (_clean_attrib attribs) text children).

(** The function that [_handle_simple(tag)] returns. *)
Definition _handle_simple (tag : string) (text : string) : result Element :=
  Ok (ET.mkElement tag ∅ (Some text) []).

(** [unicode(obj)] of a [Tree.MolSeq]: decided by the class, which is not
    among the sources. *)
Variable unicode_MolSeq : MolSeq -> string.

Fixpoint Writer_other (obj : Other) : Element :=
  ET.mkElement (_ns_in (other_tag obj) (other_namespace obj))
    (other_attributes obj) (other_value obj)
    (map Writer_other (other_children obj)).

Definition Writer_other_r (obj : Other) : result Element := Ok (Writer_other obj).

Definition Writer_simple_str (tag : string) (obj : string) : result Element :=
  _handle_simple (_ns tag) (serialize_str obj).

Definition Writer_simple_int (tag : string) (obj : Z) : result Element :=
  _handle_simple (_ns tag) (serialize_int obj).

Definition Writer_simple_float (tag : string) (obj : float_t) : result Element :=
  _handle_simple (_ns tag) (serialize_float obj).

Definition Writer_accession (obj : Accession) : result Element :=
  _handle_complex (_ns "accession") [("source", accession_source obj)] []
    (Some (serialize_str (accession_value obj))).

Definition Writer_confidence (obj : Confidence) : result Element :=
  _handle_complex (_ns "confidence") [("type", confidence_type obj)] []
    (Some (serialize_opt serialize_float (confidence_value obj))).

Definition Writer_property (obj : Property) : result Element :=
  _handle_complex (_ns "property")
    [("ref", property_ref obj); ("unit", property_unit obj);
     ("datatype", property_datatype obj);
     ("applies_to", property_applies_to obj);
     ("id_ref", property_id_ref obj)] []
    (Some (serialize_str (property_value obj))).

Definition Writer_uri (obj : Uri) : result Element :=
  _handle_complex (_ns "uri") [("desc", uri_desc obj); ("type", uri_type obj)] []
    (Some (serialize_str (uri_value obj))).

Definition Writer_id (obj : Id) : result Element :=
  _handle_complex (_ns "id") [("provider", id_provider obj)] []
    (Some (serialize_str (id_value obj))).

(** [Writer.node_id] is a complex handler with attribute [provider] and
    a text, but the parser stores a clade's [node_id] as a string, which
    has no such attribute. *)
Definition Writer_node_id (obj : string) : result Element :=
  Raise (AttributeError "'str' object has no attribute 'provider'").

(** [Writer.mol_seq] is defined twice in the class body; the second
    definition, a simple handler, is the one in effect. *)
Definition Writer_mol_seq (obj : MolSeq) : result Element :=
  _handle_simple (_ns "mol_seq") (unicode_MolSeq obj).

Definition Writer_annotation (obj : Annotation) : result Element :=
  _handle_complex (_ns "annotation")
    [("ref", annotation_ref obj); ("source", annotation_source obj);
     ("evidence", annotation_evidence obj); ("type", annotation_type obj)]
    [singular (Writer_simple_str "desc") (annotation_desc obj);
     singular Writer_confidence (annotation_confidence obj);
     plural Writer_property (annotation_properties obj);
     singular Writer_uri (annotation_uri obj)]
    None.

(** [Writer.binary_characters]: iterating over a list that is [None] is
    a TypeError. *)
Definition Writer_binary_characters (obj : BinaryCharacters) : result Element :=
  let sub (subn : string) (tokens : option (list string)) : result Element :=
    match tokens with
    | Some l =>
        bcs ← map_result (Writer_simple_str "bc") l;
        Ok (ET.mkElement (_ns subn) ∅ None bcs)
    | None => Raise (TypeError "'NoneType' object is not iterable")
    end in
  gained ← sub "gained" (binary_characters_gained obj);
  lost ← sub "lost" (binary_characters_lost obj);
  present ← sub "present" (binary_characters_present obj);
  absent ← sub "absent" (binary_characters_absent obj);
  Ok (ET.mkElement (_ns "binary_characters")
        (_clean_attrib
           [("type", binary_characters_type obj);
            ("gained_count", serialize_int <$> binary_characters_gained_count obj);
            ("lost_count", serialize_int <$> binary_characters_lost_count obj);
            ("present_count", serialize_int <$> binary_characters_present_count obj);
            ("absent_count", serialize_int <$> binary_characters_absent_count obj)])
        None [gained; lost; present; absent]).

Definition Writer_clade_relation (obj : CladeRelation) : result Element :=
  _handle_complex (_ns "clade_relation")
    [("id_ref_0", clade_relation_id_ref_0 obj);
     ("id_ref_1", clade_relation_id_ref_1 obj);
     ("distance", clade_relation_distance obj);
     ("type", clade_relation_type obj)]
    [singular Writer_confidence (clade_relation_confidence obj)]
    None.

Definition Writer_color (obj : BranchColor) : result Element :=
  _handle_complex (_ns "color") []
    [singular (Writer_simple_int "red") (color_red obj);
     singular (Writer_simple_int "green") (color_green obj);
     singular (Writer_simple_int "blue") (color_blue obj)]
    None.

(** The class has no method [minimum] nor [maximum]: looking one up, for
    a date that has the field, is an AttributeError. *)
Definition Writer_missing {A : Type} (method : string) (obj : A) : result Element :=
  Raise (AttributeError ("'Writer' object has no attribute '" +:+ method +:+ "'")).

Definition Writer_date (obj : Date) : result Element :=
  _handle_complex (_ns "date") [("unit", date_unit obj)]
    [singular (Writer_simple_str "desc") (date_desc obj);
     singular (Writer_simple_float "value") (date_value obj);
     singular (Writer_missing "minimum") (date_minimum obj);
     singular (Writer_missing "maximum") (date_maximum obj)]
    None.

Definition Writer_point (obj : Point) : result Element :=
  _handle_complex (_ns "point")
    [("geodetic_datum", point_geodetic_datum obj);
     ("alt_unit", point_alt_unit obj)]
    [singular (Writer_simple_float "lat") (point_lat obj);
     singular (Writer_simple_float "long") (point_long obj);
     singular (Writer_simple_float "alt") (point_alt obj)]
    None.

Definition Writer_polygon (obj : Polygon) : result Element :=
  _handle_complex (_ns "polygon") []
    [plural Writer_point (polygon_points obj)] None.

Definition Writer_distribution (obj : Distribution) : result Element :=
  _handle_complex (_ns "distribution") []
    [singular (Writer_simple_str "desc") (distribution_desc obj);
     plural Writer_point (distribution_points obj);
     plural Writer_polygon (distribution_polygons obj)]
    None.

Definition Writer_domain (obj : ProteinDomain) : result Element :=
  let attrib : gmap string string :=
    {[ "from" := Py.repr_int (domain_start obj + 1);
       "to" := Py.repr_int (domain_end obj) ]} in
  let attrib :=
    match domain_confidence obj with
    | Some c => <["confidence" := serialize_float c]> attrib
    | None => attrib
    end in
  let attrib :=
    match domain_id obj with
    | Some i => <["id" := i]> attrib
    | None => attrib
    end in
  Ok (ET.mkElement (_ns "domain") attrib
        (Some (serialize_str (domain_value obj))) []).

Definition Writer_domain_architecture (obj : DomainArchitecture)
  : result Element :=
  _handle_complex (_ns "domain_architecture")
    [("length", Some (serialize_int (domain_architecture_length obj)))]
    [plural Writer_domain (domain_architecture_domains obj)] None.

Definition Writer_events (obj : Events) : result Element :=
  _handle_complex (_ns "events") []
    [singular (Writer_simple_str "type") (events_type obj);
     singular (Writer_simple_int "duplications") (events_duplications obj);
     singular (Writer_simple_int "speciations") (events_speciations obj);
     singular (Writer_simple_int "losses") (events_losses obj);
     singular Writer_confidence (events_confidence obj)]
    None.

Definition Writer_reference (obj : Reference) : result Element :=
  _handle_complex (_ns "reference") [("doi", reference_doi obj)]
    [singular (Writer_simple_str "desc") (reference_desc obj)] None.

Definition Writer_sequence (obj : Sequence) : result Element :=
  _handle_complex (_ns "sequence")
    [("type", sequence_type obj); ("id_ref", sequence_id_ref obj);
     ("id_source", sequence_id_source obj)]
    [singular (Writer_simple_str "symbol") (sequence_symbol obj);
     singular Writer_accession (sequence_accession obj);
     singular (Writer_simple_str "name") (sequence_name obj);
     singular (Writer_simple_str "location") (sequence_location obj);
     singular Writer_mol_seq (sequence_mol_seq obj);
     singular Writer_uri (sequence_uri obj);
     plural Writer_annotation (sequence_annotations obj);
     singular Writer_domain_architecture (sequence_domain_architecture obj);
     plural Writer_other_r (sequence_other obj)]
    None.

Definition Writer_sequence_relation (obj : SequenceRelation) : result Element :=
  _handle_complex (_ns "sequence_relation")
    [("id_ref_0", sequence_relation_id_ref_0 obj);
     ("id_ref_1", sequence_relation_id_ref_1 obj);
     ("distance", serialize_float <$> sequence_relation_distance obj);
     ("type", sequence_relation_type obj)]
    [singular Writer_confidence (sequence_relation_confidence obj)]
    None.

(** The class has no method [authority] nor [synonym] either. *)
Definition Writer_taxonomy (obj : Taxonomy) : result Element :=
  _handle_complex (_ns "taxonomy") [("id_source", taxonomy_id_source obj)]
    [singular Writer_id (taxonomy_id obj);
     singular (Writer_simple_str "code") (taxonomy_code obj);
     singular (Writer_simple_str "scientific_name") (taxonomy_scientific_name obj);
     singular (Writer_missing "authority") (taxonomy_authority obj);
     plural (Writer_simple_str "common_name") (taxonomy_common_names obj);
     plural (Writer_missing "synonym") (taxonomy_synonyms obj);
     singular (Writer_simple_str "rank") (taxonomy_rank obj);
     singular Writer_uri (taxonomy_uri obj);
     plural Writer_other_r (taxonomy_other obj)]
    None.

Fixpoint Writer_clade (obj : Clade) : result Element :=
  _handle_complex (_ns "clade") [("id_source", id_source obj)]
    [singular (Writer_simple_str "name") (name obj);
     singular (Writer_simple_float "branch_length") (branch_length obj);
     plural Writer_confidence (confidences obj);
     singular (Writer_simple_float "width") (width obj);
     singular Writer_color (color obj);
     singular Writer_node_id (node_id obj);
     plural Writer_taxonomy (taxonomies obj);
     plural Writer_sequence (sequences obj);
     singular Writer_events (events obj);
     singular Writer_binary_characters (binary_characters obj);
     plural Writer_distribution (distributions obj);
     singular Writer_date (date obj);
     plural Writer_reference (references obj);
     plural Writer_property (properties obj);
     (fix clade_all (l : list Clade) : result (list Element) :=
        match l with
        | [] => Ok []
        | c :: rest => e ← Writer_clade c; es ← clade_all rest; Ok (e :: es)
        end) (clades obj);
     plural Writer_other_r (other obj)]
    None.

Definition Writer_phylogeny (obj : Phylogeny) : result Element :=
  _handle_complex (_ns "phylogeny")
    [("rooted", serialize_bool <$> phy_rooted obj);
     ("rerootable", serialize_bool <$> phy_rerootable obj);
     ("branch_length_unit", phy_branch_length_unit obj);
     ("type", phy_type obj)]
    [singular (Writer_simple_str "name") (phy_name obj);
     singular Writer_id (phy_id obj);
     singular (Writer_simple_str "description") (phy_description obj);
     singular Writer_date (phy_date obj);
     plural Writer_confidence (phy_confidences obj);
     singular Writer_clade (phy_clade obj);
     plural Writer_clade_relation (phy_clade_relations obj);
     plural Writer_sequence_relation (phy_sequence_relations obj);
     plural Writer_property (phy_properties obj);
     plural Writer_other_r (phy_other obj)]
    None.

(** [Writer.phyloxml]: the root element takes no attribute; the trees
    come first, then the foreign nodes. *)
Definition Writer_phyloxml (obj : Phyloxml) : result Element :=
  trees ← map_result Writer_phylogeny (phylogenies obj);
  Ok (ET.mkElement (_ns "phyloxml") ∅ None
        (trees ++ map Writer_other (phyloxml_other obj))).

(** [write(phyloxml, file)]: the element tree that [Writer.__init__]
    builds and [Writer.write] hands to ElementTree, which puts it in the
    file.  A file is taken as the document it holds. *)
Definition write (phyloxml : Phyloxml) : result Element :=
  Writer_phyloxml phyloxml.

(** What [n] requests in a row give: for each, the name of the tree it
    returned or the exception it raised, and the number of events it left
    in the cursor. *)
Fixpoint requests (n : nat) (gen : generator)
  : list (result (option string) * nat) :=
  match n with
  | 0 => []
  | S n =>
      match next gen with
      | Some (r, gen') =>
          (match r with
           | Ok phylogeny => Ok (phy_name phylogeny)
           | Raise e => Raise e
           end, length (gen_context gen')) :: requests n gen'
      | None => []
      end
  end.

(* ===================================================================== *)
(** ** The loops with the fuel that suffices *)
(* ===================================================================== *)

Definition clade_loop (clade : Clade) (tag_stack : list string) (ctx : context)
  : outcome Clade :=
  _parse_clade_loop (fuel_for ctx) clade tag_stack ctx.

Definition phylogeny_loop (phylogeny : Phylogeny) (ctx : context)
  : outcome Phylogeny :=
  _parse_phylogeny_loop (fuel_for ctx) phylogeny ctx.

Definition Parser_read_loop (phyloxml : Phyloxml) (other_depth : Z)
    (ctx : context) : outcome Phyloxml :=
  read_loop (fuel_for ctx) phyloxml other_depth ctx.

(* ===================================================================== *)
(** ** The parser as a recursive descent over the document *)
(* ===================================================================== *)

(** What the loop of [_parse_clade] does, from the start event of [elem]
    to its end event, to the clade being built and to the tag stack.  It
    is a second description of the loop, by recursion over the document
    instead of over the events; [clade_loop_walk] relates the two. *)
Fixpoint clade_walk (elem : Element) (st : Clade * list string)
  : result (Clade * list string) :=
  let walk_children :=
    fix walk_children (l : list Element) (st : Clade * list string)
      : result (Clade * list string) :=
      match l with
      | [] => Ok st
      | child :: rest => st' ← clade_walk child st; walk_children rest st'
      end in
  '(namespace, tag) ← unpack2 (split_namespace (ET.tag elem));
  if String.eqb tag "clade" then
    clade ← _parse_clade_head elem;
    '(subclade, _) ← walk_children (ET.children elem) (clade, []);
    Ok (set_clades (clades st.1 ++ [subclade]) st.1, st.2)
  else
    let tag_stack :=
      if in_list tag _clade_tracked_tags then tag :: st.2 else st.2 in
    '(clade, tag_stack) ← walk_children (ET.children elem) (st.1, tag_stack);
    match tag_stack with
    | [] => Raise (IndexError "list index out of range")
    | top :: popped =>
        if negb (String.eqb tag top) then Ok (clade, tag_stack)
        else
          clade ← _parse_clade_assign clade namespace tag elem;
          Ok (clade, popped)
    end.

Fixpoint clade_walk_children (l : list Element) (st : Clade * list string)
  : result (Clade * list string) :=
  match l with
  | [] => Ok st
  | child :: rest => st' ← clade_walk child st; clade_walk_children rest st'
  end.

(** The clade that [_parse_clade(elem)] returns, by recursion over
    [elem]. *)
Definition clade_tree (elem : Element) : result Clade :=
  clade ← _parse_clade_head elem;
  '(clade, _) ← clade_walk_children (ET.children elem) (clade, []);
  Ok clade.

(** What the loop of [_parse_phylogeny] does from the start event of
    [elem] to its end event. *)
Fixpoint phylogeny_walk (elem : Element) (phylogeny : Phylogeny)
  : flow Phylogeny :=
  let walk_children :=
    fix walk_children (l : list Element) (phylogeny : Phylogeny)
      : flow Phylogeny :=
      match l with
      | [] => Next phylogeny
      | child :: rest =>
          match phylogeny_walk child phylogeny with
          | Next phylogeny => walk_children rest phylogeny
          | other => other
          end
      end in
  match unpack2 (split_namespace (ET.tag elem)) with
  | Ok (namespace, tag) =>
      if String.eqb tag "clade" then
        match phy_clade phylogeny with
        | Some _ =>
            Throw (AssertionError "Phylogeny object should only have 1 clade")
        | None =>
            match clade_tree elem with
            | Ok clade => Next (set_phy_clade (Some clade) phylogeny)
            | Raise e => Throw e
            end
        end
      else
        match walk_children (ET.children elem) phylogeny with
        | Next phylogeny =>
            if String.eqb tag "phylogeny" then Break phylogeny
            else
              match _parse_phylogeny_assign phylogeny namespace tag elem with
              | Ok phylogeny => Next phylogeny
              | Raise e => Throw e
              end
        | other => other
        end
  | Raise e => Throw e
  end.

Fixpoint phylogeny_walk_children (l : list Element) (phylogeny : Phylogeny)
  : flow Phylogeny :=
  match l with
  | [] => Next phylogeny
  | child :: rest =>
      match phylogeny_walk child phylogeny with
      | Next phylogeny => phylogeny_walk_children rest phylogeny
      | other => other
      end
  end.

(** The clade that [Tree.Clade()] builds without arguments. *)
Definition empty_clade : Clade :=
  Tree_Clade None None None None None None None None None [] [] [] [] [] [] [] [].

(** The chain of clades that names, level by level, the list [names]. *)
Fixpoint chain_clade (names : list string) : Clade :=
  match names with
  | [] => empty_clade
  | n :: rest =>
      set_clades [chain_clade rest]
        (set_name (collapse_wspace (Some n)) empty_clade)
  end.

(** The number of clades below a clade along its longest path. *)
Fixpoint clade_depth (clade : Clade) : nat :=
  (fix deepest (l : list Clade) : nat :=
     match l with
     | [] => 0
     | c :: rest => Nat.max (S (clade_depth c)) (deepest rest)
     end) (clades clade).

(** The message of the error that [_parse_clade] raises when a
    [branch_length] element arrives at a clade that has a length. *)
Definition branch_length_twice : string :=
  "Attribute branch_length was already set for this Clade; overwriting the previous value.".

(** The local name of an element, when its tag splits in two. *)
Definition local_tag (elem : Element) : option string :=
  match unpack2 (split_namespace (ET.tag elem)) with
  | Ok (_, tag) => Some tag
  | Raise _ => None
  end.

(** The number of [branch_length] elements that the loop of a clade meets
    from the start event of [elem] to its end event: [elem] itself and
    the elements below it, nested clades left out (the recursive call
    takes them). *)
Fixpoint own_lengths (elem : Element) : nat :=
  match local_tag elem with
  | Some tag =>
      if String.eqb tag "clade" then 0
      else
        (if String.eqb tag "branch_length" then 1 else 0)
        + (fix total (l : list Element) : nat :=
             match l with
             | [] => 0
             | child :: rest => own_lengths child + total rest
             end) (ET.children elem)
  | None => 0
  end.

Definition own_lengths_below (elem : Element) : nat :=
  list_sum (map own_lengths (ET.children elem)).

(** Every clade in [elem] has at most one source for its length: no
    [branch_length] element next to the attribute, and at most one
    without it. *)
Fixpoint one_source (elem : Element) : bool :=
  forallb one_source (ET.children elem)
  && match local_tag elem with
     | Some tag =>
         if String.eqb tag "clade" then
           match ET.get elem "branch_length" with
           | Some _ => Nat.eqb (own_lengths_below elem) 0
           | None => Nat.leb (own_lengths_below elem) 1
           end
         else true
     | None => true
     end.

(** The exceptions of a failed conversion or of a malformed element, as
    the conversion table raises them. *)
Definition conversion_error (e : exn) : Prop :=
  match e with
  | ValueError _ | TypeError _ | AttributeError _ => True
  | _ => False
  end.

(** [r] raises nothing but conversion errors. *)
Definition only_conversion_errors {A : Type} (r : result A) : Prop :=
  forall e, r = Raise e -> conversion_error e.

(** The tree that [_parse_phylogeny(parent)] builds from the children of
    [parent], by recursion over the document. *)
Definition phylogeny_tree (parent : Element) : flow Phylogeny :=
  match _parse_phylogeny_head parent with
  | Ok phylogeny => phylogeny_walk_children (ET.children parent) phylogeny
  | Raise e => Throw e
  end.

(** What a walk says about the loop run on the events of the same part of
    the document, followed by any further events [rest]. *)
Definition clade_loop_follows (walked : result (Clade * list string))
    (st : Clade * list string) (events rest : context) : Prop :=
  match walked with
  | Ok (clade', tag_stack') =>
      clade_loop st.1 st.2 (events ++ rest) = clade_loop clade' tag_stack' rest
  | Raise e =>
      exists tail, clade_loop st.1 st.2 (events ++ rest)
                   = Some (Raise e, tail ++ rest)
  end.

Definition phylogeny_loop_follows (walked : flow Phylogeny)
    (phylogeny : Phylogeny) (events rest : context) : Prop :=
  match walked with
  | Next phylogeny' =>
      phylogeny_loop phylogeny (events ++ rest) = phylogeny_loop phylogeny' rest
  | Break phylogeny' =>
      exists tail, phylogeny_loop phylogeny (events ++ rest)
                   = Some (Ok phylogeny', tail ++ rest)
  | Throw e =>
      exists tail, phylogeny_loop phylogeny (events ++ rest)
                   = Some (Raise e, tail ++ rest)
  end.

(* ===================================================================== *)
(** ** A document read, written and read again *)
(* ===================================================================== *)

(** [read(write(read(file)))]: the document is read, the result is
    written, and the file that was written is read.  The parser refuses
    a file that is not well-formed. *)
Definition reread (file : Element) : option (result Phyloxml) :=
  match read file with
  | Some (Ok phyloxml) =>
      match write phyloxml with
      | Ok written =>
          if ET.well_formed written then read (ET.reparse written)
          else Some (Raise SyntaxError)
      | Raise e => Some (Raise e)
      end
  | other => other
  end.

(** [phyloxml] without the attributes of the root element. *)
Definition without_attributes (phyloxml : Phyloxml) : Phyloxml :=
  Tree_Phyloxml ∅ (phylogenies phyloxml) (phyloxml_other phyloxml).

(** The elements that a singular entry of a subnode table gives with a
    simple handler: one element holding the text, or none. *)
Definition simple_elems (tag : string) (val : option string) : list Element :=
  match val with
  | Some text => [ET.mkElement (_ns tag) ∅ (Some text) []]
  | None => []
  end.

(** The element that [Writer.confidence] builds. *)
Definition confidence_elem (obj : Confidence) : Element :=
  ET.mkElement (_ns "confidence") (_clean_attrib [("type", confidence_type obj)])
    (Some (serialize_opt serialize_float (confidence_value obj))) [].

(** *** What is read back from the file *)

(** A float that [_float] reads back from what [serialize] prints of
    it. *)
Definition float_reads_back (x : float_t) : Prop :=
  ET.all_of ET.is_char (serialize_float x) = true
  /\ _float (ET.reparse_text (Some (serialize_float x))) = Some x.

(** A name or a description that [collapse_wspace] reads back from the
    text it was written as. *)
Definition name_reads_back (s : string) : Prop :=
  ET.all_of ET.is_char s = true
  /\ collapse_wspace (ET.reparse_text (Some s)) = Some s.

(** The value of an attribute that comes back from the file as it
    was. *)
Definition attribute_reads_back (s : string) : Prop :=
  ET.all_of ET.is_char s = true /\ ET.attribute_value s = s.

(** An object that is read back from the element the writer makes of
    it: [write] makes an element of [obj] whose file is well-formed,
    the element has the [shape] its place asks for, and [to] builds
    [obj] from what the parser delivers of it. *)
Definition reads_back {A : Type} (shape : Element -> bool)
    (write : A -> result Element) (to : Element -> result A) (obj : A)
  : Prop :=
  exists elem,
    write obj = Ok elem
    /\ ET.well_formed elem = true
    /\ shape elem = true
    /\ to (ET.reparse elem) = Ok obj.

(** The shape of an element below a clade: no element below it has a
    tag that the loop of [_parse_clade] tracks or takes for a clade.
    The loop compares an end tag with the top of the stack only, so it
    would assign such an element to the clade (C1). *)
Fixpoint untracked_below (elem : Element) : bool :=
  forallb (fun child =>
             match local_tag child with
             | Some tag =>
                 negb (String.eqb tag "clade")
                 && negb (in_list tag _clade_tracked_tags)
             | None => false
             end && untracked_below child)
    (ET.children elem).

(** The shape of an element below a tree, the root clade apart: it has
    no children.  The loop of [_parse_phylogeny] has no stack, and
    dispatches on the end tag of every element, whatever its depth. *)
Definition childless (elem : Element) : bool :=
  match ET.children elem with
  | [] => true
  | _ => false
  end.

(** The shape of a foreign element under the root: no element below it
    is a [phylogeny] of phyloXML, which [Parser.read] would parse as a
    tree of the document wherever it starts. *)
Fixpoint tree_free (elem : Element) : bool :=
  forallb (fun child =>
             match unpack2 (split_namespace (ET.tag child)) with
             | Ok (namespace, localtag) =>
                 negb (String.eqb namespace NAMESPACES_phy
                       && String.eqb localtag "phylogeny")
             | Raise _ => false
             end && tree_free child)
    (ET.children elem).

(** The local names that the loop of [_parse_phylogeny] dispatches on
    before it looks at the namespace. *)
Definition _phylogeny_dispatch_tags : list string :=
  ["clade"; "phylogeny"] ++ _phylogeny_complex_types ++ _phylogeny_list_types
    ++ ["name"; "description"].

(** A clade whose parts are read back, each from the element the writer
    makes of it, and that has no [node_id] and no foreign node: the
    writer fails on the first (its handler looks up an attribute of a
    string) and the loop of [_parse_clade] never builds the second. *)
Fixpoint rereadable_clade (clade : Clade) : Prop :=
  from_option attribute_reads_back True (id_source clade)
  /\ from_option name_reads_back True (name clade)
  /\ from_option float_reads_back True (branch_length clade)
  /\ Forall (reads_back untracked_below Writer_confidence to_confidence)
       (confidences clade)
  /\ from_option float_reads_back True (width clade)
  /\ from_option (reads_back untracked_below Writer_color to_color) True
       (color clade)
  /\ node_id clade = None
  /\ Forall (reads_back untracked_below Writer_taxonomy to_taxonomy)
       (taxonomies clade)
  /\ Forall (reads_back untracked_below Writer_sequence to_sequence)
       (sequences clade)
  /\ from_option (reads_back untracked_below Writer_events to_events) True
       (events clade)
  /\ from_option (reads_back untracked_below Writer_binary_characters
                    to_binary_characters) True
       (binary_characters clade)
  /\ Forall (reads_back untracked_below Writer_distribution to_distribution)
       (distributions clade)
  /\ from_option (reads_back untracked_below Writer_date to_date) True
       (date clade)
  /\ Forall (reads_back untracked_below Writer_reference to_reference)
       (references clade)
  /\ Forall (reads_back untracked_below Writer_property to_property)
       (properties clade)
  /\ (fix all (l : list Clade) : Prop :=
        match l with
        | [] => True
        | child :: rest => rereadable_clade child /\ all rest
        end) (clades clade)
  /\ other clade = [].

(** A foreign node below a tree that is read back: its element has no
    children, its namespace is not that of phyloXML and its tag is none
    of those the loop takes for a part of the tree. *)
Definition rereadable_tree_other (obj : Other) : Prop :=
  other_namespace obj <> NAMESPACES_phy
  /\ in_list (other_tag obj) _phylogeny_dispatch_tags = false
  /\ reads_back childless Writer_other_r to_other obj.

(** A tree whose parts are read back, each from the element the writer
    makes of it. *)
Definition rereadable_phylogeny (phylogeny : Phylogeny) : Prop :=
  from_option attribute_reads_back True (phy_branch_length_unit phylogeny)
  /\ from_option attribute_reads_back True (phy_type phylogeny)
  /\ from_option name_reads_back True (phy_name phylogeny)
  /\ from_option (reads_back childless Writer_id to_id) True (phy_id phylogeny)
  /\ from_option name_reads_back True (phy_description phylogeny)
  /\ from_option (reads_back childless Writer_date to_date) True
       (phy_date phylogeny)
  /\ Forall (reads_back childless Writer_confidence to_confidence)
       (phy_confidences phylogeny)
  /\ from_option rereadable_clade True (phy_clade phylogeny)
  /\ Forall (reads_back childless Writer_clade_relation to_clade_relation)
       (phy_clade_relations phylogeny)
  /\ Forall (reads_back childless Writer_sequence_relation
               to_sequence_relation)
       (phy_sequence_relations phylogeny)
  /\ Forall (reads_back childless Writer_property to_property)
       (phy_properties phylogeny)
  /\ Forall rereadable_tree_other (phy_other phylogeny).

(** A foreign node under the root that is read back. *)
Definition rereadable_other (obj : Other) : Prop :=
  other_namespace obj <> NAMESPACES_phy
  /\ reads_back tree_free Writer_other_r to_other obj.

(** A document whose trees and foreign nodes are read back. *)
Definition rereadable_document (phyloxml : Phyloxml) : Prop :=
  Forall rereadable_phylogeny (phylogenies phyloxml)
  /\ Forall rereadable_other (phyloxml_other phyloxml).

(* ===================================================================== *)
(** ** The generator drained, and the tags dumped *)
(* ===================================================================== *)

(** [list(gen)]: the generator is asked for its next tree until it is
    exhausted; an exception other than StopIteration propagates.  [fuel]
    bounds the number of requests. *)
Fixpoint list_of_generator (fuel : nat) (gen : generator)
  : option (result (list Phylogeny)) :=
  match fuel with
  | 0 => None
  | S fuel =>
      match next gen with
      | Some (Ok phylogeny, gen') =>
          match list_of_generator fuel gen' with
          | Some (Ok trees) => Some (Ok (phylogeny :: trees))
          | other => other
          end
      | Some (Raise StopIteration, _) => Some (Ok [])
      | Some (Raise e, _) => Some (Raise e)
      | None => None
      end
  end.

(** [list(parse(file))]: a request consumes an event at least, so one
    request more than there are events is enough. *)
Definition parse_list (file : Element) : option (result (list Phylogeny)) :=
  match parse file with
  | Ok gen => list_of_generator (S (length (gen_context gen))) gen
  | Raise e => Some (Raise e)
  end.

(** [dump_tags(handle, file)]: what the loop writes to [file]; the
    [elem.clear()] of an end event comes after the tag was written. *)
Definition dump_tags (handle : Element) : string :=
  foldl (fun written '(event, elem) =>
           match event with
           | EvStart => written +:+ ET.tag elem +:+ String "010" EmptyString
           | EvEnd => written
           end)
        EmptyString (iterparse handle).

(** The tags of a document, each element before its children, in
    document order. *)
Fixpoint tags_of (elem : Element) : list string :=
  ET.tag elem :: flat_map tags_of (ET.children elem).

(** The lines [lines], each ended by a line feed. *)
Fixpoint unlines (lines : list string) : string :=
  match lines with
  | [] => EmptyString
  | line :: rest => line +:+ String "010" (unlines rest)
  end.

End PhyloXMLIO.

(** An event that makes the generator of [Parser.parse] call
    [_parse_phylogeny]. *)
Definition starts_phylogeny (ev : ET.event * Element) : bool :=
  ET.is_start ev.1 && String.eqb (ET.tag ev.2) (_ns "phylogeny").

(* ===================================================================== *)
(** ** Foreign elements through a read and a write *)
(* ===================================================================== *)

(** [elem] with every text replaced by what [to_other] keeps of it. *)
Fixpoint trimmed (elem : Element) : Element :=
  ET.mkElement (ET.tag elem) (ET.attrib elem) (strip_or_none (ET.text elem))
    (map trimmed (ET.children elem)).

(** A tag of the form [{namespace}local]. *)
Definition namespaced_tag (tag : string) : bool :=
  match tag with
  | String "{" rest =>
      match Py.partition "}" rest with Some _ => true | None => false end
  | _ => false
  end.

(** An element whose tag, and those of the elements below it, carry a
    namespace. *)
Fixpoint namespaced (elem : Element) : bool :=
  namespaced_tag (ET.tag elem) && forallb namespaced (ET.children elem).

(** [Writer.other(Parser.to_other(elem))] *)
Definition other_roundtrip (elem : Element) : result Element :=
  obj ← to_other elem; Ok (Writer_other obj).

(* ===================================================================== *)
(** ** Example documents *)
(* ===================================================================== *)

Definition phy_elem (tag : string) (attrib : gmap string string)
    (text : option string) (children : list Element) : Element :=
  ET.mkElement (_ns tag) attrib text children.

Definition phy_leaf (tag text : string) : Element :=
  phy_elem tag ∅ (Some text) [].

(** A chain of clades, one name for each level: every clade holds a
    [name] element and, but for the innermost, one clade. *)
Fixpoint chain_elem (names : list string) : Element :=
  match names with
  | [] => phy_elem "clade" ∅ None []
  | n :: rest => phy_elem "clade" ∅ None [phy_leaf "name" n; chain_elem rest]
  end.

(** [<clade><name>A</name><sequence><name>SEQ</name></sequence></clade>] *)
Definition ex_clade_sequence_name : Element :=
  phy_elem "clade" ∅ None
    [phy_leaf "name" "A";
     phy_elem "sequence" ∅ None [phy_leaf "name" "SEQ"]].

(** [<clade><x:note xmlns:x="http://example.org">hi</x:note></clade>] *)
Definition ex_clade_foreign : Element :=
  phy_elem "clade" ∅ None
    [ET.mkElement "{http://example.org}note" ∅ (Some "hi") []].

(** [<clade><name>A</name><x:note>hi</x:note></clade>], the foreign
    element arriving while [name] was pushed and popped before it. *)
Definition ex_clade_foreign_in_name : Element :=
  phy_elem "clade" ∅ None
    [phy_elem "name" ∅ (Some "A")
       [ET.mkElement "{http://example.org}note" ∅ (Some "hi") []]].

(** [<clade branch_length="abc"/>] *)
Definition ex_clade_bad_attribute : Element :=
  phy_elem "clade" {[ "branch_length" := "abc" ]} None [].

(** [<clade branch_length="3"><branch_length>4</branch_length></clade>] *)
Definition ex_clade_two_lengths : Element :=
  phy_elem "clade" {[ "branch_length" := "3" ]} None
    [phy_leaf "branch_length" "4"].

(** A clade whose three numeric children do not hold a number. *)
Definition ex_clade_bad_numbers : Element :=
  phy_elem "clade" ∅ None
    [phy_leaf "branch_length" "abc"; phy_leaf "width" "wide";
     phy_elem "confidence" {[ "type" := "bootstrap" ]} (Some "high") []].

(** [<phylogeny rooted="True"/>] *)
Definition ex_phylogeny_bad_flag : Element :=
  phy_elem "phylogeny" {[ "rooted" := "True" ]} None [].

(** [<phylogeny><clade/><clade/></phylogeny>] *)
Definition ex_phylogeny_two_roots : Element :=
  phy_elem "phylogeny" ∅ None
    [phy_elem "clade" ∅ None []; phy_elem "clade" ∅ None []].

(** [<x:note xmlns:x="http://example.org" k="v"> hi <x:sub/></x:note>] *)
Definition ex_foreign_padded : Element :=
  ET.mkElement "{http://example.org}note" {[ "k" := "v" ]} (Some " hi ")
    [ET.mkElement "{http://example.org}sub" ∅ None []].

(** [<phyloxml><phylogeny>...</phylogeny> x 3</phyloxml>], the trees named
    [a], [b], [c]; the second has two roots. *)
Definition ex_three_trees : Element :=
  phy_elem "phyloxml" ∅ None
    [phy_elem "phylogeny" ∅ None [phy_leaf "name" "a"];
     phy_elem "phylogeny" ∅ None
       [phy_leaf "name" "b"; phy_elem "clade" ∅ None [];
        phy_elem "clade" ∅ None []];
     phy_elem "phylogeny" ∅ None [phy_leaf "name" "c"]].

(** A document as the phyloXML tools write them: the root names the
    schema, the tree is rooted and named, its clades carry names, lengths
    and a confidence, and a foreign element follows the tree. *)
Definition ex_document : Element :=
  phy_elem "phyloxml"
    {[ "{http://www.w3.org/2001/XMLSchema-instance}schemaLocation"
       := "http://www.phyloxml.org http://www.phyloxml.org/1.10/phyloxml.xsd" ]}
    None
    [phy_elem "phylogeny" {[ "rooted" := "true" ]} None
       [phy_leaf "name" "example";
        phy_elem "clade" ∅ None
          [phy_elem "clade" ∅ None
             [phy_leaf "name" "A"; phy_leaf "branch_length" "1.0"];
           phy_elem "clade" ∅ None
             [phy_leaf "name" "B"; phy_leaf "branch_length" "2.0";
              phy_elem "confidence" {[ "type" := "bootstrap" ]}
                (Some "89.0") []]]];
     ET.mkElement "{http://example.org}note" ∅ (Some "hi") []].

(** A leaf of the example: a clade with a name, a length and
    confidences. *)
Definition ex_leaf (name : string) (length : Z)
    (confidences : list (@Confidence integral_float))
  : @Clade integral_float :=
  Tree_Clade (PF := integral_float) (Some length) None (Some name) None None
    None None None None confidences [] [] [] [] [] [] [].

(** The document that [read] builds from [ex_document], on the stand-in
    floats. *)
Definition ex_phyloxml : @Phyloxml integral_float :=
  Tree_Phyloxml (PF := integral_float)
    {[ "schemaLocation"
       := "http://www.phyloxml.org http://www.phyloxml.org/1.10/phyloxml.xsd" ]}
    [Tree_Phylogeny (PF := integral_float) (Some true) None None None (Some "example") None None None
       []
       (Some (Tree_Clade (PF := integral_float) None None None None None None
                None None None [] [] [] [] [] []
                [ex_leaf "A" 1 [];
                 ex_leaf "B" 2
                   [Tree_Confidence (PF := integral_float) (Some 89%Z)
                      (Some "bootstrap")]]
                []))
       [] [] [] []]
    [Tree_Other "note" "http://example.org" ∅ (Some "hi") []].

(** [<clade><branch_length>1</branch_length><branch_length>2</branch_length></clade>]:
    no attribute, two elements. *)
Definition ex_clade_two_length_elements : Element :=
  phy_elem "clade" ∅ None
    [phy_leaf "branch_length" "1"; phy_leaf "branch_length" "2"].

(** [<clade branch_length="abc"><branch_length>1</branch_length></clade>] *)
Definition ex_clade_bad_attribute_and_length : Element :=
  phy_elem "clade" {[ "branch_length" := "abc" ]} None
    [phy_leaf "branch_length" "1"].

(** [<phylogeny><x:phylogeny xmlns:x="http://example.org"/><clade/><clade/></phylogeny>] *)
Definition ex_phylogeny_nested_tree : Element :=
  phy_elem "phylogeny" ∅ None
    [ET.mkElement "{http://example.org}phylogeny" ∅ None [];
     phy_elem "clade" ∅ None []; phy_elem "clade" ∅ None []].

(** [<phylogeny><date><desc>now</desc></date><clade/><clade/></phylogeny>] *)
Definition ex_phylogeny_dated : Element :=
  phy_elem "phylogeny" ∅ None
    [phy_elem "date" ∅ None [phy_leaf "desc" "now"];
     phy_elem "clade" ∅ None []; phy_elem "clade" ∅ None []].

(** Whether a tree has a root. *)
Definition has_root `{PF : PyFloat} (phylogeny : Phylogeny) : bool :=
  match phy_clade phylogeny with
  | Some _ => true
  | None => false
  end.

(** A document with more in it: the tree has an identifier, a
    description, a confidence, a property and a foreign node of its own;
    the clade [A] has a colour, a taxonomy, events, a date, a reference
    and a property; the foreign node under the root has a child. *)
Definition ex_rich_clade : Element :=
  phy_elem "clade" ∅ None
    [phy_leaf "name" "A"; phy_leaf "branch_length" "1.0";
     phy_elem "confidence" {[ "type" := "bootstrap" ]} (Some "89.0") [];
     phy_leaf "width" "2.0";
     phy_elem "color" ∅ None
       [phy_leaf "red" "255"; phy_leaf "green" "128"; phy_leaf "blue" "7"];
     phy_elem "taxonomy" {[ "id_source" := "t1" ]} None
       [phy_elem "id" {[ "provider" := "ncbi" ]} (Some "9606") [];
        phy_leaf "code" "HUMAN";
        phy_leaf "scientific_name" "Homo sapiens";
        phy_leaf "common_name" "human";
        phy_leaf "rank" "species"];
     phy_elem "events" ∅ None
       [phy_leaf "type" "speciation_or_duplication";
        phy_leaf "duplications" "1"; phy_leaf "speciations" "2"];
     phy_elem "date" {[ "unit" := "mya" ]} None
       [phy_leaf "desc" "Silurian"; phy_leaf "value" "425.0"];
     phy_elem "reference" {[ "doi" := "10.1000/182" ]} None
       [phy_leaf "desc" "A paper"];
     phy_elem "property"
       {[ "ref" := "NOAA:depth"; "unit" := "METRIC:m";
          "datatype" := "xsd:integer"; "applies_to" := "clade" ]}
       (Some "1200") []].

Definition ex_rich_document : Element :=
  phy_elem "phyloxml"
    {[ "{http://www.w3.org/2001/XMLSchema-instance}schemaLocation"
       := "http://www.phyloxml.org http://www.phyloxml.org/1.10/phyloxml.xsd" ]}
    None
    [phy_elem "phylogeny"
       {[ "rooted" := "true"; "branch_length_unit" := "million years" ]} None
       [phy_leaf "name" "rich";
        phy_elem "id" {[ "provider" := "treebase" ]} (Some "S42") [];
        phy_leaf "description" "a tree with more in it";
        phy_elem "confidence" {[ "type" := "posterior" ]} (Some "1.0") [];
        phy_elem "clade" {[ "id_source" := "root" ]} None
          [ex_rich_clade;
           phy_elem "clade" ∅ None [phy_leaf "name" "B"]];
        phy_elem "property"
          {[ "ref" := "x:made"; "datatype" := "xsd:string";
             "applies_to" := "phylogeny" ]}
          (Some "by hand") [];
        ET.mkElement "{http://example.org}note" {[ "k" := "v" ]}
          (Some "below the tree") []];
     ET.mkElement "{http://example.org}note" ∅ (Some "hi")
       [ET.mkElement "{http://example.org}sub" {[ "k" := "v" ]} None []]].

Definition ex_rich_clade_read : @Clade integral_float :=
  Tree_Clade (PF := integral_float) (Some 1%Z) None (Some "A") (Some 2%Z)
    (Some (Tree_BranchColor (Some 255%Z) (Some 128%Z) (Some 7%Z)))
    None
    (Some (Tree_Events (PF := integral_float)
             (Some "speciation_or_duplication") (Some 1%Z) (Some 2%Z) None
             None))
    None
    (Some (Tree_Date (PF := integral_float) (Some "mya") (Some "Silurian")
             (Some 425%Z) None None))
    [Tree_Confidence (PF := integral_float) (Some 89%Z) (Some "bootstrap")]
    [Tree_Taxonomy (Some "t1") (Some (Tree_Id "9606" (Some "ncbi")))
       (Some "HUMAN") (Some "Homo sapiens") None ["human"] []
       (Some "species") None []]
    [] []
    [Tree_Reference (Some "10.1000/182") (Some "A paper")]
    [Tree_Property "1200" (Some "NOAA:depth") (Some "clade")
       (Some "xsd:integer") (Some "METRIC:m") None]
    [] [].

(** The document that [read] builds from [ex_rich_document]. *)
Definition ex_rich_phyloxml : @Phyloxml integral_float :=
  Tree_Phyloxml (PF := integral_float)
    {[ "schemaLocation"
       := "http://www.phyloxml.org http://www.phyloxml.org/1.10/phyloxml.xsd" ]}
    [Tree_Phylogeny (PF := integral_float) (Some true) None
       (Some "million years") None (Some "rich")
       (Some (Tree_Id "S42" (Some "treebase")))
       (Some "a tree with more in it") None
       [Tree_Confidence (PF := integral_float) (Some 1%Z) (Some "posterior")]
       (Some (Tree_Clade (PF := integral_float) None (Some "root") None None
                None None None None None [] [] [] [] [] []
                [ex_rich_clade_read;
                 Tree_Clade (PF := integral_float) None None (Some "B") None
                   None None None None None [] [] [] [] [] [] [] []]
                []))
       [] []
       [Tree_Property "by hand" (Some "x:made") (Some "phylogeny")
          (Some "xsd:string") None None]
       [Tree_Other "note" "http://example.org" {[ "k" := "v" ]}
          (Some "below the tree") []]]
    [Tree_Other "note" "http://example.org" ∅ (Some "hi")
       [Tree_Other "sub" "http://example.org" {[ "k" := "v" ]} None []]].

(** [unicode(obj)] of a [Tree.MolSeq] in the examples: the sequence. *)
Definition ex_unicode_MolSeq `{PF : PyFloat} (obj : MolSeq) : string :=
  mol_seq_value obj.

(** What a read gave as the attributes of the document, when it gave a
    document. *)
Definition attributes_read `{PF : PyFloat} (r : option (result Phyloxml))
  : option (gmap string string) :=
  match r with
  | Some (Ok phyloxml) => Some (attributes phyloxml)
  | _ => None
  end.

(** The names of the trees a read gave, when it gave a document. *)
Definition names_read `{PF : PyFloat} (r : option (result Phyloxml))
  : option (list (option string)) :=
  match r with
  | Some (Ok phyloxml) => Some (map phy_name (phylogenies phyloxml))
  | _ => None
  end.

(* ===================================================================== *)
(** * Properties *)
(* ===================================================================== *)

#[local] Arguments in_list : simpl never.
#[local] Arguments unpack2 : simpl never.
#[local] Arguments split_namespace : simpl never.
#[local] Arguments _parse_clade_head : simpl never.
#[local] Arguments _parse_clade_assign : simpl never.
#[local] Arguments _parse_phylogeny_head : simpl never.
#[local] Arguments _parse_phylogeny_assign : simpl never.
#[local] Arguments String.eqb : simpl never.
#[local] Arguments clade_walk : simpl never.
#[local] Arguments to_confidence : simpl never.
#[local] Arguments to_other : simpl never.
#[local] Arguments to_accession : simpl never.
#[local] Arguments to_annotation : simpl never.
#[local] Arguments to_binary_characters : simpl never.
#[local] Arguments to_clade_relation : simpl never.
#[local] Arguments to_color : simpl never.
#[local] Arguments to_date : simpl never.
#[local] Arguments to_distribution : simpl never.
#[local] Arguments to_events : simpl never.
#[local] Arguments to_id : simpl never.
#[local] Arguments to_property : simpl never.
#[local] Arguments to_reference : simpl never.
#[local] Arguments to_sequence : simpl never.
#[local] Arguments to_sequence_relation : simpl never.
#[local] Arguments to_taxonomy : simpl never.
#[local] Arguments clade_loop : simpl never.
#[local] Arguments phylogeny_loop : simpl never.
#[local] Arguments Parser_read_loop : simpl never.
#[local] Arguments _parse_clade : simpl never.
#[local] Arguments _parse_phylogeny : simpl never.
#[local] Arguments fuel_for : simpl never.
#[local] Arguments ET.events_of : simpl never.
#[local] Arguments ET.events_of_list : simpl never.
#[local] Arguments phylogeny_walk : simpl never.

(** From [r ≫= k = Ok b]: [r] is some [Ok a]. *)
Ltac inv_bind H :=
  repeat match type of H with
         | (?r ≫= _) = Ok _ =>
             let E := fresh "E" in
             destruct r eqn:E; simpl in H; [|discriminate H]
         end.

Section Properties.
Context `{PF : PyFloat}.

Lemma events_of_eq (e : Element) :
  ET.events_of e
  = (EvStart, e) :: ET.events_of_list (ET.children e) ++ [(EvEnd, e)].
Proof. by destruct e. Qed.

(** More fuel does not change an outcome. *)
Lemma parse_clade_mono (fuel : nat) :
  (forall fuel' parent ctx out,
      _parse_clade_at fuel parent ctx = Some out -> fuel <= fuel' ->
      _parse_clade_at fuel' parent ctx = Some out)
  /\ (forall fuel' clade tag_stack ctx out,
      _parse_clade_loop fuel clade tag_stack ctx = Some out -> fuel <= fuel' ->
      _parse_clade_loop fuel' clade tag_stack ctx = Some out).
Proof.
  induction fuel as [|fuel [IHat IHloop]]; [done|].
  split.
  - intros [|fuel'] parent ctx out H Hle; [lia|]. simpl in *.
    destruct (_parse_clade_head parent); [|done].
    apply IHloop; [done|lia].
  - intros [|fuel'] clade tag_stack ctx out H Hle; [lia|].
    assert (Hle' : fuel <= fuel') by lia.
    simpl in *.
    repeat (case_match; simplify_eq; try done); simplify_eq.
    all: try (by apply IHloop).
    all: match goal with
         | H : _parse_clade_at _ _ _ = Some _,
           H' : _parse_clade_at _ _ _ = _ |- _ =>
             eapply IHat in H; [|exact Hle']; rewrite H in H'
         end; simplify_eq; first [done | by apply IHloop].
Qed.

(** With [2 * length ctx] units of fuel and a little more, the functions
    return, and they return a context no longer than the one they got. *)
Lemma parse_clade_total (fuel : nat) :
  (forall parent ctx,
      2 * length ctx + 1 < fuel ->
      exists r ctx', _parse_clade_at fuel parent ctx = Some (r, ctx')
                     /\ length ctx' <= length ctx)
  /\ (forall clade tag_stack ctx,
      2 * length ctx < fuel ->
      exists r ctx', _parse_clade_loop fuel clade tag_stack ctx = Some (r, ctx')
                     /\ length ctx' <= length ctx).
Proof.
  induction fuel as [|fuel [IHat IHloop]]; [split; intros; lia|].
  split.
  - intros parent ctx Hf. simpl.
    destruct (_parse_clade_head parent); [|by eauto].
    apply IHloop. lia.
  - intros clade tag_stack [|[event elem] ctx] Hf; simpl; [by eauto|].
    simpl in Hf.
    destruct (unpack2 _) as [[namespace tag]|]; [|by eauto].
    destruct event.
    + destruct (tag =? "clade").
      * destruct (IHat elem ctx) as (r & ctx1 & -> & Hlen); [lia|].
        destruct r as [subclade|]; [|by eauto].
        destruct (IHloop (set_clades (clades clade ++ [subclade]) clade)
                    tag_stack ctx1) as (r & ctx2 & -> & Hlen2); [lia|].
        exists r, ctx2. split; [done|simpl; lia].
      * destruct (in_list tag _clade_tracked_tags).
        -- destruct (IHloop clade (tag :: tag_stack) ctx)
             as (r & ctx1 & -> & Hlen); [lia|].
           exists r, ctx1. split; [done|simpl; lia].
        -- destruct (IHloop clade tag_stack ctx)
             as (r & ctx1 & -> & Hlen); [lia|].
           exists r, ctx1. split; [done|simpl; lia].
    + destruct (tag =? "clade"); [by eauto|].
      destruct tag_stack as [|top popped]; [by eauto|].
      destruct (negb (tag =? top)).
      * destruct (IHloop clade (top :: popped) ctx)
          as (r & ctx1 & -> & Hlen); [lia|].
        exists r, ctx1. split; [done|simpl; lia].
      * destruct (_parse_clade_assign clade namespace tag elem) as [clade'|];
          [|by eauto].
        destruct (IHloop clade' popped ctx)
          as (r & ctx1 & -> & Hlen); [lia|].
        exists r, ctx1. split; [done|simpl; lia].
Qed.



Lemma parse_clade_loop_enough fuel clade tag_stack ctx :
  2 * length ctx < fuel ->
  _parse_clade_loop fuel clade tag_stack ctx = clade_loop clade tag_stack ctx.
Proof.
  intros Hf. unfold clade_loop.
  destruct (proj2 (parse_clade_total (S (2 * length ctx))) clade tag_stack ctx)
    as (r & ctx' & H & _); [lia|].
  rewrite (proj2 (parse_clade_mono _) fuel _ _ _ _ H); [|lia].
  rewrite (proj2 (parse_clade_mono _) (fuel_for ctx) _ _ _ _ H); [done|].
  unfold fuel_for. lia.
Qed.

Lemma parse_clade_at_enough fuel parent ctx :
  2 * length ctx + 1 < fuel ->
  _parse_clade_at fuel parent ctx = _parse_clade parent ctx.
Proof.
  intros Hf. unfold _parse_clade.
  destruct (proj1 (parse_clade_total (S (2 * length ctx + 1))) parent ctx)
    as (r & ctx' & H & _); [lia|].
  rewrite (proj1 (parse_clade_mono _) fuel _ _ _ H); [|lia].
  rewrite (proj1 (parse_clade_mono _) (fuel_for ctx) _ _ _ H); [done|].
  unfold fuel_for. lia.
Qed.

(** [_parse_clade] always returns, and consumes events only. *)
Lemma parse_clade_returns parent ctx :
  exists r ctx', _parse_clade parent ctx = Some (r, ctx')
                 /\ length ctx' <= length ctx.
Proof. apply (proj1 (parse_clade_total _)). unfold fuel_for. lia. Qed.

Lemma clade_loop_returns clade tag_stack ctx :
  exists r ctx', clade_loop clade tag_stack ctx = Some (r, ctx')
                 /\ length ctx' <= length ctx.
Proof. apply (proj2 (parse_clade_total _)). unfold fuel_for. lia. Qed.

(** The equations of [_parse_clade] and its loop, free of fuel. *)
Lemma parse_clade_eq parent ctx :
  _parse_clade parent ctx
  = match _parse_clade_head parent with
    | Ok clade => clade_loop clade [] ctx
    | Raise e => Some (Raise e, ctx)
    end.
Proof.
  unfold _parse_clade, fuel_for.
  replace (2 * length ctx + 3) with (S (2 * length ctx + 2)) by lia. simpl.
  destruct (_parse_clade_head parent); [|done].
  apply parse_clade_loop_enough. lia.
Qed.

Lemma clade_loop_nil clade tag_stack :
  clade_loop clade tag_stack [] = Some (Ok clade, []).
Proof. done. Qed.

Lemma clade_loop_cons clade tag_stack event elem ctx :
  clade_loop clade tag_stack ((event, elem) :: ctx)
  = match unpack2 (split_namespace (ET.tag elem)) with
    | Ok (namespace, tag) =>
        match event with
        | EvStart =>
            if String.eqb tag "clade" then
              match _parse_clade elem ctx with
              | Some (Ok subclade, ctx) =>
                  clade_loop (set_clades (clades clade ++ [subclade]) clade)
                    tag_stack ctx
              | Some (Raise e, ctx) => Some (Raise e, ctx)
              | None => None
              end
            else if in_list tag _clade_tracked_tags then
              clade_loop clade (tag :: tag_stack) ctx
            else clade_loop clade tag_stack ctx
        | EvEnd =>
            if String.eqb tag "clade" then Some (Ok clade, ctx)
            else
              match tag_stack with
              | [] => Some (Raise (IndexError "list index out of range"), ctx)
              | top :: popped =>
                  if negb (String.eqb tag top) then
                    clade_loop clade tag_stack ctx
                  else
                    match _parse_clade_assign clade namespace tag elem with
                    | Ok clade => clade_loop clade popped ctx
                    | Raise e => Some (Raise e, ctx)
                    end
              end
        end
    | Raise e => Some (Raise e, ctx)
    end.
Proof.
  unfold clade_loop at 1. unfold fuel_for.
  replace (2 * length ((event, elem) :: ctx) + 3)
    with (S (2 * length ctx + 4)) by (simpl; lia).
  simpl.
  destruct (unpack2 _) as [[namespace tag]|]; [|done].
  destruct event.
  - destruct (tag =? "clade").
    + rewrite parse_clade_at_enough by lia.
      destruct (parse_clade_returns elem ctx) as (r & ctx' & -> & Hlen).
      destruct r; [|done]. apply parse_clade_loop_enough. lia.
    + destruct (in_list tag _clade_tracked_tags);
        apply parse_clade_loop_enough; lia.
  - destruct (tag =? "clade"); [done|].
    destruct tag_stack as [|top popped]; [done|].
    destruct (negb (tag =? top)); [apply parse_clade_loop_enough; simpl; lia|].
    destruct (_parse_clade_assign clade namespace tag elem); [|done].
    apply parse_clade_loop_enough. lia.
Qed.


(** *** The loop of [_parse_phylogeny] *)

Lemma parse_phylogeny_loop_mono fuel :
  forall fuel' phylogeny ctx out,
    _parse_phylogeny_loop fuel phylogeny ctx = Some out -> fuel <= fuel' ->
    _parse_phylogeny_loop fuel' phylogeny ctx = Some out.
Proof.
  induction fuel as [|fuel IH]; [done|].
  intros [|fuel'] phylogeny ctx out H Hle; [lia|].
  assert (Hle' : fuel <= fuel') by lia.
  simpl in *.
  repeat (case_match; simplify_eq; try done); by apply IH.
Qed.

Lemma parse_phylogeny_loop_total fuel :
  forall phylogeny ctx,
    length ctx < fuel ->
    exists r ctx', _parse_phylogeny_loop fuel phylogeny ctx = Some (r, ctx')
                   /\ length ctx' <= length ctx.
Proof.
  induction fuel as [|fuel IH]; [intros; lia|].
  intros phylogeny [|[event elem] ctx] Hf; simpl; [by eauto|].
  simpl in Hf.
  destruct (unpack2 _) as [[namespace tag]|]; [|by eauto].
  destruct event.
  - destruct (tag =? "clade").
    + destruct (phy_clade phylogeny); [by eauto|].
      destruct (parse_clade_returns elem ctx) as (r & ctx1 & -> & Hlen).
      destruct r as [clade|]; [|by eauto].
      destruct (IH (set_phy_clade (Some clade) phylogeny) ctx1)
        as (r & ctx2 & -> & Hlen2); [lia|].
      exists r, ctx2. split; [done|lia].
    + destruct (IH phylogeny ctx) as (r & ctx1 & -> & Hlen); [lia|].
      exists r, ctx1. split; [done|lia].
  - destruct (tag =? "phylogeny"); [by eauto|].
    destruct (_parse_phylogeny_assign phylogeny namespace tag elem)
      as [phylogeny'|]; [|by eauto].
    destruct (IH phylogeny' ctx) as (r & ctx1 & -> & Hlen); [lia|].
    exists r, ctx1. split; [done|lia].
Qed.

Lemma parse_phylogeny_loop_enough fuel phylogeny ctx :
  length ctx < fuel ->
  _parse_phylogeny_loop fuel phylogeny ctx = phylogeny_loop phylogeny ctx.
Proof.
  intros Hf. unfold phylogeny_loop.
  destruct (parse_phylogeny_loop_total (S (length ctx)) phylogeny ctx)
    as (r & ctx' & H & _); [lia|].
  rewrite (parse_phylogeny_loop_mono _ fuel _ _ _ H); [|lia].
  rewrite (parse_phylogeny_loop_mono _ (fuel_for ctx) _ _ _ H); [done|].
  unfold fuel_for. lia.
Qed.

Lemma phylogeny_loop_returns phylogeny ctx :
  exists r ctx', phylogeny_loop phylogeny ctx = Some (r, ctx')
                 /\ length ctx' <= length ctx.
Proof. apply parse_phylogeny_loop_total. unfold fuel_for. lia. Qed.

(** [_parse_phylogeny] always returns, and consumes events only. *)
Lemma parse_phylogeny_returns parent ctx :
  exists r ctx', _parse_phylogeny parent ctx = Some (r, ctx')
                 /\ length ctx' <= length ctx.
Proof.
  unfold _parse_phylogeny. destruct (_parse_phylogeny_head parent).
  - apply phylogeny_loop_returns.
  - by eauto.
Qed.

Lemma parse_phylogeny_eq parent ctx :
  _parse_phylogeny parent ctx
  = match _parse_phylogeny_head parent with
    | Ok phylogeny => phylogeny_loop phylogeny ctx
    | Raise e => Some (Raise e, ctx)
    end.
Proof. done. Qed.

Lemma phylogeny_loop_nil phylogeny :
  phylogeny_loop phylogeny [] = Some (Ok phylogeny, []).
Proof. done. Qed.

Lemma phylogeny_loop_cons phylogeny event elem ctx :
  phylogeny_loop phylogeny ((event, elem) :: ctx)
  = match unpack2 (split_namespace (ET.tag elem)) with
    | Ok (namespace, tag) =>
        match event with
        | EvStart =>
            if String.eqb tag "clade" then
              match phy_clade phylogeny with
              | Some _ =>
                  Some (Raise (AssertionError
                                 "Phylogeny object should only have 1 clade"),
                        ctx)
              | None =>
                  match _parse_clade elem ctx with
                  | Some (Ok clade, ctx) =>
                      phylogeny_loop (set_phy_clade (Some clade) phylogeny) ctx
                  | Some (Raise e, ctx) => Some (Raise e, ctx)
                  | None => None
                  end
              end
            else phylogeny_loop phylogeny ctx
        | EvEnd =>
            if String.eqb tag "phylogeny" then Some (Ok phylogeny, ctx)
            else
              match _parse_phylogeny_assign phylogeny namespace tag elem with
              | Ok phylogeny => phylogeny_loop phylogeny ctx
              | Raise e => Some (Raise e, ctx)
              end
        end
    | Raise e => Some (Raise e, ctx)
    end.
Proof.
  unfold phylogeny_loop at 1. unfold fuel_for.
  replace (2 * length ((event, elem) :: ctx) + 3)
    with (S (2 * length ctx + 4)) by (simpl; lia).
  simpl.
  destruct (unpack2 _) as [[namespace tag]|]; [|done].
  destruct event.
  - destruct (tag =? "clade"); [|apply parse_phylogeny_loop_enough; lia].
    destruct (phy_clade phylogeny); [done|].
    destruct (parse_clade_returns elem ctx) as (r & ctx' & -> & Hlen).
    destruct r; [|done]. apply parse_phylogeny_loop_enough. lia.
  - destruct (tag =? "phylogeny"); [done|].
    destruct (_parse_phylogeny_assign phylogeny namespace tag elem); [|done].
    apply parse_phylogeny_loop_enough. lia.
Qed.

(** *** The loop of [Parser.read] *)

Lemma read_loop_mono fuel :
  forall fuel' phyloxml other_depth ctx out,
    read_loop fuel phyloxml other_depth ctx = Some out -> fuel <= fuel' ->
    read_loop fuel' phyloxml other_depth ctx = Some out.
Proof.
  induction fuel as [|fuel IH]; [done|].
  intros [|fuel'] phyloxml other_depth ctx out H Hle; [lia|].
  assert (Hle' : fuel <= fuel') by lia.
  simpl in *.
  repeat (case_match; simplify_eq; try done); by apply IH.
Qed.

Lemma read_loop_total fuel :
  forall phyloxml other_depth ctx,
    length ctx < fuel ->
    exists r ctx', read_loop fuel phyloxml other_depth ctx = Some (r, ctx')
                   /\ length ctx' <= length ctx.
Proof.
  induction fuel as [|fuel IH]; [intros; lia|].
  intros phyloxml other_depth [|[event elem] ctx] Hf; simpl; [by eauto|].
  simpl in Hf.
  destruct (unpack2 _) as [[namespace localtag]|]; [|by eauto].
  destruct event.
  - destruct (negb (namespace =? NAMESPACES_phy)).
    { destruct (IH phyloxml (other_depth + 1)%Z ctx) as (r & ctx1 & -> & Hlen);
        [lia|]. exists r, ctx1. split; [done|lia]. }
    destruct (localtag =? "phylogeny").
    + destruct (parse_phylogeny_returns elem ctx) as (r & ctx1 & -> & Hlen).
      destruct r as [phylogeny|]; [|by eauto].
      match goal with
      | |- exists _ _, read_loop _ ?p ?d ?c = _ /\ _ =>
          destruct (IH p d c) as (r & ctx2 & -> & Hlen2); [lia|]
      end.
      exists r, ctx2. split; [done|lia].
    + destruct (IH phyloxml other_depth ctx) as (r & ctx1 & -> & Hlen); [lia|].
      exists r, ctx1. split; [done|lia].
  - destruct (negb (namespace =? NAMESPACES_phy)).
    + destruct (other_depth - 1 =? 0)%Z.
      * destruct (to_other elem) as [otr|]; [|by eauto].
        match goal with
        | |- exists _ _, read_loop _ ?p ?d ?c = _ /\ _ =>
            destruct (IH p d c) as (r & ctx2 & -> & Hlen2); [lia|]
        end.
        exists r, ctx2. split; [done|lia].
      * destruct (IH phyloxml (other_depth - 1)%Z ctx)
          as (r & ctx1 & -> & Hlen); [lia|].
        exists r, ctx1. split; [done|lia].
    + destruct (IH phyloxml other_depth ctx) as (r & ctx1 & -> & Hlen); [lia|].
      exists r, ctx1. split; [done|lia].
Qed.

Lemma read_loop_enough fuel phyloxml other_depth ctx :
  length ctx < fuel ->
  read_loop fuel phyloxml other_depth ctx
  = Parser_read_loop phyloxml other_depth ctx.
Proof.
  intros Hf. unfold Parser_read_loop.
  destruct (read_loop_total (S (length ctx)) phyloxml other_depth ctx)
    as (r & ctx' & H & _); [lia|].
  rewrite (read_loop_mono _ fuel _ _ _ _ H); [|lia].
  rewrite (read_loop_mono _ (fuel_for ctx) _ _ _ _ H); [done|].
  unfold fuel_for. lia.
Qed.

Lemma Parser_read_loop_returns phyloxml other_depth ctx :
  exists r ctx', Parser_read_loop phyloxml other_depth ctx = Some (r, ctx')
                 /\ length ctx' <= length ctx.
Proof. apply read_loop_total. unfold fuel_for. lia. Qed.

Lemma Parser_read_loop_nil phyloxml other_depth :
  Parser_read_loop phyloxml other_depth [] = Some (Ok phyloxml, []).
Proof. done. Qed.

Lemma Parser_read_loop_cons phyloxml other_depth event elem ctx :
  Parser_read_loop phyloxml other_depth ((event, elem) :: ctx)
  = match unpack2 (split_namespace (ET.tag elem)) with
    | Ok (namespace, localtag) =>
        match event with
        | EvStart =>
            if negb (String.eqb namespace NAMESPACES_phy) then
              Parser_read_loop phyloxml (other_depth + 1)%Z ctx
            else if String.eqb localtag "phylogeny" then
              match _parse_phylogeny elem ctx with
              | Some (Ok phylogeny, ctx) =>
                  Parser_read_loop
                    (Tree_Phyloxml (attributes phyloxml)
                       (phylogenies phyloxml ++ [phylogeny])
                       (phyloxml_other phyloxml))
                    other_depth ctx
              | Some (Raise e, ctx) => Some (Raise e, ctx)
              | None => None
              end
            else Parser_read_loop phyloxml other_depth ctx
        | EvEnd =>
            if negb (String.eqb namespace NAMESPACES_phy) then
              if Z.eqb (other_depth - 1) 0 then
                match to_other elem with
                | Ok otr =>
                    Parser_read_loop
                      (Tree_Phyloxml (attributes phyloxml)
                         (phylogenies phyloxml)
                         (phyloxml_other phyloxml ++ [otr]))
                      (other_depth - 1)%Z ctx
                | Raise e => Some (Raise e, ctx)
                end
              else Parser_read_loop phyloxml (other_depth - 1)%Z ctx
            else Parser_read_loop phyloxml other_depth ctx
        end
    | Raise e => Some (Raise e, ctx)
    end.
Proof.
  unfold Parser_read_loop at 1. unfold fuel_for.
  replace (2 * length ((event, elem) :: ctx) + 3)
    with (S (2 * length ctx + 4)) by (simpl; lia).
  simpl.
  destruct (unpack2 _) as [[namespace localtag]|]; [|done].
  destruct event.
  - destruct (negb (namespace =? NAMESPACES_phy));
      [apply read_loop_enough; lia|].
    destruct (localtag =? "phylogeny"); [|apply read_loop_enough; lia].
    destruct (parse_phylogeny_returns elem ctx) as (r & ctx' & -> & Hlen).
    destruct r; [|done]. apply read_loop_enough. lia.
  - destruct (negb (namespace =? NAMESPACES_phy));
      [|apply read_loop_enough; lia].
    destruct (other_depth - 1 =? 0)%Z; [|apply read_loop_enough; lia].
    destruct (to_other elem); [|done].
    apply read_loop_enough. lia.
Qed.


(** *** Induction over a document *)

Lemma Element_forest_ind (P : Element -> Prop) :
  (forall tag attrib text children,
      Forall P children -> P (ET.mkElement tag attrib text children)) ->
  forall elem, P elem.
Proof.
  intros step. fix IH 1. intros [tag attrib text children].
  apply step. induction children as [|child rest IHrest]; constructor.
  - apply IH.
  - apply IHrest.
Qed.

Lemma events_of_list_cons (child : Element) (rest : list Element) :
  ET.events_of_list (child :: rest)
  = ET.events_of child ++ ET.events_of_list rest.
Proof. done. Qed.

Lemma events_of_list_app (l1 l2 : list Element) :
  ET.events_of_list (l1 ++ l2) = ET.events_of_list l1 ++ ET.events_of_list l2.
Proof. apply flat_map_app. Qed.

Lemma events_of_within (elem : Element) :
  ET.events_of elem = (EvStart, elem) :: events_within elem.
Proof. apply events_of_eq. Qed.

(** *** The loop of [_parse_clade] is the walk over the document *)

Lemma clade_walk_eq elem st :
  clade_walk elem st
  = ('(namespace, tag) ← unpack2 (split_namespace (ET.tag elem));
     if String.eqb tag "clade" then
       clade ← _parse_clade_head elem;
       '(subclade, _) ← clade_walk_children (ET.children elem) (clade, []);
       Ok (set_clades (clades st.1 ++ [subclade]) st.1, st.2)
     else
       let tag_stack :=
         if in_list tag _clade_tracked_tags then tag :: st.2 else st.2 in
       '(clade, tag_stack) ←
         clade_walk_children (ET.children elem) (st.1, tag_stack);
       match tag_stack with
       | [] => Raise (IndexError "list index out of range")
       | top :: popped =>
           if negb (String.eqb tag top) then Ok (clade, tag_stack)
           else
             clade ← _parse_clade_assign clade namespace tag elem;
             Ok (clade, popped)
       end).
Proof. by destruct elem. Qed.

Lemma clade_loop_walk_children (children : list Element) :
  Forall (fun child => forall st rest,
            clade_loop_follows (clade_walk child st) st (ET.events_of child) rest)
         children ->
  forall st rest,
    clade_loop_follows (clade_walk_children children st) st
      (ET.events_of_list children) rest.
Proof.
  unfold clade_loop_follows.
  induction 1 as [|child children Hchild _ IH]; intros [clade tag_stack] rest.
  - done.
  - specialize (Hchild (clade, tag_stack) (ET.events_of_list children ++ rest)).
    rewrite events_of_list_cons, <- app_assoc.
    cbn [clade_walk_children].
    destruct (clade_walk child (clade, tag_stack)) as [[clade' tag_stack']|e];
      simpl in *.
    + specialize (IH (clade', tag_stack') rest).
      destruct (clade_walk_children children (clade', tag_stack'))
        as [[clade'' tag_stack'']|e]; simpl in *.
      * by rewrite Hchild.
      * destruct IH as [tail IH]. exists tail. by rewrite Hchild.
    + destruct Hchild as [tail Hchild].
      exists (tail ++ ET.events_of_list children). by rewrite <- app_assoc.
Qed.

Lemma clade_loop_walk (elem : Element) :
  forall st rest,
    clade_loop_follows (clade_walk elem st) st (ET.events_of elem) rest.
Proof.
  induction elem as [tag attrib text children IH] using Element_forest_ind.
  intros [clade tag_stack] rest.
  pose proof (clade_loop_walk_children children IH) as Hkids.
  remember (ET.mkElement tag attrib text children) as elem eqn:Helem.
  assert (Hchildren : ET.children elem = children) by by subst.
  clear Helem IH.
  rewrite clade_walk_eq, events_of_eq, Hchildren. unfold clade_loop_follows.
  simpl. rewrite clade_loop_cons.
  destruct (unpack2 (split_namespace (ET.tag elem))) as [[namespace ltag]|e] eqn:Htag;
    simpl; [|by exists (ET.events_of_list children ++ [(EvEnd, elem)])].
  destruct (ltag =? "clade") eqn:Hclade.
  - (* the recursive call *)
    rewrite parse_clade_eq.
    destruct (_parse_clade_head elem) as [clade0|e]; simpl;
      [|by exists (ET.events_of_list children ++ [(EvEnd, elem)])].
    specialize (Hkids (clade0, []) ((EvEnd, elem) :: rest)).
    rewrite <- app_assoc. simpl.
    destruct (clade_walk_children children (clade0, []))
      as [[subclade stack0]|e]; simpl in *.
    + rewrite Hkids, clade_loop_cons, Htag, Hclade. done.
    + destruct Hkids as [tail ->]. exists (tail ++ [(EvEnd, elem)]).
      by rewrite <- app_assoc.
  - set (tag_stack1 := if in_list ltag _clade_tracked_tags
                       then ltag :: tag_stack else tag_stack).
    assert (Hstart : (if in_list ltag _clade_tracked_tags
                      then clade_loop clade (ltag :: tag_stack)
                             ((ET.events_of_list children ++ [(EvEnd, elem)]) ++ rest)
                      else clade_loop clade tag_stack
                             ((ET.events_of_list children ++ [(EvEnd, elem)]) ++ rest))
                     = clade_loop clade tag_stack1
                         (ET.events_of_list children ++ (EvEnd, elem) :: rest)).
    { unfold tag_stack1. rewrite <- app_assoc. simpl. by destruct (in_list _ _). }
    rewrite Hstart. clear Hstart.
    specialize (Hkids (clade, tag_stack1) ((EvEnd, elem) :: rest)).
    destruct (clade_walk_children children (clade, tag_stack1))
      as [[clade' tag_stack']|e]; simpl in *.
    + rewrite Hkids, clade_loop_cons, Htag, Hclade.
      destruct tag_stack' as [|top popped]; [by exists []|].
      destruct (negb (ltag =? top)); [done|].
      destruct (_parse_clade_assign clade' namespace ltag elem); simpl;
        [done|by exists []].
    + destruct Hkids as [tail ->]. exists (tail ++ [(EvEnd, elem)]).
      by rewrite <- app_assoc.
Qed.

Lemma clade_loop_walk_all (children : list Element) st rest :
  clade_loop_follows (clade_walk_children children st) st
    (ET.events_of_list children) rest.
Proof.
  apply clade_loop_walk_children, Forall_forall. intros child _.
  apply clade_loop_walk.
Qed.

(** [_parse_clade], called at the start event of a clade element, returns
    what the descent over that element gives and leaves the cursor behind
    the element's end event. *)
Lemma parse_clade_tree (elem : Element) (namespace : string) (rest : context) :
  unpack2 (split_namespace (ET.tag elem)) = Ok (namespace, "clade") ->
  match clade_tree elem with
  | Ok clade =>
      _parse_clade elem (ET.events_of_list (ET.children elem) ++ (EvEnd, elem) :: rest)
      = Some (Ok clade, rest)
  | Raise e =>
      exists tail,
        _parse_clade elem (ET.events_of_list (ET.children elem) ++ (EvEnd, elem) :: rest)
        = Some (Raise e, tail ++ rest)
  end.
Proof.
  intros Htag. unfold clade_tree. rewrite parse_clade_eq.
  destruct (_parse_clade_head elem) as [clade0|e]; simpl;
    [|by exists (ET.events_of_list (ET.children elem) ++ [(EvEnd, elem)]);
        rewrite <- app_assoc].
  pose proof (clade_loop_walk_all (ET.children elem) (clade0, [])
                ((EvEnd, elem) :: rest)) as Hkids.
  destruct (clade_walk_children (ET.children elem) (clade0, []))
    as [[clade stack]|e]; simpl in *.
  - by rewrite Hkids, clade_loop_cons, Htag.
  - destruct Hkids as [tail ->]. exists (tail ++ [(EvEnd, elem)]).
    by rewrite <- app_assoc.
Qed.


(** *** The loop of [_parse_phylogeny] is the walk over the document *)

Lemma phylogeny_walk_eq elem phylogeny :
  phylogeny_walk elem phylogeny
  = match unpack2 (split_namespace (ET.tag elem)) with
    | Ok (namespace, tag) =>
        if String.eqb tag "clade" then
          match phy_clade phylogeny with
          | Some _ =>
              Throw (AssertionError "Phylogeny object should only have 1 clade")
          | None =>
              match clade_tree elem with
              | Ok clade => Next (set_phy_clade (Some clade) phylogeny)
              | Raise e => Throw e
              end
          end
        else
          match phylogeny_walk_children (ET.children elem) phylogeny with
          | Next phylogeny =>
              if String.eqb tag "phylogeny" then Break phylogeny
              else
                match _parse_phylogeny_assign phylogeny namespace tag elem with
                | Ok phylogeny => Next phylogeny
                | Raise e => Throw e
                end
          | other => other
          end
    | Raise e => Throw e
    end.
Proof. by destruct elem. Qed.

Lemma phylogeny_loop_walk_children (children : list Element) :
  Forall (fun child => forall phylogeny rest,
            phylogeny_loop_follows (phylogeny_walk child phylogeny) phylogeny
              (ET.events_of child) rest)
         children ->
  forall phylogeny rest,
    phylogeny_loop_follows (phylogeny_walk_children children phylogeny)
      phylogeny (ET.events_of_list children) rest.
Proof.
  unfold phylogeny_loop_follows.
  induction 1 as [|child children Hchild _ IH]; intros phylogeny rest.
  - done.
  - specialize (Hchild phylogeny (ET.events_of_list children ++ rest)).
    rewrite events_of_list_cons, <- app_assoc.
    cbn [phylogeny_walk_children].
    destruct (phylogeny_walk child phylogeny) as [phylogeny'|phylogeny'|e].
    + rewrite Hchild. apply IH.
    + destruct Hchild as [tail Hchild].
      exists (tail ++ ET.events_of_list children). by rewrite <- app_assoc.
    + destruct Hchild as [tail Hchild].
      exists (tail ++ ET.events_of_list children). by rewrite <- app_assoc.
Qed.

Lemma phylogeny_loop_walk (elem : Element) :
  forall phylogeny rest,
    phylogeny_loop_follows (phylogeny_walk elem phylogeny) phylogeny
      (ET.events_of elem) rest.
Proof.
  induction elem as [tag attrib text children IH] using Element_forest_ind.
  intros phylogeny rest.
  pose proof (phylogeny_loop_walk_children children IH) as Hkids.
  remember (ET.mkElement tag attrib text children) as elem eqn:Helem.
  assert (Hchildren : ET.children elem = children) by by subst.
  clear Helem IH.
  rewrite phylogeny_walk_eq, events_of_eq. unfold phylogeny_loop_follows.
  simpl. rewrite phylogeny_loop_cons.
  destruct (unpack2 (split_namespace (ET.tag elem))) as [[namespace ltag]|e] eqn:Htag;
    [|by exists (ET.events_of_list (ET.children elem) ++ [(EvEnd, elem)])].
  destruct (ltag =? "clade") eqn:Hclade.
  - destruct (phy_clade phylogeny);
      [by exists (ET.events_of_list (ET.children elem) ++ [(EvEnd, elem)])|].
    pose proof (parse_clade_tree elem namespace rest) as Hclade_tree.
    rewrite <- app_assoc. simpl.
    apply String.eqb_eq in Hclade. subst ltag.
    specialize (Hclade_tree Htag).
    destruct (clade_tree elem) as [clade|e].
    + by rewrite Hclade_tree.
    + destruct Hclade_tree as [tail ->]. by exists tail.
  - rewrite Hchildren, <- app_assoc. simpl.
    specialize (Hkids phylogeny ((EvEnd, elem) :: rest)).
    destruct (phylogeny_walk_children children phylogeny)
      as [phylogeny'|phylogeny'|e].
    + rewrite Hkids, phylogeny_loop_cons, Htag.
      destruct (ltag =? "phylogeny"); [by exists []|].
      destruct (_parse_phylogeny_assign phylogeny' namespace ltag elem);
        [done|by exists []].
    + destruct Hkids as [tail ->]. exists (tail ++ [(EvEnd, elem)]).
      by rewrite <- app_assoc.
    + destruct Hkids as [tail ->]. exists (tail ++ [(EvEnd, elem)]).
      by rewrite <- app_assoc.
Qed.

Lemma phylogeny_loop_walk_all (children : list Element) phylogeny rest :
  phylogeny_loop_follows (phylogeny_walk_children children phylogeny)
    phylogeny (ET.events_of_list children) rest.
Proof.
  apply phylogeny_loop_walk_children, Forall_forall. intros child _.
  apply phylogeny_loop_walk.
Qed.

(** [_parse_phylogeny], called at the start event of a phylogeny element
    whose children are [kids] and whose end event carries [closing],
    returns what the descent over [kids] gives.  When no element below
    breaks the loop early, the cursor is left behind the end event. *)
Lemma parse_phylogeny_walk (parent closing : Element) (kids : list Element)
    (namespace : string) (rest : context) :
  unpack2 (split_namespace (ET.tag closing)) = Ok (namespace, "phylogeny") ->
  let ctx := ET.events_of_list kids ++ (EvEnd, closing) :: rest in
  match _parse_phylogeny_head parent with
  | Ok phylogeny0 =>
      match phylogeny_walk_children kids phylogeny0 with
      | Next phylogeny => _parse_phylogeny parent ctx = Some (Ok phylogeny, rest)
      | Break phylogeny =>
          exists tail, _parse_phylogeny parent ctx
                       = Some (Ok phylogeny, tail ++ (EvEnd, closing) :: rest)
      | Throw e =>
          exists tail, _parse_phylogeny parent ctx
                       = Some (Raise e, tail ++ (EvEnd, closing) :: rest)
      end
  | Raise e => _parse_phylogeny parent ctx = Some (Raise e, ctx)
  end.
Proof.
  intros Htag ctx. unfold ctx. rewrite parse_phylogeny_eq.
  destruct (_parse_phylogeny_head parent) as [phylogeny0|e]; [|done].
  pose proof (phylogeny_loop_walk_all kids phylogeny0
                ((EvEnd, closing) :: rest)) as Hkids.
  unfold phylogeny_loop_follows in Hkids.
  destruct (phylogeny_walk_children kids phylogeny0) as [phylogeny|phylogeny|e].
  - by rewrite Hkids, phylogeny_loop_cons, Htag.
  - done.
  - done.
Qed.

Lemma parse_phylogeny_tree (parent : Element) (namespace : string)
    (rest : context) :
  unpack2 (split_namespace (ET.tag parent)) = Ok (namespace, "phylogeny") ->
  let ctx := events_within parent ++ rest in
  match phylogeny_tree parent with
  | Next phylogeny => _parse_phylogeny parent ctx = Some (Ok phylogeny, rest)
  | Break phylogeny =>
      exists tail, _parse_phylogeny parent ctx
                   = Some (Ok phylogeny, tail ++ (EvEnd, parent) :: rest)
  | Throw e =>
      exists tail, _parse_phylogeny parent ctx = Some (Raise e, tail ++ rest)
  end.
Proof.
  intros Htag ctx.
  pose proof (parse_phylogeny_walk parent parent (ET.children parent)
                namespace rest Htag) as H.
  unfold ctx, events_within, phylogeny_tree. rewrite <- app_assoc.
  simpl in *.
  destruct (_parse_phylogeny_head parent) as [phylogeny0|e].
  - destruct (phylogeny_walk_children _ _); [done|done|].
    destruct H as [tail H]. exists (tail ++ [(EvEnd, parent)]).
    by rewrite <- app_assoc.
  - by exists (ET.events_of_list (ET.children parent) ++ [(EvEnd, parent)]);
      rewrite <- app_assoc.
Qed.

(** *** Tags *)

Lemma partition_append (sep : ascii) (before after : string) :
  Py.index sep before = None ->
  Py.partition sep (before +:+ String sep after) = Some (before, after).
Proof.
  induction before as [|a before IH]; simpl.
  - by rewrite Ascii.eqb_refl.
  - destruct (Ascii.eqb a sep); [done|].
    destruct (Py.index sep before); [done|]. intros _. by rewrite IH.
Qed.

Lemma partition_inv (sep : ascii) (s before after : string) :
  Py.partition sep s = Some (before, after) ->
  s = before +:+ String sep after /\ Py.index sep before = None.
Proof.
  revert before. induction s as [|a s IH]; intros before; simpl; [done|].
  destruct (Ascii.eqb a sep) eqn:Ha.
  - apply Ascii.eqb_eq in Ha. subst a. intros [= <- <-]. done.
  - destruct (Py.partition sep s) as [[b c]|]; [|done].
    intros [= <- <-]. destruct (IH b eq_refl) as [-> Hb].
    simpl. rewrite Ha, Hb. done.
Qed.

Lemma ns_in_eq (localtag namespace : string) :
  _ns_in localtag namespace = String "{" (namespace +:+ String "}" localtag).
Proof. done. Qed.

(** A tag with a brace prefix splits into its namespace and local name. *)
Lemma split_namespace_prefixed (namespace localtag : string) :
  Py.index "}" namespace = None ->
  split_namespace (_ns_in localtag namespace) = [namespace; localtag].
Proof.
  intros H. rewrite ns_in_eq. unfold split_namespace, Py.split1.
  cbn [Py.slice1]. by rewrite partition_append.
Qed.

(** Without a closing brace, the tag comes back in one piece, less its
    first character. *)
Lemma split_namespace_no_brace (c : ascii) (s : string) :
  Py.index "}" s = None ->
  split_namespace (String c s) = [s].
Proof.
  intros H. unfold split_namespace, Py.split1. simpl.
  destruct (Py.partition "}" s) as [[b a]|] eqn:Hp; [|done].
  apply partition_inv in Hp as [-> Hb]. exfalso.
  clear Hb. induction b as [|x b IH]; simpl in H.
  - done.
  - destruct (Ascii.eqb x "}"); [done|].
    destruct (Py.index "}" (b +:+ String "}" a)); [done|]. by apply IH.
Qed.


(** *** Claims on the utilities *)

(** C5 (split_namespace).  The spec has [split_namespace] return
    [("", tag)] for an unprefixed tag.  The code does not: the [try] body
    cannot raise, so the [except] branch that holds that pair is dead,
    and an unprefixed tag such as [clade] comes back as the one-element
    list [["lade"]], which the callers' two-name unpacking rejects with a
    ValueError. *)
Theorem split_namespace_unprefixed_C5 :
  split_namespace "clade" = ["lade"]
  /\ split_namespace "clade" <> [""; "clade"]
  /\ unpack2 (split_namespace "clade")
     = Raise (ValueError "need more than 1 value to unpack").
Proof. by repeat split. Qed.

Lemma lookup_dict_str2bool_rooted (attrib : gmap string string) (s : string) :
  attrib !! "rooted" = Some s ->
  dict_str2bool attrib ["rooted"; "rerootable"]
  = (b ← str2bool s;
     let out : gmap string pyval := <["rooted" := VBool b]> (VStr <$> attrib) in
     match attrib !! "rerootable" with
     | Some s' => b' ← str2bool s'; Ok (<["rerootable" := VBool b']> out)
     | None => Ok out
     end).
Proof.
  intros H. unfold dict_str2bool. simpl.
  rewrite lookup_fmap, H. simpl.
  destruct (str2bool s) as [b|e]; simpl; [|done].
  rewrite lookup_insert_ne by done. rewrite lookup_fmap.
  by destruct (attrib !! "rerootable").
Qed.

Lemma lookup_dict_str2bool_no_rooted (attrib : gmap string string) :
  attrib !! "rooted" = None ->
  dict_str2bool attrib ["rooted"; "rerootable"]
  = match attrib !! "rerootable" with
    | Some s' =>
        b' ← str2bool s'; Ok (<["rerootable" := VBool b']> (VStr <$> attrib))
    | None => Ok (VStr <$> attrib)
    end.
Proof.
  intros H. unfold dict_str2bool. simpl.
  rewrite lookup_fmap, H. simpl. rewrite lookup_fmap.
  by destruct (attrib !! "rerootable").
Qed.

Lemma str2bool_true_iff (text : string) : str2bool text = Ok true <-> text = "true".
Proof.
  unfold str2bool. destruct (String.eqb_spec text "true") as [->|Hne]; [done|].
  destruct (text =? "false"); split; done.
Qed.

Lemma str2bool_false_iff (text : string) :
  str2bool text = Ok false <-> text = "false".
Proof.
  unfold str2bool. destruct (String.eqb_spec text "true") as [->|Hne]; [done|].
  destruct (String.eqb_spec text "false") as [->|Hne']; split; done.
Qed.

Lemma str2bool_other (text : string) :
  text <> "true" -> text <> "false" ->
  str2bool text
  = Raise (ValueError ("String could not be converted to boolean: " +:+ text)).
Proof.
  intros H1 H2. unfold str2bool.
  destruct (String.eqb_spec text "true"); [done|].
  by destruct (String.eqb_spec text "false").
Qed.

Lemma str2bool_ok (text : string) (b : bool) :
  str2bool text = Ok b -> b = (text =? "true") /\ (text = "true" \/ text = "false").
Proof.
  unfold str2bool. destruct (String.eqb_spec text "true") as [->|Hne].
  - intros [= <-]. auto.
  - destruct (String.eqb_spec text "false") as [->|Hne']; [|done].
    intros [= <-]. auto.
Qed.

(** C6 (str2bool, _parse_phylogeny).  The conversion of the boolean
    attributes of a tree accepts the two tokens [true] and [false] and
    nothing else: on any other string it raises a ValueError whose
    message ends with the string, and so does [_parse_phylogeny] when the
    string is the value of [rooted], or that of [rerootable] next to a
    [rooted] that is absent or accepted; when the head of
    [_parse_phylogeny] succeeds, the flags of the tree are the values the
    two tokens stand for. *)
Theorem str2bool_strict_C6 (text : string) :
  (str2bool text = Ok true <-> text = "true")
  /\ (str2bool text = Ok false <-> text = "false")
  /\ (text <> "true" -> text <> "false" ->
      let failure : result bool :=
        Raise (ValueError ("String could not be converted to boolean: " +:+ text)) in
      str2bool text = failure
      /\ forall parent ctx,
           ET.get parent "rooted" = Some text
           \/ (ET.get parent "rerootable" = Some text
               /\ (ET.get parent "rooted" = None
                   \/ ET.get parent "rooted" = Some "true"
                   \/ ET.get parent "rooted" = Some "false")) ->
           _parse_phylogeny parent ctx
           = Some (Raise (ValueError
                            ("String could not be converted to boolean: " +:+ text)),
                   ctx))
  /\ (forall parent phylogeny,
        _parse_phylogeny_head parent = Ok phylogeny ->
        (ET.get parent "rooted" = Some text ->
         (text = "true" \/ text = "false")
         /\ phy_rooted phylogeny = Some (text =? "true"))
        /\ (ET.get parent "rerootable" = Some text ->
            (text = "true" \/ text = "false")
            /\ phy_rerootable phylogeny = Some (text =? "true"))).
Proof.
  split; [apply str2bool_true_iff|]. split; [apply str2bool_false_iff|].
  split.
  - intros H1 H2 failure. split; [by apply str2bool_other|].
    intros parent ctx H. unfold _parse_phylogeny, _parse_phylogeny_head.
    unfold ET.get in H.
    destruct H as [H|[H Hrooted]].
    + rewrite (lookup_dict_str2bool_rooted _ _ H), str2bool_other by done. done.
    + destruct Hrooted as [Hr|[Hr|Hr]].
      * rewrite (lookup_dict_str2bool_no_rooted _ Hr), H, str2bool_other by done.
        done.
      * rewrite (lookup_dict_str2bool_rooted _ _ Hr), H, str2bool_other by done.
        done.
      * rewrite (lookup_dict_str2bool_rooted _ _ Hr), H, str2bool_other by done.
        done.
  - intros parent phylogeny. unfold _parse_phylogeny_head, ET.get.
    intros Hhead. split.
    + intros H. rewrite (lookup_dict_str2bool_rooted _ _ H) in Hhead.
      destruct (str2bool text) as [b|] eqn:Hb; [|done]. simpl in Hhead.
      apply str2bool_ok in Hb as [-> Htok]. split; [done|].
      destruct (ET.attrib parent !! "rerootable") as [s'|]; simpl in Hhead.
      * destruct (str2bool s') as [b'|]; [|done]. simpl in Hhead.
        unfold Phylogeny_init in Hhead.
        destruct (check_kwargs _ _); [|done]. simpl in Hhead.
        injection Hhead as <-. simpl.
        rewrite lookup_insert_ne by done. by rewrite lookup_insert_eq.
      * unfold Phylogeny_init in Hhead.
        destruct (check_kwargs _ _); [|done]. simpl in Hhead.
        injection Hhead as <-. simpl. by rewrite lookup_insert_eq.
    + intros H.
      assert (Hkw : exists kw : gmap string pyval,
                 Phylogeny_init kw = Ok phylogeny
                 /\ exists b, str2bool text = Ok b
                              /\ kw !! "rerootable" = Some (VBool b)).
      { destruct (ET.attrib parent !! "rooted") as [s|] eqn:Hr.
        - rewrite (lookup_dict_str2bool_rooted _ _ Hr), H in Hhead.
          destruct (str2bool s) as [b0|]; [|done]. simpl in Hhead.
          destruct (str2bool text) as [b|]; [|done]. simpl in Hhead.
          eexists. split; [exact Hhead|]. exists b. split; [done|].
          by rewrite lookup_insert_eq.
        - rewrite (lookup_dict_str2bool_no_rooted _ Hr), H in Hhead.
          destruct (str2bool text) as [b|]; [|done]. simpl in Hhead.
          eexists. split; [exact Hhead|]. exists b. split; [done|].
          by rewrite lookup_insert_eq. }
      destruct Hkw as (kw & Hinit & b & Hb & Hkw).
      apply str2bool_ok in Hb as [-> Htok]. split; [done|].
      unfold Phylogeny_init in Hinit.
      destruct (check_kwargs _ _); [|done]. simpl in Hinit.
      injection Hinit as <-. simpl. by rewrite Hkw.
Qed.


(** *** Foreign elements *)

Lemma to_other_eq (elem : Element) :
  to_other elem
  = ('(namespace, localtag) ← unpack2 (split_namespace (ET.tag elem));
     children ← map_result to_other (ET.children elem);
     Ok (Tree_Other localtag namespace (ET.attrib elem)
           (strip_or_none (ET.text elem)) children)).
Proof.
  destruct elem as [tag attrib text children]. unfold to_other at 1. simpl.
  destruct (unpack2 (split_namespace tag)) as [[namespace localtag]|]; [|done].
  simpl. f_equal.
  induction children as [|child rest IH]; simpl; [done|].
  change ((fix to_other (elem : Element) : result Other := _) child)
    with (to_other child).
  destruct (to_other child); simpl; [|done]. by rewrite IH.
Qed.

Lemma namespaced_tag_split (tag : string) :
  namespaced_tag tag = true ->
  exists namespace localtag,
    unpack2 (split_namespace tag) = Ok (namespace, localtag)
    /\ _ns_in localtag namespace = tag.
Proof.
  unfold namespaced_tag. destruct tag as [|c rest]; [done|].
  destruct (Ascii.eqb_spec c "{") as [->|Hc].
  - destruct (Py.partition "}" rest) as [[namespace localtag]|] eqn:Hp; [|done].
    intros _. exists namespace, localtag.
    unfold split_namespace, Py.split1. cbn [Py.slice1]. rewrite Hp.
    split; [done|]. apply partition_inv in Hp as [-> _]. done.
  - intros H. exfalso. revert H.
    destruct c as [[] [] [] [] [] [] [] []]; try done.
Qed.

(** C9 (to_other, Writer.other), as amended.  A foreign element whose
    tags carry their namespace, read by [to_other] and written by
    [Writer.other], comes back with its tag (so its namespace), its
    attributes and its children, in order; its text, and the texts below
    it, come back stripped of surrounding whitespace, and absent when
    nothing else was there. *)
Theorem other_roundtrip_C9 (elem : Element) :
  namespaced elem = true ->
  exists obj,
    to_other elem = Ok obj
    /\ Writer_other obj = trimmed elem
    /\ ET.tag (Writer_other obj) = ET.tag elem
    /\ ET.attrib (Writer_other obj) = ET.attrib elem
    /\ ET.text (Writer_other obj) = strip_or_none (ET.text elem)
    /\ ET.children (Writer_other obj) = map trimmed (ET.children elem).
Proof.
  intros H.
  assert (Hmain : exists obj, to_other elem = Ok obj
                              /\ Writer_other obj = trimmed elem).
  { revert H.
    induction elem as [tag attrib text children IH] using Element_forest_ind.
    intros H. apply andb_prop in H as [Htag Hkids]. cbn [ET.tag ET.children] in *.
    destruct (namespaced_tag_split tag Htag) as (namespace & localtag & Hsplit & Hns).
    assert (Hchildren : exists objs,
               map_result to_other children = Ok objs
               /\ map Writer_other objs = map trimmed children).
    { clear Htag Hsplit Hns.
      induction children as [|child rest IHrest]; [by exists []|].
      apply andb_prop in Hkids as [Hchild Hrest].
      apply Forall_cons in IH as [IHchild IH].
      destruct (IHchild Hchild) as (obj & Hobj & Hw).
      destruct (IHrest IH Hrest) as (objs & Hobjs & Hws).
      exists (obj :: objs). simpl. rewrite Hobj. simpl. rewrite Hobjs. simpl.
      by rewrite Hw, Hws. }
    destruct Hchildren as (objs & Hobjs & Hws).
    eexists. rewrite to_other_eq. cbn [ET.tag ET.children ET.attrib ET.text].
    rewrite Hsplit. simpl. rewrite Hobjs. simpl. split; [done|].
    simpl. by rewrite Hns, Hws. }
  destruct Hmain as (obj & Hobj & Hw). exists obj.
  split; [done|]. split; [done|]. rewrite Hw. by destruct elem.
Qed.

(** *** Claims on the loop of [_parse_clade] *)

(** C7 (_float, _parse_clade, to_confidence), as amended.  When the text
    of an element is not a number, the fields read with [_float] come out
    absent and the loop goes on: the [branch_length] child of a clade,
    its [width] and the value of a [confidence].  The [branch_length]
    attribute instead goes through [float], and a value that is not a
    number there makes [_parse_clade] raise a ValueError before it reads
    any event. *)
Theorem float_leniency_C7 (clade : Clade) (popped : list string)
    (elem : Element) (namespace t : string) (ctx : context) :
  ET.text elem = Some t ->
  float t = None ->
  (unpack2 (split_namespace (ET.tag elem)) = Ok (namespace, "branch_length") ->
   branch_length clade = None ->
   clade_loop clade ("branch_length" :: popped) ((EvEnd, elem) :: ctx)
   = clade_loop (set_branch_length None clade) popped ctx)
  /\ (unpack2 (split_namespace (ET.tag elem)) = Ok (namespace, "width") ->
      clade_loop clade ("width" :: popped) ((EvEnd, elem) :: ctx)
      = clade_loop (set_width None clade) popped ctx)
  /\ (unpack2 (split_namespace (ET.tag elem)) = Ok (namespace, "confidence") ->
      clade_loop clade ("confidence" :: popped) ((EvEnd, elem) :: ctx)
      = clade_loop
          (set_confidences
             (confidences clade ++ [Tree_Confidence None (ET.get elem "type")])
             clade)
          popped ctx)
  /\ to_confidence elem = Ok (Tree_Confidence None (ET.get elem "type"))
  /\ (forall parent ctx',
        ET.get parent "branch_length" = Some t ->
        _parse_clade parent ctx'
        = Some (Raise (ValueError ("could not convert string to float: " +:+ t)),
                ctx')).
Proof.
  intros Htext Hfloat.
  assert (Hf : _float (ET.text elem) = None).
  { unfold _float. by rewrite Htext, Hfloat. }
  assert (Hconf : to_confidence elem
                  = Ok (Tree_Confidence None (ET.get elem "type"))).
  { unfold to_confidence. by rewrite Hf. }
  repeat split.
  - intros Htag Hbl. rewrite clade_loop_cons, Htag. simpl.
    unfold _parse_clade_assign. simpl. by rewrite Hbl, Hf.
  - intros Htag. rewrite clade_loop_cons, Htag. simpl.
    unfold _parse_clade_assign. simpl. by rewrite Hf.
  - intros Htag. rewrite clade_loop_cons, Htag. simpl.
    unfold _parse_clade_assign, to_confidence. simpl. by rewrite Hf.
  - done.
  - intros parent ctx' Hattr. rewrite parse_clade_eq.
    unfold _parse_clade_head. rewrite Hattr. unfold float_strict.
    by rewrite Hfloat.
Qed.


(** *** The tag stack *)

(** An end event whose tag is not at the top of the stack is passed over:
    the clade and the stack are as they were. *)
Lemma clade_loop_end_mismatch clade top popped elem namespace tag ctx :
  unpack2 (split_namespace (ET.tag elem)) = Ok (namespace, tag) ->
  tag <> "clade" -> tag <> top ->
  clade_loop clade (top :: popped) ((EvEnd, elem) :: ctx)
  = clade_loop clade (top :: popped) ctx.
Proof.
  intros Htag Hclade Htop. rewrite clade_loop_cons, Htag.
  destruct (String.eqb_spec tag "clade"); [done|].
  by destruct (String.eqb_spec tag top).
Qed.

(** With an empty stack the test [tag != tag_stack[-1]] itself raises. *)
Lemma clade_loop_end_empty_stack clade elem namespace tag ctx :
  unpack2 (split_namespace (ET.tag elem)) = Ok (namespace, tag) ->
  tag <> "clade" ->
  clade_loop clade [] ((EvEnd, elem) :: ctx)
  = Some (Raise (IndexError "list index out of range"), ctx).
Proof.
  intros Htag Hclade. rewrite clade_loop_cons, Htag.
  by destruct (String.eqb_spec tag "clade").
Qed.

Lemma in_list_app x l1 l2 : in_list x (l1 ++ l2) = in_list x l1 || in_list x l2.
Proof. apply existsb_app. Qed.

(** The tags the loop pushes are the tags its chain of tests assigns: the
    branch for a foreign element is not among them. *)
Lemma clade_assign_tracked_other clade namespace tag elem clade' :
  in_list tag _clade_tracked_tags = true ->
  _parse_clade_assign clade namespace tag elem = Ok clade' ->
  other clade' = other clade.
Proof.
  intros Htracked. unfold _clade_tracked_tags in Htracked.
  rewrite !in_list_app in Htracked.
  unfold _parse_clade_assign.
  destruct (in_list tag _clade_complex_types).
  { repeat case_match; intros Hok; inv_bind Hok; by simplify_eq/=. }
  destruct (in_list tag _clade_list_types).
  { repeat case_match; intros Hok; inv_bind Hok; by simplify_eq/=. }
  simpl in Htracked. unfold in_list in Htracked. simpl in Htracked.
  destruct (tag =? "branch_length").
  { destruct (branch_length clade); [done|]. by intros [= <-]. }
  destruct (tag =? "width"); [by intros [= <-]|].
  destruct (tag =? "name"); [by intros [= <-]|].
  destruct (tag =? "node_id"); [by intros [= <-]|].
  done.
Qed.

(** The clade that the head of [_parse_clade] builds holds nothing but
    what the attributes gave. *)
Lemma parse_clade_head_fresh parent clade :
  _parse_clade_head parent = Ok clade ->
  clade = set_id_source (id_source clade)
            (set_branch_length (branch_length clade) empty_clade)
  /\ name clade = None /\ clades clade = [] /\ other clade = [].
Proof.
  unfold _parse_clade_head, Clade_init. intros H.
  inv_bind H. simplify_eq/=. done.
Qed.

(** [_parse_clade] never stores a foreign element: whatever the events,
    the clade it returns has an empty [other] list. *)
Lemma parse_clade_other_untouched (fuel : nat) :
  (forall parent ctx clade ctx',
      _parse_clade_at fuel parent ctx = Some (Ok clade, ctx') ->
      other clade = [])
  /\ (forall clade0 tag_stack ctx clade ctx',
      Forall (fun tag => in_list tag _clade_tracked_tags = true) tag_stack ->
      _parse_clade_loop fuel clade0 tag_stack ctx = Some (Ok clade, ctx') ->
      other clade = other clade0).
Proof.
  induction fuel as [|fuel [IHat IHloop]]; [done|].
  split.
  - intros parent ctx clade ctx'. simpl.
    destruct (_parse_clade_head parent) as [clade0|] eqn:Hhead; [|done].
    intros H. apply IHloop in H; [|done]. rewrite H.
    by apply parse_clade_head_fresh in Hhead as (_ & _ & _ & ->).
  - intros clade0 tag_stack [|[event elem] ctx] clade ctx' Hstack; simpl.
    { by intros [= <- <-]. }
    destruct (unpack2 _) as [[namespace tag]|]; [|done].
    destruct event.
    + destruct (tag =? "clade").
      * destruct (_parse_clade_at fuel elem ctx) as [[[sub|] ctx1]|]; try done.
        intros H. by apply IHloop in H.
      * destruct (in_list tag _clade_tracked_tags) eqn:Htracked;
          intros H; apply IHloop in H; try done.
        by constructor.
    + destruct (tag =? "clade"); [by intros [= <- <-]|].
      destruct Hstack as [|top popped Htop Hpopped]; [done|].
      destruct (String.eqb_spec tag top) as [->|Hne]; simpl.
      * destruct (_parse_clade_assign clade0 namespace top elem) as [clade1|]
          eqn:Hassign; [|done].
        intros H. apply IHloop in H; [|done]. rewrite H.
        by eapply clade_assign_tracked_other.
      * intros H. apply IHloop in H; [done|]. by constructor.
Qed.

(** X18 (_parse_clade).  No call of [_parse_clade] that returns gives a
    clade with foreign nodes, whatever the events are: the branch of the
    loop that appends to [other] lies behind the test of the tag stack,
    which no foreign element passes. *)
Lemma parse_clade_never_other parent ctx clade ctx' :
  _parse_clade parent ctx = Some (Ok clade, ctx') -> other clade = [].
Proof. apply (proj1 (parse_clade_other_untouched _)). Qed.

(** *** A chain of clades *)

Lemma clade_walk_clade (elem : Element) (namespace : string) st :
  unpack2 (split_namespace (ET.tag elem)) = Ok (namespace, "clade") ->
  clade_walk elem st
  = (subclade ← clade_tree elem;
     Ok (set_clades (clades st.1 ++ [subclade]) st.1, st.2)).
Proof.
  intros Htag. rewrite clade_walk_eq, Htag. unfold clade_tree. simpl.
  destruct (_parse_clade_head elem); simpl; [|done].
  by destruct (clade_walk_children _ _) as [[? ?]|].
Qed.

Lemma clade_tree_chain (names : list string) :
  clade_tree (chain_elem names) = Ok (chain_clade names).
Proof.
  induction names as [|n rest IH]; [done|].
  unfold clade_tree. cbn [chain_elem phy_elem ET.children].
  change (_parse_clade_head _) with (Ok empty_clade). simpl.
  rewrite (clade_walk_clade (chain_elem rest) NAMESPACES_phy);
    [|by destruct rest].
  by rewrite IH.
Qed.

(** The chain of C1, in the model: a chain of clades [N] deep, with a
    name at every level, parses to a chain of clades of depth [N], each
    with the name of its own level, and the cursor ends behind the
    outermost clade.  The model leaves the interpreter's bound on the
    depth of recursion out (see [_parse_clade_at]): [_parse_clade] calls
    itself once for each level, so for the program this holds for the
    depths that bound allows. *)
Lemma parse_clade_chain (names : list string) (rest : context) :
  _parse_clade (chain_elem names) (events_within (chain_elem names) ++ rest)
  = Some (Ok (chain_clade names), rest)
  /\ clade_depth (chain_clade names) = length names.
Proof.
  split.
  - pose proof (parse_clade_tree (chain_elem names) NAMESPACES_phy rest) as H.
    rewrite clade_tree_chain in H. unfold events_within.
    rewrite <- app_assoc. apply H. by destruct names.
  - induction names as [|n tail IH]; [done|].
    cbn [chain_clade length]. simpl. rewrite IH. lia.
Qed.


(** *** The root of a tree *)

Lemma phylogeny_walk_children_app (l1 l2 : list Element) phylogeny :
  phylogeny_walk_children (l1 ++ l2) phylogeny
  = match phylogeny_walk_children l1 phylogeny with
    | Next phylogeny' => phylogeny_walk_children l2 phylogeny'
    | other => other
    end.
Proof.
  revert phylogeny. induction l1 as [|child l1 IH]; intros phylogeny; [done|].
  simpl. destruct (phylogeny_walk child phylogeny); [apply IH|done|done].
Qed.

(** No assignment of the loop of [_parse_phylogeny] touches the root. *)
Lemma phylogeny_assign_keeps_root phylogeny namespace tag elem phylogeny' :
  _parse_phylogeny_assign phylogeny namespace tag elem = Ok phylogeny' ->
  phy_clade phylogeny' = phy_clade phylogeny.
Proof.
  unfold _parse_phylogeny_assign.
  repeat case_match; intros Hok; inv_bind Hok; by simplify_eq/=.
Qed.

(** Once a tree has a root, it keeps it as the descent goes on. *)
Lemma phylogeny_walk_keeps_root (elem : Element) :
  forall phylogeny phylogeny',
    phylogeny_walk elem phylogeny = Next phylogeny' ->
    is_Some (phy_clade phylogeny) -> is_Some (phy_clade phylogeny').
Proof.
  induction elem as [tag attrib text children IH] using Element_forest_ind.
  intros phylogeny phylogeny'. rewrite phylogeny_walk_eq.
  cbn [ET.tag ET.children].
  destruct (unpack2 _) as [[namespace ltag]|]; [|done].
  destruct (ltag =? "clade").
  { intros H [root Hroot]. by rewrite Hroot in H. }
  assert (Hkids : forall p p', phylogeny_walk_children children p = Next p' ->
                               is_Some (phy_clade p) -> is_Some (phy_clade p')).
  { clear -IH. induction IH as [|child rest Hchild _ IHrest]; intros p p'; simpl.
    - by intros [= <-].
    - destruct (phylogeny_walk child p) as [p1| |] eqn:Hp1; [|done|done].
      intros Hrest Hroot. eapply IHrest; [done|]. by eapply Hchild. }
  destruct (phylogeny_walk_children children phylogeny) as [p1| |] eqn:Hp1;
    [|done|done].
  destruct (ltag =? "phylogeny"); [done|].
  destruct (_parse_phylogeny_assign p1 namespace ltag _) as [p2|] eqn:Hassign;
    [|done].
  intros [= <-] Hroot.
  rewrite (phylogeny_assign_keeps_root _ _ _ _ _ Hassign). by eapply Hkids.
Qed.

Lemma phylogeny_walk_children_keeps_root (children : list Element) :
  forall phylogeny phylogeny',
    phylogeny_walk_children children phylogeny = Next phylogeny' ->
    is_Some (phy_clade phylogeny) -> is_Some (phy_clade phylogeny').
Proof.
  induction children as [|child rest IH]; intros p p'; simpl.
  - by intros [= <-].
  - destruct (phylogeny_walk child p) as [p1| |] eqn:Hp1; [|done|done].
    intros Hrest Hroot. eapply IH; [done|].
    by eapply phylogeny_walk_keeps_root.
Qed.

(** A clade met at the level of the tree: it becomes the root, unless
    the tree has one. *)
Lemma phylogeny_walk_clade (elem : Element) (namespace : string) phylogeny :
  unpack2 (split_namespace (ET.tag elem)) = Ok (namespace, "clade") ->
  (is_Some (phy_clade phylogeny) ->
   phylogeny_walk elem phylogeny
   = Throw (AssertionError "Phylogeny object should only have 1 clade"))
  /\ (forall phylogeny',
        phylogeny_walk elem phylogeny = Next phylogeny' ->
        is_Some (phy_clade phylogeny')).
Proof.
  intros Htag. rewrite phylogeny_walk_eq, Htag. simpl. split.
  - by intros [root ->].
  - intros phylogeny'. destruct (phy_clade phylogeny); [done|].
    destruct (clade_tree elem); [|done]. by intros [= <-].
Qed.

(** The list [pre ++ c1 :: mid], walked to the end, leaves a tree that
    has a root when [c1] is a clade. *)
Lemma phylogeny_walk_children_root (pre mid : list Element) (c1 : Element)
    (ns1 : string) phylogeny0 phylogeny :
  unpack2 (split_namespace (ET.tag c1)) = Ok (ns1, "clade") ->
  phylogeny_walk_children (pre ++ c1 :: mid) phylogeny0 = Next phylogeny ->
  is_Some (phy_clade phylogeny).
Proof.
  intros Hc1. rewrite phylogeny_walk_children_app.
  destruct (phylogeny_walk_children pre phylogeny0) as [p1| |]; [|done|done].
  simpl. destruct (phylogeny_walk c1 p1) as [p2| |] eqn:Hp2; [|done|done].
  intros Hmid. eapply phylogeny_walk_children_keeps_root; [done|].
  by eapply (proj2 (phylogeny_walk_clade c1 ns1 p1 Hc1)).
Qed.

(** The loop of [_parse_phylogeny] sets the root once: a tree that has a
    root keeps that root for as long as the loop runs. *)
Lemma parse_phylogeny_loop_keeps_root (fuel : nat) :
  forall phylogeny ctx phylogeny' ctx' root,
    phy_clade phylogeny = Some root ->
    _parse_phylogeny_loop fuel phylogeny ctx = Some (Ok phylogeny', ctx') ->
    phy_clade phylogeny' = Some root.
Proof.
  induction fuel as [|fuel IH]; intros phylogeny ctx phylogeny' ctx' root Hroot;
    [done|].
  simpl. destruct ctx as [|[event elem] ctx]; [by intros [= <- _]|].
  destruct (unpack2 _) as [[namespace tag]|]; [|done].
  destruct event.
  - destruct (tag =? "clade"); [by rewrite Hroot|]. by apply IH.
  - destruct (tag =? "phylogeny"); [by intros [= <- _]|].
    destruct (_parse_phylogeny_assign phylogeny namespace tag elem)
      as [phylogeny1|] eqn:Hassign; [|done].
    apply IH. by rewrite (phylogeny_assign_keeps_root _ _ _ _ _ Hassign).
Qed.



(** *** What the conversion table raises *)

Lemma oce_ok {A} (a : A) : only_conversion_errors (Ok a).
Proof. by intros e. Qed.

Lemma oce_bind {A B} (r : result A) (k : A -> result B) :
  only_conversion_errors r -> (forall a, only_conversion_errors (k a)) ->
  only_conversion_errors (r ≫= k).
Proof.
  intros Hr Hk e. destruct r as [a|e']; simpl.
  - apply Hk.
  - intros [= <-]. by apply Hr.
Qed.

Lemma oce_text_strip elem : only_conversion_errors (text_strip elem).
Proof. unfold text_strip. destruct (ET.text elem); by intros e [= <-]. Qed.

Lemma oce_int_strict s : only_conversion_errors (int_strict s).
Proof. unfold int_strict. destruct (Py.int s); by intros e [= <-]. Qed.

Lemma oce_int_strict_opt s : only_conversion_errors (int_strict_opt s).
Proof.
  destruct s; simpl; [apply oce_int_strict|]. by intros e [= <-].
Qed.

Lemma oce_float_strict s : only_conversion_errors (float_strict s).
Proof. unfold float_strict. destruct (float s); by intros e [= <-]. Qed.

Lemma oce_str2bool s : only_conversion_errors (str2bool s).
Proof. unfold str2bool. repeat case_match; by intros e [= <-]. Qed.

Lemma oce_check_kwargs {V} allowed (kw : gmap string V) :
  only_conversion_errors (check_kwargs allowed kw).
Proof. unfold check_kwargs. case_match; by intros e [= <-]. Qed.

Lemma oce_get_child_as {A} parent tag (construct : Element -> result A) :
  (forall child, only_conversion_errors (construct child)) ->
  only_conversion_errors (get_child_as parent tag construct).
Proof.
  intros H. unfold get_child_as. destruct (ET.find _ _); [|apply oce_ok].
  apply oce_bind; [apply H|]. intros a. apply oce_ok.
Qed.

Lemma oce_get_child_text {A} parent tag (construct : string -> result A) truth :
  (forall t, only_conversion_errors (construct t)) ->
  only_conversion_errors (get_child_text parent tag construct truth).
Proof.
  intros H. unfold get_child_text.
  destruct (ET.find _ _) as [child|]; [|apply oce_ok].
  destruct (ET.text child) as [t|]; [|apply oce_ok].
  destruct (Py.truthy t); [|apply oce_ok].
  apply oce_bind; [apply H|]. intros a. apply oce_ok.
Qed.

Lemma oce_map_result {A B} (f : A -> result B) l :
  (forall a, only_conversion_errors (f a)) ->
  only_conversion_errors (map_result f l).
Proof.
  intros H. induction l as [|a l IH]; simpl; [apply oce_ok|].
  apply oce_bind; [apply H|]. intros b.
  apply oce_bind; [apply IH|]. intros bs. apply oce_ok.
Qed.

Lemma oce_get_children_as {A} parent tag (construct : Element -> result A) :
  (forall child, only_conversion_errors (construct child)) ->
  only_conversion_errors (get_children_as parent tag construct).
Proof. intros H. by apply oce_map_result. Qed.

Lemma oce_get_child_unicode parent tag :
  only_conversion_errors (get_child_unicode parent tag).
Proof. apply oce_get_child_text. intros t. apply oce_ok. Qed.

Lemma oce_get_child_int parent tag :
  only_conversion_errors (get_child_int parent tag).
Proof. apply oce_get_child_text, oce_int_strict. Qed.

Lemma oce_get_child_float parent tag :
  only_conversion_errors (get_child_float parent tag).
Proof. apply oce_get_child_text, oce_float_strict. Qed.

Create HintDb oce discriminated.

#[local] Hint Resolve oce_ok oce_text_strip oce_int_strict oce_int_strict_opt
  oce_float_strict oce_str2bool oce_check_kwargs oce_get_child_unicode
  oce_get_child_int oce_get_child_float : oce.
#[local] Hint Extern 2 (only_conversion_errors (_ ≫= _)) =>
  apply oce_bind; [|intros ?] : oce.
#[local] Hint Extern 2 (only_conversion_errors (get_child_as _ _ _)) =>
  apply oce_get_child_as; intros ? : oce.
#[local] Hint Extern 2 (only_conversion_errors (get_children_as _ _ _)) =>
  apply oce_get_children_as; intros ? : oce.
#[local] Hint Extern 3 (only_conversion_errors (match ?x with _ => _ end)) =>
  destruct x : oce.

(** The steps every such proof takes: unfold the builder, go through its
    binds. *)
Tactic Notation "oce_builder" reference(f) :=
  intros; unfold f; simpl; auto 30 with oce.

Lemma oce_to_accession elem : only_conversion_errors (to_accession elem).
Proof. oce_builder to_accession. Qed.
Lemma oce_to_confidence elem : only_conversion_errors (to_confidence elem).
Proof. oce_builder to_confidence. Qed.
Lemma oce_to_uri elem : only_conversion_errors (to_uri elem).
Proof. oce_builder to_uri. Qed.
Lemma oce_to_property elem : only_conversion_errors (to_property elem).
Proof. oce_builder to_property. Qed.
#[local] Hint Resolve oce_to_accession oce_to_confidence oce_to_uri
  oce_to_property : oce.
Lemma oce_to_annotation elem : only_conversion_errors (to_annotation elem).
Proof. oce_builder to_annotation. Qed.
Lemma oce_to_binary_characters elem :
  only_conversion_errors (to_binary_characters elem).
Proof. oce_builder to_binary_characters. Qed.
Lemma oce_to_color elem : only_conversion_errors (to_color elem).
Proof. oce_builder to_color. Qed.
Lemma oce_to_date elem : only_conversion_errors (to_date elem).
Proof. oce_builder to_date. Qed.
Lemma oce_to_point elem : only_conversion_errors (to_point elem).
Proof. oce_builder to_point. Qed.
#[local] Hint Resolve oce_to_point oce_to_annotation : oce.
Lemma oce_to_polygon elem : only_conversion_errors (to_polygon elem).
Proof. oce_builder to_polygon. Qed.
#[local] Hint Resolve oce_to_polygon : oce.
Lemma oce_to_distribution elem : only_conversion_errors (to_distribution elem).
Proof. oce_builder to_distribution. Qed.
Lemma oce_to_domain elem : only_conversion_errors (to_domain elem).
Proof. oce_builder to_domain. Qed.
#[local] Hint Resolve oce_to_domain : oce.
Lemma oce_to_domain_architecture elem :
  only_conversion_errors (to_domain_architecture elem).
Proof. oce_builder to_domain_architecture. Qed.
Lemma oce_to_events elem : only_conversion_errors (to_events elem).
Proof. oce_builder to_events. Qed.
Lemma oce_to_id elem : only_conversion_errors (to_id elem).
Proof. oce_builder to_id. Qed.
Lemma oce_to_mol_seq elem : only_conversion_errors (to_mol_seq elem).
Proof. oce_builder to_mol_seq. Qed.
Lemma oce_to_reference elem : only_conversion_errors (to_reference elem).
Proof. oce_builder to_reference. Qed.
#[local] Hint Resolve oce_to_domain_architecture oce_to_mol_seq oce_to_id : oce.
Lemma oce_to_sequence elem : only_conversion_errors (to_sequence elem).
Proof. oce_builder to_sequence. Qed.
Lemma oce_to_taxonomy elem : only_conversion_errors (to_taxonomy elem).
Proof. oce_builder to_taxonomy. Qed.
#[local] Hint Resolve oce_to_binary_characters oce_to_color oce_to_date
  oce_to_distribution oce_to_events oce_to_reference oce_to_sequence
  oce_to_taxonomy : oce.

Lemma oce_parse_clade_head parent :
  only_conversion_errors (_parse_clade_head parent).
Proof. oce_builder _parse_clade_head. unfold Clade_init. auto 30 with oce. Qed.


Lemma oce_to_other elem : only_conversion_errors (to_other elem).
Proof.
  induction elem as [tag attrib text children IH] using Element_forest_ind.
  rewrite to_other_eq. cbn [ET.tag ET.children ET.attrib ET.text].
  apply oce_bind.
  { unfold unpack2. repeat case_match; by intros e [= <-]. }
  intros [namespace localtag]. apply oce_bind; [|intros; apply oce_ok].
  induction IH as [|child rest Hchild _ IHrest]; simpl; [apply oce_ok|].
  apply oce_bind; [done|]. intros o.
  apply oce_bind; [done|]. intros os. apply oce_ok.
Qed.

Lemma oce_not_phyloxml {A} (r : result A) (msg : string) :
  only_conversion_errors r -> r <> Raise (PhyloXMLError msg).
Proof. intros H Hr. by apply H in Hr. Qed.

(** *** The length of a branch *)

(** The one place that raises the error of a length set twice: the end
    event of a [branch_length] element at a clade that has a length. *)
Lemma clade_assign_twice clade namespace tag elem :
  _parse_clade_assign clade namespace tag elem
  = Raise (PhyloXMLError branch_length_twice) ->
  tag = "branch_length" /\ is_Some (branch_length clade).
Proof.
  unfold _parse_clade_assign.
  destruct (in_list tag _clade_complex_types).
  { intros H. exfalso. revert H. apply oce_not_phyloxml.
    repeat case_match; auto 10 with oce. }
  destruct (in_list tag _clade_list_types).
  { intros H. exfalso. revert H. apply oce_not_phyloxml.
    repeat case_match; auto 10 with oce. }
  destruct (String.eqb_spec tag "branch_length") as [->|_].
  { destruct (branch_length clade); [by eauto|done]. }
  destruct (tag =? "width"); [done|].
  destruct (tag =? "name"); [done|].
  destruct (tag =? "node_id"); [done|].
  destruct (negb _).
  - intros H. exfalso. revert H. apply oce_not_phyloxml.
    apply oce_bind; [apply oce_to_other|]. intros; apply oce_ok.
  - by intros [=].
Qed.

(** Every other assignment leaves the length as it is, and the assignment
    of a [branch_length] element goes through only at a clade without a
    length. *)
Lemma clade_assign_length clade namespace tag elem clade' :
  _parse_clade_assign clade namespace tag elem = Ok clade' ->
  if String.eqb tag "branch_length" then branch_length clade = None
  else branch_length clade' = branch_length clade.
Proof.
  unfold _parse_clade_assign.
  destruct (in_list tag _clade_complex_types) eqn:Hcomplex.
  { replace (tag =? "branch_length") with false.
    - repeat case_match; intros Hok; inv_bind Hok; by simplify_eq/=.
    - revert Hcomplex. unfold in_list. simpl.
      destruct (String.eqb_spec tag "branch_length") as [->|]; done. }
  destruct (in_list tag _clade_list_types) eqn:Hlist.
  { replace (tag =? "branch_length") with false.
    - repeat case_match; intros Hok; inv_bind Hok; by simplify_eq/=.
    - revert Hlist. unfold in_list. simpl.
      destruct (String.eqb_spec tag "branch_length") as [->|]; done. }
  destruct (tag =? "branch_length").
  { by destruct (branch_length clade). }
  repeat case_match; intros Hok; inv_bind Hok; by simplify_eq/=.
Qed.

Lemma own_lengths_eq (elem : Element) :
  own_lengths elem
  = match local_tag elem with
    | Some tag =>
        if String.eqb tag "clade" then 0
        else (if String.eqb tag "branch_length" then 1 else 0)
             + own_lengths_below elem
    | None => 0
    end.
Proof.
  destruct elem as [tag attrib text children]. unfold own_lengths_below.
  cbn [ET.children].
  assert (Hsum : forall l,
             (fix total (l : list Element) : nat :=
                match l with
                | [] => 0
                | child :: rest => own_lengths child + total rest
                end) l = list_sum (map own_lengths l)).
  { induction l as [|child rest IH]; simpl; [done|]. by rewrite IH. }
  rewrite <- Hsum. reflexivity.
Qed.

Lemma one_source_eq (elem : Element) :
  one_source elem
  = forallb one_source (ET.children elem)
    && match local_tag elem with
       | Some tag =>
           if String.eqb tag "clade" then
             match ET.get elem "branch_length" with
             | Some _ => Nat.eqb (own_lengths_below elem) 0
             | None => Nat.leb (own_lengths_below elem) 1
             end
           else true
       | None => true
       end.
Proof. by destruct elem. Qed.

Lemma local_tag_unpack elem namespace tag :
  unpack2 (split_namespace (ET.tag elem)) = Ok (namespace, tag) ->
  local_tag elem = Some tag.
Proof. unfold local_tag. by intros ->. Qed.

Lemma clade_walk_children_app (l1 l2 : list Element) st :
  clade_walk_children (l1 ++ l2) st
  = (st' ← clade_walk_children l1 st; clade_walk_children l2 st').
Proof.
  revert st. induction l1 as [|child l1 IH]; intros st; [done|].
  simpl. destruct (clade_walk child st); simpl; [apply IH|done].
Qed.

(** A clade that has a length keeps it: the descent either goes on with
    the same length or raises. *)
Lemma clade_walk_keeps_length (elem : Element) :
  forall st st',
    clade_walk elem st = Ok st' -> is_Some (branch_length st.1) ->
    branch_length st'.1 = branch_length st.1.
Proof.
  induction elem as [tag attrib text children IH] using Element_forest_ind.
  assert (Hkids : forall st st',
             clade_walk_children children st = Ok st' ->
             is_Some (branch_length st.1) ->
             branch_length st'.1 = branch_length st.1).
  { clear -IH. induction IH as [|child rest Hchild _ IHrest]; intros st st'; simpl.
    - by intros [= <-].
    - destruct (clade_walk child st) as [st1|] eqn:Hst1; [|done]. simpl.
      intros Hrest Hsome. rewrite <- (Hchild _ _ Hst1 Hsome).
      apply IHrest; [done|]. by rewrite (Hchild _ _ Hst1 Hsome). }
  intros [clade tag_stack] st'. rewrite clade_walk_eq.
  cbn [ET.tag ET.children fst snd].
  destruct (unpack2 _) as [[namespace ltag]|]; [|done]. simpl.
  destruct (ltag =? "clade").
  { intros H _. inv_bind H. case_match. by simplify_eq/=. }
  intros H Hsome. inv_bind H. destruct a as [clade1 stack1].
  apply Hkids in E; [|done]. simpl in E.
  destruct stack1 as [|top popped]; [done|].
  destruct (String.eqb_spec ltag top) as [->|Hne]; simpl in H.
  - inv_bind H. simplify_eq/=.
    apply clade_assign_length in E0.
    destruct (top =? "branch_length").
    + rewrite E in E0. rewrite E0 in Hsome. by destruct Hsome.
    + by rewrite E0.
  - by simplify_eq/=.
Qed.

Lemma clade_walk_children_keeps_length (children : list Element) :
  forall st st',
    clade_walk_children children st = Ok st' ->
    is_Some (branch_length st.1) ->
    branch_length st'.1 = branch_length st.1.
Proof.
  induction children as [|child rest IH]; intros st st'; simpl.
  - by intros [= <-].
  - destruct (clade_walk child st) as [st1|] eqn:Hst1; [|done]. simpl.
    intros Hrest Hsome.
    pose proof (clade_walk_keeps_length _ _ _ Hst1 Hsome) as H1.
    rewrite <- H1. apply IH; [done|]. by rewrite H1.
Qed.

(** What the head of [_parse_clade] makes of the attribute. *)
Lemma parse_clade_head_length parent clade :
  _parse_clade_head parent = Ok clade ->
  match ET.get parent "branch_length" with
  | Some s => exists x, float s = Some x /\ branch_length clade = Some x
  | None => branch_length clade = None
  end.
Proof.
  unfold _parse_clade_head, Clade_init, float_strict, ET.get.
  destruct (ET.attrib parent !! "branch_length") as [s|] eqn:Hs.
  - destruct (float s) as [x|]; [|done]. simpl. intros H. inv_bind H.
    simplify_eq/=. exists x. split; [done|]. by rewrite lookup_insert_eq.
  - simpl. intros H. inv_bind H. simplify_eq/=.
    by rewrite lookup_fmap, Hs.
Qed.

Lemma oce_unpack2 parts : only_conversion_errors (unpack2 parts).
Proof. unfold unpack2. repeat case_match; by intros e [= <-]. Qed.

(** The descent over children that hold, the nested clades apart, at most
    one [branch_length] element, and none when the clade has a length. *)
Lemma clade_walk_children_one_source (children : list Element) :
  Forall (fun child =>
            forall st,
              own_lengths child <= 1 ->
              (is_Some (branch_length st.1) -> own_lengths child = 0) ->
              clade_walk child st <> Raise (PhyloXMLError branch_length_twice)
              /\ forall st', clade_walk child st = Ok st' ->
                             own_lengths child = 0 ->
                             branch_length st'.1 = branch_length st.1)
         children ->
  forall st,
    list_sum (map own_lengths children) <= 1 ->
    (is_Some (branch_length st.1) -> list_sum (map own_lengths children) = 0) ->
    clade_walk_children children st <> Raise (PhyloXMLError branch_length_twice)
    /\ forall st', clade_walk_children children st = Ok st' ->
                   list_sum (map own_lengths children) = 0 ->
                   branch_length st'.1 = branch_length st.1.
Proof.
  induction 1 as [|child rest Hchild _ IH]; intros st Hle Hsome; simpl in *.
  { split; [done|]. by intros st' [= <-]. }
  destruct (Hchild st) as [Hraise Hkeep]; [lia|intros; apply Hsome in H; lia|].
  destruct (clade_walk child st) as [st1|e] eqn:Hst1; simpl; [|by split].
  assert (Hrest : list_sum (map own_lengths rest) <= 1
                  /\ (is_Some (branch_length st1.1) ->
                      list_sum (map own_lengths rest) = 0)).
  { split; [lia|]. intros Hst1some.
    destruct (own_lengths child) as [|n] eqn:Hn; [|lia].
    rewrite (Hkeep st1 eq_refl eq_refl) in Hst1some.
    apply Hsome in Hst1some. lia. }
  destruct Hrest as [Hle' Hsome'].
  destruct (IH st1 Hle' Hsome') as [Hraise' Hkeep'].
  split; [done|]. intros st' Hst' Hzero.
  rewrite (Hkeep' st' Hst') by lia. apply (Hkeep st1 eq_refl). lia.
Qed.

Lemma clade_walk_one_source (elem : Element) :
  one_source elem = true ->
  (forall namespace,
      unpack2 (split_namespace (ET.tag elem)) = Ok (namespace, "clade") ->
      clade_tree elem <> Raise (PhyloXMLError branch_length_twice))
  /\ (forall st,
        own_lengths elem <= 1 ->
        (is_Some (branch_length st.1) -> own_lengths elem = 0) ->
        clade_walk elem st <> Raise (PhyloXMLError branch_length_twice)
        /\ forall st', clade_walk elem st = Ok st' ->
                       own_lengths elem = 0 ->
                       branch_length st'.1 = branch_length st.1).
Proof.
  induction elem as [tag attrib text children IH] using Element_forest_ind.
  rewrite one_source_eq. cbn [ET.children]. intros Hone.
  apply andb_prop in Hone as [Hkids_one Hclade_one].
  assert (Hkids := clade_walk_children_one_source children).
  assert (Hparts : Forall (fun child =>
            forall st,
              own_lengths child <= 1 ->
              (is_Some (branch_length st.1) -> own_lengths child = 0) ->
              clade_walk child st <> Raise (PhyloXMLError branch_length_twice)
              /\ forall st', clade_walk child st = Ok st' ->
                             own_lengths child = 0 ->
                             branch_length st'.1 = branch_length st.1)
            children).
  { clear -IH Hkids_one. induction IH as [|child rest Hchild _ IHrest];
      [done|]. simpl in Hkids_one. apply andb_prop in Hkids_one as [H1 H2].
    constructor; [by apply Hchild|by apply IHrest]. }
  specialize (Hkids Hparts). clear Hparts IH Hkids_one.
  remember (ET.mkElement tag attrib text children) as elem eqn:Helem.
  assert (Hchildren : ET.children elem = children) by by subst.
  assert (Hbelow : own_lengths_below elem = list_sum (map own_lengths children)).
  { unfold own_lengths_below. by rewrite Hchildren. }
  clear Helem.
  assert (Hfirst : forall namespace,
             unpack2 (split_namespace (ET.tag elem)) = Ok (namespace, "clade") ->
             clade_tree elem <> Raise (PhyloXMLError branch_length_twice)).
  { intros namespace Htag. unfold clade_tree. rewrite Hchildren.
    rewrite (local_tag_unpack _ _ _ Htag) in Hclade_one. simpl in Hclade_one.
    destruct (_parse_clade_head elem) as [clade0|e] eqn:Hhead; simpl.
    - apply parse_clade_head_length in Hhead.
      destruct (Hkids (clade0, [])) as [Hraise _].
      + destruct (ET.get elem "branch_length").
        * apply Nat.eqb_eq in Hclade_one. lia.
        * apply Nat.leb_le in Hclade_one. lia.
      + simpl. destruct (ET.get elem "branch_length").
        * apply Nat.eqb_eq in Hclade_one. lia.
        * rewrite Hhead. by intros [? ?].
      + destruct (clade_walk_children children (clade0, [])) as [[? ?]|];
          simpl; [done|]. intros [= ->]. done.
    - intros [= ->]. by apply (oce_parse_clade_head elem) in Hhead. }
  split; [exact Hfirst|].
  intros [clade tag_stack] Hle Hsome. rewrite clade_walk_eq.
  rewrite own_lengths_eq in Hle, Hsome. rewrite own_lengths_eq.
  unfold local_tag in *. cbn [fst snd] in *. rewrite Hchildren, Hbelow in *.
  destruct (unpack2 (split_namespace (ET.tag elem))) as [[namespace ltag]|e]
    eqn:Htag; simpl.
  2:{ split; [|done]. intros [= ->]. by apply (oce_unpack2 _) in Htag. }
  destruct (ltag =? "clade") eqn:Hclade.
  { apply String.eqb_eq in Hclade. subst ltag.
    specialize (Hfirst _ eq_refl). unfold clade_tree in Hfirst.
    rewrite Hchildren in Hfirst.
    destruct (_parse_clade_head elem) as [clade0|e]; simpl in *.
    - destruct (clade_walk_children children (clade0, [])) as [[? ?]|];
        simpl in *.
      + split; [done|]. by intros st' [= <-].
      + split; [|done]. intros [= ->]. by apply Hfirst.
    - split; [|done]. intros [= ->]. by apply Hfirst. }
  set (tag_stack1 := if in_list ltag _clade_tracked_tags
                     then ltag :: tag_stack else tag_stack).
  destruct (Hkids (clade, tag_stack1)) as [Hraise Hkeep]; [lia|simpl| ].
  { intros Hs. apply Hsome in Hs. lia. }
  destruct (clade_walk_children children (clade, tag_stack1))
    as [[clade1 stack1]|e] eqn:Hwalk; simpl; [|by split].
  specialize (Hkeep _ eq_refl). simpl in Hkeep.
  destruct stack1 as [|top popped]; [by split|].
  destruct (String.eqb_spec ltag top) as [<-|Hne]; simpl.
  - destruct (_parse_clade_assign clade1 namespace ltag elem) as [clade2|e]
      eqn:Hassign; simpl.
    + split; [done|]. intros st' [= <-] Hzero. simpl.
      apply clade_assign_length in Hassign.
      destruct (ltag =? "branch_length"); [lia|].
      rewrite Hassign. apply Hkeep. lia.
    + split; [|done]. intros [= ->].
      apply clade_assign_twice in Hassign as [-> Hset].
      simpl in *. rewrite Hkeep in Hset by lia. apply Hsome in Hset. lia.
  - split; [done|]. intros st' [= <-] Hzero. simpl. apply Hkeep.
    destruct (ltag =? "branch_length"); lia.
Qed.

(** The stack holds tracked tags only, and an element that is read
    without error leaves it as it found it: what its start event pushed,
    its end event popped. *)
Lemma clade_walk_stack (elem : Element) :
  forall clade tag_stack clade' tag_stack',
    Forall (fun t => in_list t _clade_tracked_tags = true) tag_stack ->
    clade_walk elem (clade, tag_stack) = Ok (clade', tag_stack') ->
    tag_stack' = tag_stack.
Proof.
  induction elem as [tag attrib text children IH] using Element_forest_ind.
  assert (Hkids : forall clade tag_stack clade' tag_stack',
             Forall (fun t => in_list t _clade_tracked_tags = true) tag_stack ->
             clade_walk_children children (clade, tag_stack)
             = Ok (clade', tag_stack') ->
             tag_stack' = tag_stack).
  { clear -IH. induction IH as [|child rest Hchild _ IHrest];
      intros clade tag_stack clade' tag_stack' Hst; simpl.
    - by intros [= _ <-].
    - destruct (clade_walk child (clade, tag_stack)) as [[c1 s1]|] eqn:H1;
        [|done]. simpl.
      apply Hchild in H1; [|done]. subst s1. by apply IHrest. }
  intros clade tag_stack clade' tag_stack' Hst. rewrite clade_walk_eq.
  cbn [ET.tag ET.children fst snd].
  destruct (unpack2 _) as [[namespace ltag]|]; [|done]. simpl.
  destruct (ltag =? "clade").
  { intros H. inv_bind H. case_match. by simplify_eq/=. }
  intros H. inv_bind H. destruct a as [clade1 stack1].
  destruct (in_list ltag _clade_tracked_tags) eqn:Htracked.
  - apply Hkids in E; [|by constructor]. subst stack1.
    rewrite String.eqb_refl in H. simpl in H. inv_bind H. by simplify_eq/=.
  - apply Hkids in E; [|done]. subst stack1.
    destruct tag_stack as [|top popped]; [done|].
    destruct (String.eqb_spec ltag top) as [->|Hne]; simpl in H.
    + apply Forall_cons in Hst as [Htop _]. by rewrite Htop in Htracked.
    + by simplify_eq/=.
Qed.

Lemma clade_walk_children_stack (children : list Element) :
  forall clade tag_stack clade' tag_stack',
    Forall (fun t => in_list t _clade_tracked_tags = true) tag_stack ->
    clade_walk_children children (clade, tag_stack) = Ok (clade', tag_stack') ->
    tag_stack' = tag_stack.
Proof.
  induction children as [|child rest IH];
    intros clade tag_stack clade' tag_stack' Hst; simpl.
  - by intros [= _ <-].
  - destruct (clade_walk child (clade, tag_stack)) as [[c1 s1]|] eqn:H1;
      [|done]. simpl.
    apply clade_walk_stack in H1; [|done]. subst s1. by apply IH.
Qed.

(** The end event of a [branch_length] element at a clade that has a
    length. *)
Lemma clade_assign_length_set clade namespace elem x :
  branch_length clade = Some x ->
  _parse_clade_assign clade namespace "branch_length" elem
  = Raise (PhyloXMLError branch_length_twice).
Proof.
  intros Hlen. unfold _parse_clade_assign.
  change (in_list "branch_length" _clade_complex_types) with false.
  change (in_list "branch_length" _clade_list_types) with false.
  change ("branch_length" =? "branch_length") with true.
  cbv iota. by rewrite Hlen.
Qed.

(** A [branch_length] element met by the loop of a clade that has a
    length: the descent does not get past it. *)
Lemma clade_walk_length_set (b : Element) (ns_b : string) clade x :
  unpack2 (split_namespace (ET.tag b)) = Ok (ns_b, "branch_length") ->
  branch_length clade = Some x ->
  exists e, clade_walk b (clade, []) = Raise e
            /\ (ET.children b = [] -> e = PhyloXMLError branch_length_twice).
Proof.
  intros Hb Hlen. rewrite clade_walk_eq, Hb. simpl.
  change ("branch_length" =? "clade") with false.
  change (in_list "branch_length" _clade_tracked_tags) with true.
  cbv iota.
  destruct (clade_walk_children (ET.children b) (clade, ["branch_length"]))
    as [[clade1 stack1]|e] eqn:Hkids; simpl.
  - pose proof (clade_walk_children_keeps_length _ _ _ Hkids) as Hkeep.
    simpl in Hkeep. rewrite Hlen in Hkeep.
    specialize (Hkeep (mk_is_Some _ _ eq_refl)).
    apply clade_walk_children_stack in Hkids; [|by repeat constructor].
    subst stack1. rewrite String.eqb_refl. simpl.
    rewrite (clade_assign_length_set _ _ _ x Hkeep). simpl. by eexists.
  - exists e. split; [done|]. intros Hleaf. by rewrite Hleaf in Hkids.
Qed.

(** C3 (_parse_clade), as amended.  Take a clade element [both] that
    carries a [branch_length] attribute and holds, among its children, a
    [branch_length] element [b], and the same element cut before [b],
    [before].
    (i) The parse of [both] always raises: it never returns a clade.
    (ii) When [b] has no children and [before] is read to its end, the
    parse of [both] fails at the end event of [b] with the error that
    names the length set twice, and leaves the events after [b] unread.
    (iii) When the parse of [before] raises, the attribute or an element
    before [b] being at fault, the parse of [both] raises the same
    exception.
    (iv) That error is raised only where a clade has two sources for its
    length, the attribute counting for one and every [branch_length]
    element that the loop of the clade meets for one: a clade element
    where every clade has no such element next to the attribute, and at
    most one without it, parses without that error. *)
Theorem branch_length_once_C3 (tag : string) (attrib : gmap string string)
    (text : option string) (pre post : list Element) (b : Element)
    (namespace ns_b s : string) (rest : context) :
  unpack2 (split_namespace tag) = Ok (namespace, "clade") ->
  attrib !! "branch_length" = Some s ->
  unpack2 (split_namespace (ET.tag b)) = Ok (ns_b, "branch_length") ->
  let clade_of := ET.mkElement tag attrib text in
  let both := clade_of (pre ++ b :: post) in
  let before := clade_of pre in
  let parsed_both := _parse_clade both (events_within both ++ rest) in
  let parsed_before := _parse_clade before (events_within before ++ rest) in
  (exists e ctx, parsed_both = Some (Raise e, ctx))
  /\ (forall clade,
        ET.children b = [] ->
        parsed_before = Some (Ok clade, rest) ->
        parsed_both
        = Some (Raise (PhyloXMLError branch_length_twice),
                ET.events_of_list post ++ (EvEnd, both) :: rest))
  /\ (forall e ctx,
        parsed_before = Some (Raise e, ctx) ->
        exists ctx', parsed_both = Some (Raise e, ctx'))
  /\ (forall elem ns rest',
        unpack2 (split_namespace (ET.tag elem)) = Ok (ns, "clade") ->
        one_source elem = true ->
        raised (_parse_clade elem (events_within elem ++ rest'))
        <> Some (PhyloXMLError branch_length_twice)).
Proof.
  intros Htag Hattr Hb clade_of both before parsed_both parsed_before.
  set (after_before := (EvEnd, before) :: rest).
  set (after_b := ET.events_of_list post ++ (EvEnd, both) :: rest).
  assert (Hbefore : parsed_before
                    = match _parse_clade_head before with
                      | Ok clade0 =>
                          clade_loop clade0 []
                            (ET.events_of_list pre ++ after_before)
                      | Raise e => Some (Raise e, events_within before ++ rest)
                      end).
  { unfold parsed_before. rewrite parse_clade_eq.
    unfold events_within. by rewrite <- app_assoc. }
  assert (Hboth : parsed_both
                  = match _parse_clade_head before with
                    | Ok clade0 =>
                        clade_loop clade0 []
                          (ET.events_of_list pre ++ ET.events_of b ++ after_b)
                    | Raise e => Some (Raise e, events_within both ++ rest)
                    end).
  { unfold parsed_both. rewrite parse_clade_eq.
    change (_parse_clade_head both) with (_parse_clade_head before).
    unfold events_within, after_b. cbn [ET.children both clade_of].
    by rewrite events_of_list_app, events_of_list_cons, <- !app_assoc. }
  clearbody parsed_both parsed_before. subst parsed_both parsed_before.
  assert (Hsources : forall elem ns rest',
             unpack2 (split_namespace (ET.tag elem)) = Ok (ns, "clade") ->
             one_source elem = true ->
             raised (_parse_clade elem (events_within elem ++ rest'))
             <> Some (PhyloXMLError branch_length_twice)).
  { intros elem ns rest' Helem Hone Hraised.
    pose proof (parse_clade_tree elem ns rest' Helem) as H.
    unfold events_within in Hraised. rewrite <- app_assoc in Hraised.
    simpl in Hraised.
    destruct (clade_tree elem) as [clade|e] eqn:Htree.
    + by rewrite H in Hraised.
    + destruct H as [tail H]. rewrite H in Hraised. simpl in Hraised.
      injection Hraised as ->.
      by apply (proj1 (clade_walk_one_source elem Hone) ns Helem) in Htree. }
  destruct (_parse_clade_head before) as [clade0|e0] eqn:Hhead.
  2:{ refine (conj _ (conj _ (conj _ Hsources))); try done.
      - by eexists _, _.
      - intros e ctx [= <- _]. by eexists. }
  (* the clade has its length from the attribute *)
  apply parse_clade_head_length in Hhead. unfold ET.get in Hhead.
  cbn [ET.attrib before clade_of] in Hhead. rewrite Hattr in Hhead.
  destruct Hhead as (x & _ & Hlen0).
  pose proof (clade_loop_walk_all pre (clade0, []) after_before) as W1.
  pose proof (clade_loop_walk_all pre (clade0, []) (ET.events_of b ++ after_b))
    as W2.
  unfold clade_loop_follows in W1, W2. cbn [fst snd] in W1, W2.
  destruct (clade_walk_children pre (clade0, [])) as [[clade1 stack1]|e1]
    eqn:Hpre.
  - (* the loop reaches [b], with the length kept and the stack empty *)
    pose proof (clade_walk_children_keeps_length _ _ _ Hpre) as Hkeep.
    simpl in Hkeep. rewrite Hlen0 in Hkeep.
    specialize (Hkeep (mk_is_Some _ _ eq_refl)).
    apply clade_walk_children_stack in Hpre; [|constructor]. subst stack1.
    rewrite W1, W2. clear W1 W2.
    destruct (clade_walk_length_set b ns_b clade1 x Hb Hkeep)
      as (e & Hwalk & Hleaf).
    pose proof (clade_loop_walk b (clade1, []) after_b) as Wb.
    unfold clade_loop_follows in Wb. rewrite Hwalk in Wb.
    destruct Wb as [tail Wb]. cbn [fst snd] in Wb.
    refine (conj _ (conj _ (conj _ Hsources))).
    + rewrite Wb. by eexists _, _.
    + intros clade Hnokids _. clear Wb.
      rewrite events_of_eq, Hnokids. simpl.
      rewrite !clade_loop_cons, Hb.
      change ("branch_length" =? "clade") with false.
      change (in_list "branch_length" _clade_tracked_tags) with true.
      cbv iota. rewrite clade_loop_cons, Hb.
      change ("branch_length" =? "clade") with false.
      change ("branch_length" =? "branch_length") with true. simpl.
      by rewrite (clade_assign_length_set _ _ _ x Hkeep).
    + unfold after_before. rewrite clade_loop_cons. cbn [ET.tag before clade_of].
      rewrite Htag. change ("clade" =? "clade") with true. done.
  - (* an element before [b] raises *)
    destruct W1 as [tail1 ->]. destruct W2 as [tail2 ->].
    refine (conj _ (conj _ (conj _ Hsources))); try done.
    + by eexists _, _.
    + intros e ctx [= <- _]. by eexists.
Qed.


(** *** The generator of [Parser.parse] *)

(** The generator passes over the events that start no phylogeny. *)
Lemma Parser_parse_next_skip (skipped ctx : context) :
  Forall (fun ev => starts_phylogeny ev = false) skipped ->
  Parser_parse_next (skipped ++ ctx) = Parser_parse_next ctx.
Proof.
  induction 1 as [|[event elem] skipped Hev _ IH]; [done|].
  simpl. unfold starts_phylogeny in Hev. simpl in Hev. by rewrite Hev.
Qed.

(** C10 (Parser.parse).  Take a document whose first tree [first] comes
    after elements [before] that start no tree, and is followed by the
    elements [others] (two more trees, in a document of three).  Building
    the generator takes the start event of the root and nothing else;
    one request then consumes events up to the first tree's end at most:
    the cursor it leaves still holds every event of [others] and the
    root's end event.  When the first tree is read through, the request
    returns it and the cursor is right behind it. *)
Theorem parse_first_tree_only_C10 (root_tag : string)
    (attrib : gmap string string) (text : option string)
    (before others : list Element) (first : Element) :
  ET.tag first = _ns "phylogeny" ->
  Forall (fun ev => starts_phylogeny ev = false) (ET.events_of_list before) ->
  let file := ET.mkElement root_tag attrib text (before ++ first :: others) in
  let untouched := ET.events_of_list others ++ [(EvEnd, file)] in
  exists gen,
    parse file = Ok gen
    /\ gen_context gen
       = ET.events_of_list before ++ ET.events_of first ++ untouched
    /\ (exists r gen' tail,
          next gen = Some (r, gen') /\ gen_context gen' = tail ++ untouched)
    /\ (forall phylogeny,
          phylogeny_tree first = Next phylogeny ->
          next gen = Some (Ok phylogeny, mkGenerator untouched false)).
Proof.
  intros Htag Hbefore file untouched.
  assert (Hctx : ET.events_of file
                 = (EvStart, file)
                     :: ET.events_of_list before ++ ET.events_of first
                          ++ untouched).
  { rewrite events_of_eq. unfold untouched. cbn [ET.children file].
    rewrite events_of_list_app, events_of_list_cons.
    by rewrite <- !app_assoc. }
  exists (mkGenerator
            (ET.events_of_list before ++ ET.events_of first ++ untouched) false).
  unfold parse, iterparse. rewrite Hctx. simpl.
  split; [done|]. split; [done|].
  unfold next. cbn [gen_finished gen_context].
  rewrite (Parser_parse_next_skip _ _ Hbefore), events_of_within.
  cbn [app Parser_parse_next ET.is_start]. rewrite Htag, String.eqb_refl.
  cbn [andb].
  assert (Hsplit : unpack2 (split_namespace (ET.tag first))
                   = Ok (NAMESPACES_phy, "phylogeny")) by by rewrite Htag.
  pose proof (parse_phylogeny_tree first NAMESPACES_phy untouched Hsplit) as H.
  simpl in H.
  destruct (phylogeny_tree first) as [phylogeny|phylogeny|e].
  - rewrite H. split; [by exists (Ok phylogeny), (mkGenerator untouched false), []|].
    by intros ? [= <-].
  - destruct H as [tail ->]. split; [|done].
    exists (Ok phylogeny),
      (mkGenerator (tail ++ (EvEnd, first) :: untouched) false),
      (tail ++ [(EvEnd, first)]).
    split; [done|]. simpl. by rewrite <- app_assoc.
  - destruct H as [tail ->]. split; [|done].
    by exists (Raise e), (mkGenerator (tail ++ untouched) true), tail.
Qed.

End Properties.

(* ===================================================================== *)
(** ** A document read, written and read again *)
(* ===================================================================== *)

#[local] Arguments _ns : simpl never.
#[local] Arguments _clean_attrib : simpl never.
#[local] Arguments collapse_wspace : simpl never.
#[local] Arguments strip_or_none : simpl never.
#[local] Arguments _float : simpl never.
#[local] Arguments ET.well_formed : simpl never.
#[local] Arguments ET.attrib_ok : simpl never.
#[local] Arguments ET.is_qname : simpl never.
#[local] Arguments ET.attribute_value : simpl never.
#[local] Arguments ET.character_data : simpl never.
#[local] Arguments untracked_below : simpl never.
#[local] Arguments tree_free : simpl never.

Section Reread.
Context `{PF : PyFloat}.
Variable unicode_MolSeq : MolSeq -> string.

(** *** Induction over clades *)

Lemma Clade_forest_ind (P : Clade -> Prop) :
  (forall clade, Forall P (clades clade) -> P clade) ->
  forall clade, P clade.
Proof.
  intros step. fix IH 1. intros clade. apply step.
  destruct clade as [? ? ? ? ? ? ? ? ? ? ? ? ? ? ? subclades ?]. simpl.
  induction subclades as [|child rest IHrest]; constructor.
  - apply IH.
  - apply IHrest.
Qed.

Lemma rereadable_clade_eq (clade : Clade) :
  rereadable_clade unicode_MolSeq clade
  <-> from_option attribute_reads_back True (id_source clade)
      /\ from_option name_reads_back True (name clade)
      /\ from_option float_reads_back True (branch_length clade)
      /\ Forall (reads_back untracked_below Writer_confidence to_confidence)
           (confidences clade)
      /\ from_option float_reads_back True (width clade)
      /\ from_option (reads_back untracked_below Writer_color to_color) True
           (color clade)
      /\ node_id clade = None
      /\ Forall (reads_back untracked_below Writer_taxonomy to_taxonomy)
           (taxonomies clade)
      /\ Forall (reads_back untracked_below (Writer_sequence unicode_MolSeq)
                   to_sequence)
           (sequences clade)
      /\ from_option (reads_back untracked_below Writer_events to_events) True
           (events clade)
      /\ from_option (reads_back untracked_below Writer_binary_characters
                        to_binary_characters) True
           (binary_characters clade)
      /\ Forall (reads_back untracked_below Writer_distribution
                   to_distribution)
           (distributions clade)
      /\ from_option (reads_back untracked_below Writer_date to_date) True
           (date clade)
      /\ Forall (reads_back untracked_below Writer_reference to_reference)
           (references clade)
      /\ Forall (reads_back untracked_below Writer_property to_property)
           (properties clade)
      /\ Forall (rereadable_clade unicode_MolSeq) (clades clade)
      /\ other clade = [].
Proof.
  destruct clade as [? ? ? ? ? ? ? ? ? ? ? ? ? ? ? subclades ?]. simpl.
  assert (Hall : (fix all (l : list Clade) : Prop :=
                    match l with
                    | [] => True
                    | child :: rest =>
                        rereadable_clade unicode_MolSeq child /\ all rest
                    end) subclades
                 <-> Forall (rereadable_clade unicode_MolSeq) subclades).
  { induction subclades as [|child rest IHrest]; [by split|].
    rewrite Forall_cons, IHrest. done. }
  rewrite Hall. done.
Qed.

(** *** Files that are well-formed *)

Lemma well_formed_eq (elem : Element) :
  ET.well_formed elem
  = ET.is_qname (ET.tag elem) && ET.attrib_ok (ET.attrib elem)
    && from_option (ET.all_of ET.is_char) true (ET.text elem)
    && forallb ET.well_formed (ET.children elem).
Proof. by destruct elem. Qed.

Lemma attrib_ok_Forall (attrib : gmap string string) :
  ET.attrib_ok attrib = true
  <-> map_Forall (fun key val =>
                    ET.is_qname key && negb (String.eqb key "xmlns")
                    && ET.all_of ET.is_char val = true) attrib.
Proof.
  unfold ET.attrib_ok. rewrite forallb_forall. split.
  - intros H key val Hkey. apply (H (key, val)).
    apply list_elem_of_In. by apply elem_of_map_to_list.
  - intros H [key val] Hin. apply H.
    apply list_elem_of_In in Hin. by apply elem_of_map_to_list in Hin.
Qed.

(** The attributes that [_clean_attrib] keeps are those of the table that
    have a value. *)
Lemma clean_attrib_Forall (P : string -> string -> Prop)
    (attrs : list (string * option string)) :
  Forall (fun '(key, val) => from_option (P key) True val) attrs ->
  map_Forall P (_clean_attrib attrs).
Proof.
  unfold _clean_attrib.
  assert (Hfold : forall acc : gmap string string,
             map_Forall P acc ->
             Forall (fun '(key, val) => from_option (P key) True val) attrs ->
             map_Forall P
               (foldl (fun out '(key, val) =>
                         match val with
                         | Some v => <[key := v]> out
                         | None => out
                         end) acc attrs)).
  { induction attrs as [|[key val] attrs IH]; intros acc Hacc Hattrs; [done|].
    apply Forall_cons in Hattrs as [Hval Hattrs]. cbn [foldl].
    apply IH; [|done]. destruct val as [v|]; [|done].
    by apply map_Forall_insert_2. }
  apply Hfold. apply map_Forall_empty.
Qed.

Lemma attrib_ok_clean (attrs : list (string * option string)) :
  Forall (fun '(key, val) =>
            ET.is_qname key && negb (String.eqb key "xmlns") = true
            /\ from_option (fun s => ET.all_of ET.is_char s = true) True val)
         attrs ->
  ET.attrib_ok (_clean_attrib attrs) = true.
Proof.
  intros Hattrs. apply attrib_ok_Forall, clean_attrib_Forall.
  eapply Forall_impl; [exact Hattrs|]. intros [key val] [Hkey Hval].
  destruct val as [v|]; [|done]. simpl in *. by rewrite Hkey, Hval.
Qed.

(** Values that the file keeps stay in the attributes as they are. *)
Lemma fmap_clean_attrib (f : string -> string)
    (attrs : list (string * option string)) :
  Forall (fun '(key, val) => from_option (fun s => f s = s) True val) attrs ->
  f <$> _clean_attrib attrs = _clean_attrib attrs.
Proof.
  unfold _clean_attrib.
  assert (Hfold : forall acc : gmap string string,
             Forall (fun '(key, val) => from_option (fun s => f s = s) True val)
               attrs ->
             f <$> foldl (fun out '(key, val) =>
                            match val with
                            | Some v => <[key := v]> out
                            | None => out
                            end) acc attrs
             = foldl (fun out '(key, val) =>
                        match val with
                        | Some v => <[key := v]> out
                        | None => out
                        end) (f <$> acc) attrs).
  { induction attrs as [|[key val] attrs IH]; intros acc Hattrs; [done|].
    apply Forall_cons in Hattrs as [Hval Hattrs]. cbn [foldl].
    rewrite IH by done. destruct val as [v|]; [|done].
    simpl in Hval. by rewrite fmap_insert, Hval. }
  intros Hattrs. rewrite Hfold by done. by rewrite fmap_empty.
Qed.

Lemma reparse_eq (elem : Element) :
  ET.reparse elem
  = ET.mkElement (ET.tag elem) (ET.attribute_value <$> ET.attrib elem)
      (ET.reparse_text (ET.text elem)) (map ET.reparse (ET.children elem)).
Proof. by destruct elem. Qed.

Lemma untracked_below_eq (elem : Element) :
  untracked_below elem
  = forallb (fun child =>
               match local_tag child with
               | Some tag =>
                   negb (String.eqb tag "clade")
                   && negb (in_list tag _clade_tracked_tags)
               | None => false
               end && untracked_below child)
      (ET.children elem).
Proof. by destruct elem. Qed.

Lemma tree_free_eq (elem : Element) :
  tree_free elem
  = forallb (fun child =>
               match unpack2 (split_namespace (ET.tag child)) with
               | Ok (namespace, localtag) =>
                   negb (String.eqb namespace NAMESPACES_phy
                         && String.eqb localtag "phylogeny")
               | Raise _ => false
               end && tree_free child)
      (ET.children elem).
Proof. by destruct elem. Qed.

Lemma untracked_below_reparse (elem : Element) :
  untracked_below (ET.reparse elem) = untracked_below elem.
Proof.
  induction elem as [tag attrib text children IH] using Element_forest_ind.
  rewrite !untracked_below_eq. cbn [ET.reparse ET.children].
  induction IH as [|child rest Hchild _ IHrest]; [done|].
  cbn [map forallb]. rewrite Hchild, IHrest. by destruct child.
Qed.

Lemma tree_free_reparse (elem : Element) :
  tree_free (ET.reparse elem) = tree_free elem.
Proof.
  induction elem as [tag attrib text children IH] using Element_forest_ind.
  rewrite !tree_free_eq. cbn [ET.reparse ET.children].
  induction IH as [|child rest Hchild _ IHrest]; [done|].
  cbn [map forallb]. rewrite Hchild, IHrest. by destruct child.
Qed.

(** *** What the writer builds *)

Lemma map_result_ok {A B : Type} (f : A -> result B) (g : A -> B) (l : list A) :
  (forall x, f x = Ok (g x)) -> map_result f l = Ok (map g l).
Proof.
  intros H. induction l as [|x rest IH]; [done|].
  simpl. rewrite H, IH. done.
Qed.

Lemma map_result_Forall2 {A B : Type} (f : A -> result B) (P : A -> B -> Prop)
    (l : list A) :
  Forall (fun x => exists y, f x = Ok y /\ P x y) l ->
  exists ys, map_result f l = Ok ys /\ Forall2 P l ys.
Proof.
  induction 1 as [|x rest (y & Hy & HP) _ (ys & Hys & HPs)].
  - exists []. by split.
  - exists (y :: ys). simpl. rewrite Hy, Hys. split; [done|by constructor].
Qed.

Lemma singular_simple_str (tag : string) (val : option string) :
  singular (Writer_simple_str tag) val = Ok (simple_elems tag val).
Proof. by destruct val. Qed.

Lemma singular_simple_float (tag : string) (val : option float_t) :
  singular (Writer_simple_float tag) val
  = Ok (simple_elems tag (serialize_float <$> val)).
Proof. by destruct val. Qed.

Lemma plural_confidence (l : list Confidence) :
  plural Writer_confidence l = Ok (map confidence_elem l).
Proof. by apply map_result_ok. Qed.

Lemma handle_complex_raise (tag : string) attribs (done_ok : list (list Element))
    (e : exn) (later : list (result (list Element))) text :
  _handle_complex tag attribs (map Ok done_ok ++ Raise e :: later) text
  = Raise e.
Proof.
  unfold _handle_complex.
  assert (Hraise : forall l : list (result (list Element)),
             foldl (fun acc subn => done ← acc; es ← subn; Ok (done ++ es))
               (Raise e) l = Raise e).
  { induction l as [|subn l IH]; [done|]. cbn [foldl]. exact IH. }
  assert (Hfold : forall (oks : list (list Element)) acc,
             foldl (fun acc subn => done ← acc; es ← subn; Ok (done ++ es))
               (Ok acc) (map Ok oks ++ Raise e :: later) = Raise e).
  { induction oks as [|es oks IH]; intros acc.
    - cbn [map app foldl mbind result_bind]. apply Hraise.
    - cbn [map app foldl mbind result_bind]. apply IH. }
  by rewrite Hfold.
Qed.

Lemma handle_complex_ok (tag : string) attribs (done_ok : list (list Element))
    text :
  _handle_complex tag attribs (map Ok done_ok) text
  = Ok (ET.mkElement tag (_clean_attrib attribs) text (concat done_ok)).
Proof.
  unfold _handle_complex.
  assert (Hfold : forall (oks : list (list Element)) acc,
             foldl (fun acc subn => done ← acc; es ← subn; Ok (done ++ es))
               (Ok acc) (map Ok oks) = Ok (acc ++ concat oks)).
  { induction oks as [|es oks IH]; intros acc.
    - cbn [map foldl concat]. by rewrite app_nil_r.
    - cbn [map foldl mbind result_bind concat]. rewrite IH.
      by rewrite <- app_assoc. }
  by rewrite Hfold.
Qed.

(** The element of a complex handler has the tag of the handler. *)
Lemma handle_complex_tag (tag : string) attribs subnodes text elem :
  _handle_complex tag attribs subnodes text = Ok elem -> ET.tag elem = tag.
Proof.
  unfold _handle_complex. intros H. inv_bind H. by simplify_eq/=.
Qed.

(** *** What the parser makes of it: clades *)

Lemma split_namespace_ns (tag : string) :
  unpack2 (split_namespace (_ns tag)) = Ok (NAMESPACES_phy, tag).
Proof.
  unfold _ns. by rewrite split_namespace_prefixed.
Qed.

Lemma reparse_text_nonempty (s : string) :
  s <> "" -> ET.reparse_text (Some s) = Some (ET.character_data s).
Proof. by destruct s. Qed.

Lemma local_tag_ns (elem : Element) (tag : string) :
  ET.tag elem = _ns tag -> local_tag elem = Some tag.
Proof. unfold local_tag. intros ->. by rewrite split_namespace_ns. Qed.

(** The loop of a clade passes over the elements below a tracked
    element, when none of them has a tracked tag or is a clade: the stack
    and the clade stay as they are. *)
Lemma clade_walk_below (elem : Element) :
  untracked_below elem = true ->
  forall clade top popped,
    in_list top _clade_tracked_tags = true ->
    clade_walk_children (ET.children elem) (clade, top :: popped)
    = Ok (clade, top :: popped).
Proof.
  induction elem as [tag attrib text children IH] using Element_forest_ind.
  rewrite untracked_below_eq. cbn [ET.children].
  intros Hbelow clade top popped Htop.
  induction IH as [|child rest Hchild _ IHrest]; [done|].
  cbn [forallb] in Hbelow.
  apply andb_prop in Hbelow as [Hhere Hrest].
  apply andb_prop in Hhere as [Htag Hchild_below].
  cbn [clade_walk_children].
  rewrite clade_walk_eq. unfold local_tag in Htag.
  destruct (unpack2 (split_namespace (ET.tag child))) as [[namespace ltag]|];
    [|done].
  apply andb_prop in Htag as [Hclade Htracked].
  apply negb_true_iff in Hclade, Htracked.
  cbn [mbind result_bind fst snd]. rewrite Hclade, Htracked.
  rewrite (Hchild Hchild_below clade top popped Htop).
  cbn [mbind result_bind].
  destruct (String.eqb_spec ltag top) as [->|Hne].
  - by rewrite Htop in Htracked.
  - cbn [negb]. cbn [mbind result_bind]. by apply IHrest.
Qed.

(** The walk of a clade over an element the writer built for one of its
    tracked fields: the tag is pushed, the elements below are passed
    over, the tag is popped and the element assigned. *)
Lemma clade_walk_written (tag : string) (elem : Element) (clade : Clade) :
  ET.tag elem = _ns tag ->
  in_list tag _clade_tracked_tags = true ->
  String.eqb tag "clade" = false ->
  untracked_below elem = true ->
  clade_walk (ET.reparse elem) (clade, [])
  = (clade' ← _parse_clade_assign clade NAMESPACES_phy tag (ET.reparse elem);
     Ok (clade', [])).
Proof.
  intros Htag Htracked Hclade Hbelow. rewrite clade_walk_eq.
  replace (ET.tag (ET.reparse elem)) with (_ns tag) by by destruct elem.
  rewrite split_namespace_ns. cbn [mbind result_bind fst snd].
  rewrite Hclade, Htracked.
  rewrite (clade_walk_below (ET.reparse elem)); [|by rewrite untracked_below_reparse|done].
  cbn [mbind result_bind]. by rewrite String.eqb_refl.
Qed.

(** **** A field of the clade, written and read

    The tables of the writer and of the parser name the same fields:
    each has a tag, a method of the writer and a function of the
    conversion table.  What follows holds for any of them. *)
Section Clade_field.
Context {A : Type} (tag : string) (W : A -> result Element)
  (to : Element -> result A).
Hypothesis Htracked : in_list tag _clade_tracked_tags = true.
Hypothesis Hclade : String.eqb tag "clade" = false.
Hypothesis Htag : forall obj elem, W obj = Ok elem -> ET.tag elem = _ns tag.

Lemma clade_walk_reads_back (assign : Clade -> A -> Clade) (obj : A) :
  (forall clade elem,
      _parse_clade_assign clade NAMESPACES_phy tag elem
      = (v ← to elem; Ok (assign clade v))) ->
  reads_back untracked_below W to obj ->
  exists elem,
    W obj = Ok elem
    /\ ET.well_formed elem = true
    /\ forall clade,
         clade_walk (ET.reparse elem) (clade, []) = Ok (assign clade obj, []).
Proof.
  intros Hassign (elem & Helem & Hwf & Hbelow & Hto).
  exists elem. split; [done|]. split; [done|]. intros clade.
  rewrite (clade_walk_written tag) by eauto.
  by rewrite Hassign, Hto.
Qed.

(** A singular entry of the table of [Writer.clade]. *)
Lemma clade_walk_singular (get : Clade -> option A)
    (set : option A -> Clade -> Clade) (val : option A) :
  (forall clade elem,
      _parse_clade_assign clade NAMESPACES_phy tag elem
      = (v ← to elem; Ok (set (Some v) clade))) ->
  (forall clade, set (get clade) clade = clade) ->
  from_option (reads_back untracked_below W to) True val ->
  exists elems,
    singular W val = Ok elems
    /\ forallb ET.well_formed elems = true
    /\ forall clade,
         get clade = None ->
         clade_walk_children (map ET.reparse elems) (clade, [])
         = Ok (set val clade, []).
Proof.
  intros Hassign Heta Hval. destruct val as [obj|]; simpl in Hval.
  - destruct (clade_walk_reads_back (fun clade v => set (Some v) clade) obj
                Hassign Hval) as (elem & Helem & Hwf & Hwalk).
    exists [elem]. simpl. rewrite Helem, Hwf. split; [done|]. split; [done|].
    intros clade _. by rewrite Hwalk.
  - exists []. split; [done|]. split; [done|]. intros clade Hnone.
    simpl. by rewrite <- Hnone, Heta.
Qed.

(** A plural entry of the table of [Writer.clade]. *)
Lemma clade_walk_plural (get : Clade -> list A)
    (set : list A -> Clade -> Clade) (l : list A) :
  (forall clade elem,
      _parse_clade_assign clade NAMESPACES_phy tag elem
      = (v ← to elem; Ok (set (get clade ++ [v]) clade))) ->
  (forall clade, set (get clade) clade = clade) ->
  (forall l clade, get (set l clade) = l) ->
  (forall l l' clade, set l' (set l clade) = set l' clade) ->
  Forall (reads_back untracked_below W to) l ->
  exists elems,
    plural W l = Ok elems
    /\ forallb ET.well_formed elems = true
    /\ forall clade,
         get clade = [] ->
         clade_walk_children (map ET.reparse elems) (clade, [])
         = Ok (set l clade, []).
Proof.
  intros Hassign Heta Hget Hset Hl.
  assert (Hgen : exists elems,
             plural W l = Ok elems
             /\ forallb ET.well_formed elems = true
             /\ forall clade,
                  clade_walk_children (map ET.reparse elems) (clade, [])
                  = Ok (set (get clade ++ l) clade, [])).
  { induction Hl as [|obj rest Hobj _ (elems & Helems & Hwf & Hwalk)].
    - exists []. split; [done|]. split; [done|]. intros clade. simpl.
      by rewrite app_nil_r, Heta.
    - destruct (clade_walk_reads_back
                  (fun clade v => set (get clade ++ [v]) clade) obj
                  Hassign Hobj) as (elem & Helem & Hwf1 & Hwalk1).
      exists (elem :: elems). unfold plural in *. simpl.
      rewrite Helem, Helems, Hwf1, Hwf. split; [done|]. split; [done|].
      intros clade. rewrite Hwalk1. cbn [mbind result_bind].
      rewrite Hwalk, Hget, Hset. by rewrite <- app_assoc. }
  destruct Hgen as (elems & Helems & Hwf & Hwalk).
  exists elems. split; [done|]. split; [done|]. intros clade Hnil.
  by rewrite Hwalk, Hnil.
Qed.

End Clade_field.

(** **** The simple fields of a clade *)

Lemma well_formed_simple (tag : string) (val : option string) :
  ET.is_qname (_ns tag) = true ->
  from_option (fun s => ET.all_of ET.is_char s = true) True val ->
  forallb ET.well_formed (simple_elems tag val) = true.
Proof.
  intros Htag Hval. destruct val as [s|]; [|done]. simpl in *.
  rewrite well_formed_eq.
  cbn [ET.tag ET.attrib ET.text ET.children from_option forallb].
  rewrite Htag, Hval. reflexivity.
Qed.

Lemma clade_walk_name (val : option string) (clade : Clade) :
  from_option name_reads_back True val ->
  name clade = None ->
  clade_walk_children (map ET.reparse (simple_elems "name" val)) (clade, [])
  = Ok (set_name val clade, []).
Proof.
  destruct val as [s|];
    cbn [simple_elems map clade_walk_children from_option fmap option_fmap
         option_map].
  - intros [_ Hs] _.
    rewrite (clade_walk_written "name") by done.
    change (_parse_clade_assign clade NAMESPACES_phy "name" ?e)
      with (Ok (set_name (collapse_wspace (ET.text e)) clade) : result Clade).
    cbn [ET.reparse ET.text mbind result_bind clade_walk_children].
    by rewrite Hs.
  - intros _ Hnone. destruct clade. simpl in *. by subst.
Qed.

Lemma clade_walk_branch_length (val : option float_t) (clade : Clade) :
  from_option float_reads_back True val ->
  branch_length clade = None ->
  clade_walk_children
    (map ET.reparse (simple_elems "branch_length" (serialize_float <$> val)))
    (clade, [])
  = Ok (set_branch_length val clade, []).
Proof.
  destruct val as [x|];
    cbn [simple_elems map clade_walk_children from_option fmap option_fmap
         option_map].
  - intros [_ Hx] Hnone.
    rewrite (clade_walk_written "branch_length") by done.
    unfold _parse_clade_assign.
    change (in_list "branch_length" _clade_complex_types) with false.
    change (in_list "branch_length" _clade_list_types) with false.
    change (String.eqb "branch_length" "branch_length") with true.
    cbv iota. rewrite Hnone.
    cbn [ET.reparse ET.text mbind result_bind clade_walk_children].
    by rewrite Hx.
  - intros _ Hnone. destruct clade. simpl in *. by subst.
Qed.

Lemma clade_walk_width (val : option float_t) (clade : Clade) :
  from_option float_reads_back True val ->
  width clade = None ->
  clade_walk_children
    (map ET.reparse (simple_elems "width" (serialize_float <$> val)))
    (clade, [])
  = Ok (set_width val clade, []).
Proof.
  destruct val as [x|];
    cbn [simple_elems map clade_walk_children from_option fmap option_fmap
         option_map].
  - intros [_ Hx] _.
    rewrite (clade_walk_written "width") by done.
    change (_parse_clade_assign clade NAMESPACES_phy "width" ?e)
      with (Ok (set_width (_float (ET.text e)) clade) : result Clade).
    cbn [ET.reparse ET.text mbind result_bind clade_walk_children].
    by rewrite Hx.
  - intros _ Hnone. destruct clade. simpl in *. by subst.
Qed.

Lemma lookup_clean_attrib_one (key : string) (val : option string) :
  _clean_attrib [(key, val)] !! key = val.
Proof.
  unfold _clean_attrib. destruct val; simpl.
  - by simplify_map_eq.
  - done.
Qed.

Lemma parse_clade_head_written tag (id_source : option string) text children :
  from_option attribute_reads_back True id_source ->
  _parse_clade_head
    (ET.mkElement tag
       (ET.attribute_value <$> _clean_attrib [("id_source", id_source)])
       text children)
  = Ok (Tree_Clade None id_source None None None None None None None
          [] [] [] [] [] [] [] []).
Proof.
  intros Hid. rewrite fmap_clean_attrib.
  - destruct id_source; vm_compute; reflexivity.
  - constructor; [|done]. destruct id_source as [s|]; [|done]. apply Hid.
Qed.

Lemma clade_walk_subclades (l : list Clade) (elems : list Element)
    (clade : Clade) :
  Forall2 (fun c elem =>
             ET.well_formed elem = true
             /\ unpack2 (split_namespace (ET.tag (ET.reparse elem)))
                = Ok (NAMESPACES_phy, "clade")
             /\ clade_tree (ET.reparse elem) = Ok c) l elems ->
  clades clade = [] ->
  clade_walk_children (map ET.reparse elems) (clade, [])
  = Ok (set_clades l clade, []).
Proof.
  intros Hl Hnil.
  assert (Hgen : forall clade,
             clade_walk_children (map ET.reparse elems) (clade, [])
             = Ok (set_clades (clades clade ++ l) clade, [])).
  { clear Hnil clade.
    induction Hl as [|c elem rest elems' (_ & Htag & Htree) _ IH];
      intros clade.
    - simpl. rewrite app_nil_r. by destruct clade.
    - cbn [map clade_walk_children].
      rewrite (clade_walk_clade _ _ _ Htag), Htree.
      cbn [mbind result_bind fst snd]. rewrite IH.
      destruct clade. simpl. by rewrite <- app_assoc. }
  by rewrite Hgen, Hnil.
Qed.

Lemma Writer_clade_eq (obj : Clade) :
  Writer_clade unicode_MolSeq obj
  = _handle_complex (_ns "clade") [("id_source", id_source obj)]
      [singular (Writer_simple_str "name") (name obj);
       singular (Writer_simple_float "branch_length") (branch_length obj);
       plural Writer_confidence (confidences obj);
       singular (Writer_simple_float "width") (width obj);
       singular Writer_color (color obj);
       singular Writer_node_id (node_id obj);
       plural Writer_taxonomy (taxonomies obj);
       plural (Writer_sequence unicode_MolSeq) (sequences obj);
       singular Writer_events (events obj);
       singular Writer_binary_characters (binary_characters obj);
       plural Writer_distribution (distributions obj);
       singular Writer_date (date obj);
       plural Writer_reference (references obj);
       plural Writer_property (properties obj);
       map_result (Writer_clade unicode_MolSeq) (clades obj);
       plural Writer_other_r (other obj)]
      None.
Proof.
  destruct obj as [f1 f2 f3 f4 f5 f6 f7 f8 f9 f10 f11 f12 f13 f14 f15
                     subclades f17].
  cbn [Writer_clade id_source name branch_length confidences width color
       node_id taxonomies sequences events binary_characters distributions
       date references properties clades other].
  assert (Hfix : (fix clade_all (l : list Clade) : result (list Element) :=
                    match l with
                    | [] => Ok []
                    | c :: rest =>
                        e ← Writer_clade unicode_MolSeq c;
                        es ← clade_all rest; Ok (e :: es)
                    end) subclades
                 = map_result (Writer_clade unicode_MolSeq) subclades).
  { induction subclades as [|c rest IH]; [done|].
    simpl. by rewrite IH. }
  by rewrite Hfix.
Qed.

Lemma forallb_well_formed_Forall2 {B : Type} (P : B -> Element -> Prop)
    (l : list B) (elems : list Element) :
  Forall2 (fun x elem => ET.well_formed elem = true /\ P x elem) l elems ->
  forallb ET.well_formed elems = true.
Proof.
  induction 1 as [|x elem l' elems' [Hwf _] _ IH]; [done|].
  simpl. by rewrite Hwf, IH.
Qed.

(** **** The tags of the writer's elements *)

Lemma Writer_confidence_tag obj elem :
  Writer_confidence obj = Ok elem -> ET.tag elem = _ns "confidence".
Proof. apply handle_complex_tag. Qed.

Lemma Writer_color_tag obj elem :
  Writer_color obj = Ok elem -> ET.tag elem = _ns "color".
Proof. apply handle_complex_tag. Qed.

Lemma Writer_taxonomy_tag obj elem :
  Writer_taxonomy obj = Ok elem -> ET.tag elem = _ns "taxonomy".
Proof. apply handle_complex_tag. Qed.

Lemma Writer_sequence_tag obj elem :
  Writer_sequence unicode_MolSeq obj = Ok elem -> ET.tag elem = _ns "sequence".
Proof. apply handle_complex_tag. Qed.

Lemma Writer_events_tag obj elem :
  Writer_events obj = Ok elem -> ET.tag elem = _ns "events".
Proof. apply handle_complex_tag. Qed.

Lemma Writer_binary_characters_tag obj elem :
  Writer_binary_characters obj = Ok elem ->
  ET.tag elem = _ns "binary_characters".
Proof.
  unfold Writer_binary_characters. intros H. inv_bind H. by simplify_eq/=.
Qed.

Lemma Writer_distribution_tag obj elem :
  Writer_distribution obj = Ok elem -> ET.tag elem = _ns "distribution".
Proof. apply handle_complex_tag. Qed.

Lemma Writer_date_tag obj elem :
  Writer_date obj = Ok elem -> ET.tag elem = _ns "date".
Proof. apply handle_complex_tag. Qed.

Lemma Writer_reference_tag obj elem :
  Writer_reference obj = Ok elem -> ET.tag elem = _ns "reference".
Proof. apply handle_complex_tag. Qed.

Lemma Writer_property_tag obj elem :
  Writer_property obj = Ok elem -> ET.tag elem = _ns "property".
Proof. apply handle_complex_tag. Qed.

Lemma Writer_id_tag obj elem :
  Writer_id obj = Ok elem -> ET.tag elem = _ns "id".
Proof. apply handle_complex_tag. Qed.

Lemma Writer_clade_relation_tag obj elem :
  Writer_clade_relation obj = Ok elem -> ET.tag elem = _ns "clade_relation".
Proof. apply handle_complex_tag. Qed.

Lemma Writer_sequence_relation_tag obj elem :
  Writer_sequence_relation obj = Ok elem ->
  ET.tag elem = _ns "sequence_relation".
Proof. apply handle_complex_tag. Qed.

(** **** A clade, written and read *)

Lemma attrib_ok_one (key : string) (val : option string) :
  ET.is_qname key && negb (String.eqb key "xmlns") = true ->
  from_option attribute_reads_back True val ->
  ET.attrib_ok (_clean_attrib [(key, val)]) = true.
Proof.
  intros Hkey Hval. apply attrib_ok_clean. constructor; [|done].
  split; [done|]. destruct val as [s|]; [|done]. apply Hval.
Qed.

(** A clade whose parts are read back is read back from the element the
    writer builds for it. *)
Lemma clade_tree_Writer_clade (clade : Clade) :
  rereadable_clade unicode_MolSeq clade ->
  exists elem,
    Writer_clade unicode_MolSeq clade = Ok elem
    /\ ET.well_formed elem = true
    /\ unpack2 (split_namespace (ET.tag (ET.reparse elem)))
       = Ok (NAMESPACES_phy, "clade")
    /\ clade_tree (ET.reparse elem) = Ok clade.
Proof.
  induction clade as [clade IH] using Clade_forest_ind.
  rewrite rereadable_clade_eq.
  intros (Hid & Hname & Hlen & Hconf & Hwidth & Hcolor & Hnode & Htax & Hseq
          & Hevents & Hbin & Hdist & Hdate & Hrefs & Hprops & Hsub & Hother).
  (* the entries of the table, one by one *)
  destruct (clade_walk_plural "confidence" Writer_confidence to_confidence
              eq_refl eq_refl Writer_confidence_tag
              confidences set_confidences (confidences clade))
    as (e_conf & Wconf & WFconf & Rconf);
    [done|by intros []|by intros ? []|by intros ? ? []|done|].
  destruct (clade_walk_singular "color" Writer_color to_color
              eq_refl eq_refl Writer_color_tag color set_color (color clade))
    as (e_color & Wcolor & WFcolor & Rcolor); [done|by intros []|done|].
  destruct (clade_walk_plural "taxonomy" Writer_taxonomy to_taxonomy
              eq_refl eq_refl Writer_taxonomy_tag
              taxonomies set_taxonomies (taxonomies clade))
    as (e_tax & Wtax & WFtax & Rtax);
    [done|by intros []|by intros ? []|by intros ? ? []|done|].
  destruct (clade_walk_plural "sequence" (Writer_sequence unicode_MolSeq)
              to_sequence eq_refl eq_refl Writer_sequence_tag
              sequences set_sequences (sequences clade))
    as (e_seq & Wseq & WFseq & Rseq);
    [done|by intros []|by intros ? []|by intros ? ? []|done|].
  destruct (clade_walk_singular "events" Writer_events to_events
              eq_refl eq_refl Writer_events_tag events set_events
              (events clade))
    as (e_events & Wevents & WFevents & Revents); [done|by intros []|done|].
  destruct (clade_walk_singular "binary_characters" Writer_binary_characters
              to_binary_characters eq_refl eq_refl
              Writer_binary_characters_tag binary_characters
              set_binary_characters (binary_characters clade))
    as (e_bin & Wbin & WFbin & Rbin); [done|by intros []|done|].
  destruct (clade_walk_plural "distribution" Writer_distribution
              to_distribution eq_refl eq_refl Writer_distribution_tag
              distributions set_distributions (distributions clade))
    as (e_dist & Wdist & WFdist & Rdist);
    [done|by intros []|by intros ? []|by intros ? ? []|done|].
  destruct (clade_walk_singular "date" Writer_date to_date
              eq_refl eq_refl Writer_date_tag date set_date (date clade))
    as (e_date & Wdate & WFdate & Rdate); [done|by intros []|done|].
  destruct (clade_walk_plural "reference" Writer_reference to_reference
              eq_refl eq_refl Writer_reference_tag
              references set_references (references clade))
    as (e_refs & Wrefs & WFrefs & Rrefs);
    [done|by intros []|by intros ? []|by intros ? ? []|done|].
  destruct (clade_walk_plural "property" Writer_property to_property
              eq_refl eq_refl Writer_property_tag
              properties set_properties (properties clade))
    as (e_props & Wprops & WFprops & Rprops);
    [done|by intros []|by intros ? []|by intros ? ? []|done|].
  destruct (map_result_Forall2 (Writer_clade unicode_MolSeq)
              (fun c elem =>
                 ET.well_formed elem = true
                 /\ unpack2 (split_namespace (ET.tag (ET.reparse elem)))
                    = Ok (NAMESPACES_phy, "clade")
                 /\ clade_tree (ET.reparse elem) = Ok c) (clades clade))
    as (e_sub & Wsub & Rsub).
  { rewrite Forall_forall in IH, Hsub. apply Forall_forall. intros c Hc.
    apply (IH c Hc), Hsub, Hc. }
  (* the element *)
  rewrite Writer_clade_eq, singular_simple_str, !singular_simple_float.
  rewrite Wconf, Wcolor, Hnode, Wtax, Wseq, Wevents, Wbin, Wdist, Wdate,
    Wrefs, Wprops, Wsub, Hother.
  eexists. split.
  { exact (handle_complex_ok _ _
             [_; _; _; _; _; []; _; _; _; _; _; _; _; _; _; []] _). }
  cbn [concat]. rewrite !app_nil_r. cbn [app].
  split; [|split].
  - (* its file is well-formed *)
    rewrite well_formed_eq.
    cbn [ET.tag ET.attrib ET.text ET.children from_option].
    rewrite attrib_ok_one by done.
    rewrite !forallb_app.
    rewrite (well_formed_simple "name") by
      (done || (destruct (name clade); [apply Hname|done])).
    rewrite (well_formed_simple "branch_length") by
      (done || (destruct (branch_length clade); [apply Hlen|done])).
    rewrite (well_formed_simple "width") by
      (done || (destruct (width clade); [apply Hwidth|done])).
    rewrite WFconf, WFcolor, WFtax, WFseq, WFevents, WFbin, WFdist, WFdate,
      WFrefs, WFprops.
    rewrite (forallb_well_formed_Forall2 _ _ _ Rsub). reflexivity.
  - cbn [ET.reparse ET.tag]. apply split_namespace_ns.
  - (* and the parser builds the clade from it *)
    unfold clade_tree. cbn [ET.reparse ET.tag ET.attrib ET.text ET.children].
    rewrite parse_clade_head_written by done. cbn [mbind result_bind].
    rewrite !map_app.
    rewrite clade_walk_children_app, clade_walk_name by done.
    cbn [mbind result_bind].
    rewrite clade_walk_children_app, clade_walk_branch_length by done.
    cbn [mbind result_bind].
    rewrite clade_walk_children_app, Rconf by done. cbn [mbind result_bind].
    rewrite clade_walk_children_app, clade_walk_width by done.
    cbn [mbind result_bind].
    rewrite clade_walk_children_app, Rcolor by done. cbn [mbind result_bind].
    rewrite clade_walk_children_app, Rtax by done. cbn [mbind result_bind].
    rewrite clade_walk_children_app, Rseq by done. cbn [mbind result_bind].
    rewrite clade_walk_children_app, Revents by done. cbn [mbind result_bind].
    rewrite clade_walk_children_app, Rbin by done. cbn [mbind result_bind].
    rewrite clade_walk_children_app, Rdist by done. cbn [mbind result_bind].
    rewrite clade_walk_children_app, Rdate by done. cbn [mbind result_bind].
    rewrite clade_walk_children_app, Rrefs by done. cbn [mbind result_bind].
    rewrite clade_walk_children_app, Rprops by done. cbn [mbind result_bind].
    rewrite (clade_walk_subclades _ _ _ Rsub) by done.
    cbn [mbind result_bind].
    destruct clade. simpl in *. by subst.
Qed.

(** *** What the parser makes of it: trees *)

Lemma eqb_namespace_foreign (namespace : string) :
  namespace <> NAMESPACES_phy ->
  negb (String.eqb namespace NAMESPACES_phy) = true.
Proof. intros H. by apply negb_true_iff, String.eqb_neq. Qed.

(** A tag that the loop of [_parse_phylogeny] does not know, in a foreign
    namespace: the element is converted by [to_other]. *)
Lemma phylogeny_assign_unknown (tag namespace : string) phylogeny elem :
  in_list tag
    ("clade" :: "phylogeny" :: _phylogeny_complex_types
       ++ _phylogeny_list_types ++ ["name"; "description"]) = false ->
  namespace <> NAMESPACES_phy ->
  String.eqb tag "clade" = false
  /\ String.eqb tag "phylogeny" = false
  /\ _parse_phylogeny_assign phylogeny namespace tag elem
     = (v ← to_other elem;
        Ok (set_phy_other (phy_other phylogeny ++ [v]) phylogeny)).
Proof.
  unfold in_list. cbn [app existsb _phylogeny_complex_types
                         _phylogeny_list_types].
  rewrite !orb_false_iff.
  intros (Hclade & Htree & Hdate & Hid & Hconf & Hprop & Hrel & Hseq & Hname
          & Hdesc & _) Hns.
  split; [done|]. split; [done|].
  unfold _parse_phylogeny_assign, in_list.
  cbn [existsb _phylogeny_complex_types _phylogeny_list_types].
  rewrite Hdate, Hid, Hconf, Hprop, Hrel, Hseq, Hname, Hdesc.
  cbn [orb]. by rewrite eqb_namespace_foreign.
Qed.

Lemma childless_nil (elem : Element) :
  childless elem = true -> ET.children elem = [].
Proof. unfold childless. by destruct (ET.children elem). Qed.

(** The walk of a tree over an element without children that is neither
    a clade nor a tree: the element is assigned. *)
Lemma phylogeny_walk_childless (elem : Element) (namespace tag : string)
    (phylogeny : Phylogeny) :
  unpack2 (split_namespace (ET.tag elem)) = Ok (namespace, tag) ->
  ET.children elem = [] ->
  String.eqb tag "clade" = false ->
  String.eqb tag "phylogeny" = false ->
  phylogeny_walk elem phylogeny
  = match _parse_phylogeny_assign phylogeny namespace tag elem with
    | Ok phylogeny' => Next phylogeny'
    | Raise e => Throw e
    end.
Proof.
  intros Hsplit Hkids Hclade Htree. rewrite phylogeny_walk_eq.
  rewrite Hsplit, Hkids, Hclade.
  cbn [phylogeny_walk_children]. by rewrite Htree.
Qed.

Lemma phylogeny_walk_written (tag : string) (elem : Element)
    (phylogeny : Phylogeny) :
  ET.tag elem = _ns tag ->
  childless elem = true ->
  String.eqb tag "clade" = false ->
  String.eqb tag "phylogeny" = false ->
  phylogeny_walk (ET.reparse elem) phylogeny
  = match _parse_phylogeny_assign phylogeny NAMESPACES_phy tag
            (ET.reparse elem) with
    | Ok phylogeny' => Next phylogeny'
    | Raise e => Throw e
    end.
Proof.
  intros Htag Hkids Hclade Htree. apply phylogeny_walk_childless; try done.
  - replace (ET.tag (ET.reparse elem)) with (_ns tag) by by destruct elem.
    apply split_namespace_ns.
  - apply childless_nil in Hkids. destruct elem. simpl in *. by subst.
Qed.

(** **** A field of the tree, written and read *)
Section Phylogeny_field.
Context {A : Type} (tag : string) (W : A -> result Element)
  (to : Element -> result A).
Hypothesis Hclade : String.eqb tag "clade" = false.
Hypothesis Htree : String.eqb tag "phylogeny" = false.
Hypothesis Htag : forall obj elem, W obj = Ok elem -> ET.tag elem = _ns tag.

Lemma phylogeny_walk_reads_back (assign : Phylogeny -> A -> Phylogeny)
    (obj : A) :
  (forall phylogeny elem,
      _parse_phylogeny_assign phylogeny NAMESPACES_phy tag elem
      = (v ← to elem; Ok (assign phylogeny v))) ->
  reads_back childless W to obj ->
  exists elem,
    W obj = Ok elem
    /\ ET.well_formed elem = true
    /\ forall phylogeny,
         phylogeny_walk (ET.reparse elem) phylogeny
         = Next (assign phylogeny obj).
Proof.
  intros Hassign (elem & Helem & Hwf & Hkids & Hto).
  exists elem. split; [done|]. split; [done|]. intros phylogeny.
  rewrite (phylogeny_walk_written tag) by eauto.
  by rewrite Hassign, Hto.
Qed.

(** A singular entry of the table of [Writer.phylogeny]. *)
Lemma phylogeny_walk_singular (get : Phylogeny -> option A)
    (set : option A -> Phylogeny -> Phylogeny) (val : option A) :
  (forall phylogeny elem,
      _parse_phylogeny_assign phylogeny NAMESPACES_phy tag elem
      = (v ← to elem; Ok (set (Some v) phylogeny))) ->
  (forall phylogeny, set (get phylogeny) phylogeny = phylogeny) ->
  from_option (reads_back childless W to) True val ->
  exists elems,
    singular W val = Ok elems
    /\ forallb ET.well_formed elems = true
    /\ forall phylogeny,
         get phylogeny = None ->
         phylogeny_walk_children (map ET.reparse elems) phylogeny
         = Next (set val phylogeny).
Proof.
  intros Hassign Heta Hval. destruct val as [obj|]; simpl in Hval.
  - destruct (phylogeny_walk_reads_back
                (fun phylogeny v => set (Some v) phylogeny) obj
                Hassign Hval) as (elem & Helem & Hwf & Hwalk).
    exists [elem]. simpl. rewrite Helem, Hwf. split; [done|]. split; [done|].
    intros phylogeny _. by rewrite Hwalk.
  - exists []. split; [done|]. split; [done|]. intros phylogeny Hnone.
    simpl. by rewrite <- Hnone, Heta.
Qed.

(** A plural entry of the table of [Writer.phylogeny]. *)
Lemma phylogeny_walk_plural (get : Phylogeny -> list A)
    (set : list A -> Phylogeny -> Phylogeny) (l : list A) :
  (forall phylogeny elem,
      _parse_phylogeny_assign phylogeny NAMESPACES_phy tag elem
      = (v ← to elem; Ok (set (get phylogeny ++ [v]) phylogeny))) ->
  (forall phylogeny, set (get phylogeny) phylogeny = phylogeny) ->
  (forall l phylogeny, get (set l phylogeny) = l) ->
  (forall l l' phylogeny, set l' (set l phylogeny) = set l' phylogeny) ->
  Forall (reads_back childless W to) l ->
  exists elems,
    plural W l = Ok elems
    /\ forallb ET.well_formed elems = true
    /\ forall phylogeny,
         get phylogeny = [] ->
         phylogeny_walk_children (map ET.reparse elems) phylogeny
         = Next (set l phylogeny).
Proof.
  intros Hassign Heta Hget Hset Hl.
  assert (Hgen : exists elems,
             plural W l = Ok elems
             /\ forallb ET.well_formed elems = true
             /\ forall phylogeny,
                  phylogeny_walk_children (map ET.reparse elems) phylogeny
                  = Next (set (get phylogeny ++ l) phylogeny)).
  { induction Hl as [|obj rest Hobj _ (elems & Helems & Hwf & Hwalk)].
    - exists []. split; [done|]. split; [done|]. intros phylogeny. simpl.
      by rewrite app_nil_r, Heta.
    - destruct (phylogeny_walk_reads_back
                  (fun phylogeny v => set (get phylogeny ++ [v]) phylogeny) obj
                  Hassign Hobj) as (elem & Helem & Hwf1 & Hwalk1).
      exists (elem :: elems). unfold plural in *. simpl.
      rewrite Helem, Helems, Hwf1, Hwf. split; [done|]. split; [done|].
      intros phylogeny. rewrite Hwalk1.
      rewrite Hwalk, Hget, Hset. by rewrite <- app_assoc. }
  destruct Hgen as (elems & Helems & Hwf & Hwalk).
  exists elems. split; [done|]. split; [done|]. intros phylogeny Hnil.
  by rewrite Hwalk, Hnil.
Qed.

End Phylogeny_field.

(** **** The simple fields of a tree, its root and its foreign nodes *)

Lemma phylogeny_walk_name (val : option string) (phylogeny : Phylogeny) :
  from_option name_reads_back True val ->
  phy_name phylogeny = None ->
  phylogeny_walk_children (map ET.reparse (simple_elems "name" val)) phylogeny
  = Next (set_phy_name val phylogeny).
Proof.
  destruct val as [s|];
    cbn [simple_elems map phylogeny_walk_children from_option].
  - intros [_ Hs] _.
    rewrite (phylogeny_walk_written "name") by done.
    change (_parse_phylogeny_assign phylogeny NAMESPACES_phy "name" ?e)
      with (Ok (set_phy_name (collapse_wspace (ET.text e)) phylogeny)
            : result Phylogeny).
    cbn [ET.reparse ET.text]. by rewrite Hs.
  - intros _ Hnone. destruct phylogeny. simpl in *. by subst.
Qed.

Lemma phylogeny_walk_description (val : option string) (phylogeny : Phylogeny) :
  from_option name_reads_back True val ->
  phy_description phylogeny = None ->
  phylogeny_walk_children (map ET.reparse (simple_elems "description" val))
    phylogeny
  = Next (set_phy_description val phylogeny).
Proof.
  destruct val as [s|];
    cbn [simple_elems map phylogeny_walk_children from_option].
  - intros [_ Hs] _.
    rewrite (phylogeny_walk_written "description") by done.
    change (_parse_phylogeny_assign phylogeny NAMESPACES_phy "description" ?e)
      with (Ok (set_phy_description (collapse_wspace (ET.text e)) phylogeny)
            : result Phylogeny).
    cbn [ET.reparse ET.text]. by rewrite Hs.
  - intros _ Hnone. destruct phylogeny. simpl in *. by subst.
Qed.

Lemma phylogeny_walk_root (clade : option Clade) (phylogeny : Phylogeny) :
  from_option (rereadable_clade unicode_MolSeq) True clade ->
  exists elems,
    singular (Writer_clade unicode_MolSeq) clade = Ok elems
    /\ forallb ET.well_formed elems = true
    /\ forall phylogeny,
         phy_clade phylogeny = None ->
         phylogeny_walk_children (map ET.reparse elems) phylogeny
         = Next (set_phy_clade clade phylogeny).
Proof.
  destruct clade as [c|]; simpl; intros Hc.
  - destruct (clade_tree_Writer_clade c Hc) as (elem & Helem & Hwf & Htag & Htree).
    exists [elem]. rewrite Helem. simpl. rewrite Hwf.
    split; [done|]. split; [done|]. intros p Hnone.
    rewrite phylogeny_walk_eq, Htag.
    change (String.eqb "clade" "clade") with true. cbv iota.
    by rewrite Hnone, Htree.
  - exists []. split; [done|]. split; [done|]. intros p Hnone.
    simpl. destruct p. simpl in *. by subst.
Qed.

(** The foreign nodes of a tree: each is written as an element without
    children, which the loop converts at its end event. *)
Lemma phylogeny_walk_others (l : list Other) :
  Forall rereadable_tree_other l ->
  exists elems,
    plural Writer_other_r l = Ok elems
    /\ forallb ET.well_formed elems = true
    /\ forall phylogeny,
         phy_other phylogeny = [] ->
         phylogeny_walk_children (map ET.reparse elems) phylogeny
         = Next (set_phy_other l phylogeny).
Proof.
  intros Hl.
  assert (Hgen : exists elems,
             plural Writer_other_r l = Ok elems
             /\ forallb ET.well_formed elems = true
             /\ forall phylogeny,
                  phylogeny_walk_children (map ET.reparse elems) phylogeny
                  = Next (set_phy_other (phy_other phylogeny ++ l) phylogeny)).
  { induction Hl as [|obj rest (Hns & Htags & elem & Helem & Hwf1 & Hkids & Hto)
                       _ (elems & Helems & Hwf & Hwalk)].
    - exists []. split; [done|]. split; [done|]. intros phylogeny. simpl.
      rewrite app_nil_r. by destruct phylogeny.
    - exists (elem :: elems). unfold plural in *.
      cbn [map_result map forallb phylogeny_walk_children].
      rewrite Helem, Helems, Hwf1, Hwf. split; [done|]. split; [done|].
      intros phylogeny.
      (* the tag of the element splits into the names of the node *)
      pose proof Hto as Hsplit. rewrite to_other_eq in Hsplit.
      destruct (unpack2 (split_namespace (ET.tag (ET.reparse elem))))
        as [[namespace localtag]|] eqn:Htag; [|done].
      cbn [mbind result_bind] in Hsplit. inv_bind Hsplit.
      injection Hsplit as <-.
      cbn [other_namespace other_tag] in Hns, Htags.
      destruct (phylogeny_assign_unknown localtag namespace phylogeny
                  (ET.reparse elem) Htags Hns) as (Hclade & Htree & Hassign).
      rewrite (phylogeny_walk_childless _ _ _ _ Htag) by
        (done || (apply childless_nil in Hkids; destruct elem; simpl in *;
                  by subst)).
      rewrite Hassign, Hto. cbn [mbind result_bind].
      rewrite Hwalk. destruct phylogeny. simpl. by rewrite <- app_assoc. }
  destruct Hgen as (elems & Helems & Hwf & Hwalk).
  exists elems. split; [done|]. split; [done|]. intros phylogeny Hnil.
  by rewrite Hwalk, Hnil.
Qed.

(** **** A tree, written and read *)

Lemma parse_phylogeny_head_plain tag (rooted rerootable : option bool)
    (unit type : option string) text children :
  _parse_phylogeny_head
    (ET.mkElement tag
       (_clean_attrib [("rooted", serialize_bool <$> rooted);
                       ("rerootable", serialize_bool <$> rerootable);
                       ("branch_length_unit", unit);
                       ("type", type)])
       text children)
  = Ok (Tree_Phylogeny rooted rerootable unit type None None None None []
          None [] [] [] []).
Proof.
  destruct rooted as [[]|], rerootable as [[]|], unit, type;
    vm_compute; reflexivity.
Qed.

Lemma phylogeny_attributes_read_back (rooted rerootable : option bool)
    (unit type : option string) :
  from_option attribute_reads_back True unit ->
  from_option attribute_reads_back True type ->
  ET.attribute_value
    <$> _clean_attrib [("rooted", serialize_bool <$> rooted);
                       ("rerootable", serialize_bool <$> rerootable);
                       ("branch_length_unit", unit);
                       ("type", type)]
  = _clean_attrib [("rooted", serialize_bool <$> rooted);
                   ("rerootable", serialize_bool <$> rerootable);
                   ("branch_length_unit", unit);
                   ("type", type)].
Proof.
  intros Hunit Htype. apply fmap_clean_attrib.
  repeat constructor.
  - by destruct rooted as [[]|].
  - by destruct rerootable as [[]|].
  - destruct unit; [apply Hunit|done].
  - destruct type; [apply Htype|done].
Qed.

Lemma phylogeny_attributes_ok (rooted rerootable : option bool)
    (unit type : option string) :
  from_option attribute_reads_back True unit ->
  from_option attribute_reads_back True type ->
  ET.attrib_ok
    (_clean_attrib [("rooted", serialize_bool <$> rooted);
                    ("rerootable", serialize_bool <$> rerootable);
                    ("branch_length_unit", unit);
                    ("type", type)]) = true.
Proof.
  intros Hunit Htype. apply attrib_ok_clean.
  repeat constructor.
  - by destruct rooted as [[]|].
  - by destruct rerootable as [[]|].
  - destruct unit; [apply Hunit|done].
  - destruct type; [apply Htype|done].
Qed.

(** A tree whose parts are read back is read back from the element the
    writer builds for it. *)
Lemma phylogeny_tree_Writer_phylogeny (phylogeny : Phylogeny) :
  rereadable_phylogeny unicode_MolSeq phylogeny ->
  exists elem,
    Writer_phylogeny unicode_MolSeq phylogeny = Ok elem
    /\ ET.well_formed elem = true
    /\ unpack2 (split_namespace (ET.tag (ET.reparse elem)))
       = Ok (NAMESPACES_phy, "phylogeny")
    /\ phylogeny_tree (ET.reparse elem) = Next phylogeny.
Proof.
  intros (Hunit & Htype & Hname & Hid & Hdesc & Hdate & Hconf & Hclade & Hrel
          & Hseq & Hprops & Hother).
  destruct (phylogeny_walk_singular "id" Writer_id to_id eq_refl eq_refl
              Writer_id_tag phy_id set_phy_id (phy_id phylogeny))
    as (e_id & Wid & WFid & Rid); [done|by intros []|done|].
  destruct (phylogeny_walk_singular "date" Writer_date to_date eq_refl eq_refl
              Writer_date_tag phy_date set_phy_date (phy_date phylogeny))
    as (e_date & Wdate & WFdate & Rdate); [done|by intros []|done|].
  destruct (phylogeny_walk_plural "confidence" Writer_confidence to_confidence
              eq_refl eq_refl Writer_confidence_tag
              phy_confidences set_phy_confidences (phy_confidences phylogeny))
    as (e_conf & Wconf & WFconf & Rconf);
    [done|by intros []|by intros ? []|by intros ? ? []|done|].
  destruct (phylogeny_walk_root (phy_clade phylogeny) phylogeny Hclade)
    as (e_clade & Wclade & WFclade & Rclade).
  destruct (phylogeny_walk_plural "clade_relation" Writer_clade_relation
              to_clade_relation eq_refl eq_refl Writer_clade_relation_tag
              phy_clade_relations set_phy_clade_relations
              (phy_clade_relations phylogeny))
    as (e_rel & Wrel & WFrel & Rrel);
    [done|by intros []|by intros ? []|by intros ? ? []|done|].
  destruct (phylogeny_walk_plural "sequence_relation" Writer_sequence_relation
              to_sequence_relation eq_refl eq_refl
              Writer_sequence_relation_tag
              phy_sequence_relations set_phy_sequence_relations
              (phy_sequence_relations phylogeny))
    as (e_seq & Wseq & WFseq & Rseq);
    [done|by intros []|by intros ? []|by intros ? ? []|done|].
  destruct (phylogeny_walk_plural "property" Writer_property to_property
              eq_refl eq_refl Writer_property_tag
              phy_properties set_phy_properties (phy_properties phylogeny))
    as (e_props & Wprops & WFprops & Rprops);
    [done|by intros []|by intros ? []|by intros ? ? []|done|].
  destruct (phylogeny_walk_others (phy_other phylogeny) Hother)
    as (e_other & Wother & WFother & Rother).
  (* the element *)
  unfold Writer_phylogeny.
  rewrite !singular_simple_str, Wid, Wdate, Wconf, Wclade, Wrel, Wseq, Wprops,
    Wother.
  eexists. split.
  { exact (handle_complex_ok _ _ [_; _; _; _; _; _; _; _; _; _] _). }
  cbn [concat]. rewrite !app_nil_r.
  split; [|split].
  - rewrite well_formed_eq.
    cbn [ET.tag ET.attrib ET.text ET.children from_option].
    rewrite phylogeny_attributes_ok by done.
    rewrite !forallb_app.
    rewrite (well_formed_simple "name") by
      (done || (destruct (phy_name phylogeny); [apply Hname|done])).
    rewrite (well_formed_simple "description") by
      (done || (destruct (phy_description phylogeny); [apply Hdesc|done])).
    rewrite WFid, WFdate, WFconf, WFclade, WFrel, WFseq, WFprops, WFother.
    reflexivity.
  - cbn [ET.reparse ET.tag]. apply split_namespace_ns.
  - unfold phylogeny_tree.
    cbn [ET.reparse ET.tag ET.attrib ET.text ET.children].
    rewrite phylogeny_attributes_read_back by done.
    rewrite parse_phylogeny_head_plain.
    rewrite !map_app.
    rewrite phylogeny_walk_children_app, phylogeny_walk_name by done.
    rewrite phylogeny_walk_children_app, Rid by done.
    rewrite phylogeny_walk_children_app, phylogeny_walk_description by done.
    rewrite phylogeny_walk_children_app, Rdate by done.
    rewrite phylogeny_walk_children_app, Rconf by done.
    rewrite phylogeny_walk_children_app, Rclade by done.
    rewrite phylogeny_walk_children_app, Rrel by done.
    rewrite phylogeny_walk_children_app, Rseq by done.
    rewrite phylogeny_walk_children_app, Rprops by done.
    rewrite Rother by done.
    destruct phylogeny. simpl in *. by subst.
Qed.

(** *** What the parser makes of it: foreign nodes and the document *)

(** The loop of [Parser.read] passes over the elements below a foreign
    element, when none of them starts a tree. *)
Lemma Parser_read_loop_below (elem : Element) :
  tree_free elem = true ->
  forall phyloxml other_depth rest,
    (1 <= other_depth)%Z ->
    Parser_read_loop phyloxml other_depth
      (ET.events_of_list (ET.children elem) ++ rest)
    = Parser_read_loop phyloxml other_depth rest.
Proof.
  induction elem as [tag attrib text children IH] using Element_forest_ind.
  rewrite tree_free_eq. cbn [ET.children].
  intros Hfree phyloxml other_depth rest Hdepth. revert rest.
  induction IH as [|child others Hchild _ IHothers]; intros rest; [done|].
  cbn [forallb] in Hfree.
  apply andb_prop in Hfree as [Hhere Hothers].
  apply andb_prop in Hhere as [Htag Hchild_free].
  rewrite events_of_list_cons, <- app_assoc.
  rewrite events_of_eq, <- app_comm_cons, <- app_assoc.
  rewrite Parser_read_loop_cons.
  destruct (unpack2 (split_namespace (ET.tag child))) as [[namespace ltag]|]
    eqn:Hsplit; [|done].
  destruct (String.eqb namespace NAMESPACES_phy) eqn:Hns; cbn [negb].
  - (* an element of phyloXML that is no tree *)
    cbn [andb negb] in Htag. apply negb_true_iff in Htag. rewrite Htag.
    rewrite (Hchild Hchild_free) by done. cbn [app].
    rewrite Parser_read_loop_cons, Hsplit, Hns. cbn [negb].
    by apply IHothers.
  - (* a foreign element, one level further down *)
    rewrite (Hchild Hchild_free) by lia. cbn [app].
    rewrite Parser_read_loop_cons, Hsplit, Hns. cbn [negb].
    replace (other_depth + 1 - 1)%Z with other_depth by lia.
    replace (Z.eqb other_depth 0) with false
      by (symmetry; apply Z.eqb_neq; lia).
    by apply IHothers.
Qed.

(** The loop of [Parser.read] over the events of a foreign node under
    the root: the node is appended at the end event of its element. *)
Lemma Parser_read_loop_other (obj : Other) phyloxml rest :
  rereadable_other obj ->
  ET.well_formed (Writer_other obj) = true
  /\ Parser_read_loop phyloxml 0
       (ET.events_of (ET.reparse (Writer_other obj)) ++ rest)
     = Parser_read_loop
         (Tree_Phyloxml (attributes phyloxml) (phylogenies phyloxml)
            (phyloxml_other phyloxml ++ [obj]))
         0 rest.
Proof.
  intros (Hns & elem & Helem & Hwf & Hfree & Hto).
  injection Helem as <-. split; [done|].
  pose proof Hto as Hsplit. rewrite to_other_eq in Hsplit.
  destruct (unpack2 (split_namespace (ET.tag (ET.reparse (Writer_other obj)))))
    as [[namespace localtag]|] eqn:Htag; [|done].
  assert (Hnamespace : namespace <> NAMESPACES_phy).
  { cbn [mbind result_bind] in Hsplit. inv_bind Hsplit.
    injection Hsplit as Hobj. by rewrite <- Hobj in Hns. }
  clear Hsplit.
  rewrite events_of_eq, <- app_comm_cons, <- app_assoc.
  rewrite Parser_read_loop_cons, Htag, eqb_namespace_foreign by done.
  rewrite Parser_read_loop_below by (by rewrite ?tree_free_reparse || lia).
  cbn [app].
  rewrite Parser_read_loop_cons, Htag, eqb_namespace_foreign by done.
  cbn [Z.add Z.sub Z.opp Z.eqb Z.pos_sub]. by rewrite Hto.
Qed.

Lemma Parser_read_loop_others (l : list Other) phyloxml rest :
  Forall rereadable_other l ->
  forallb ET.well_formed (map Writer_other l) = true
  /\ Parser_read_loop phyloxml 0
       (ET.events_of_list (map ET.reparse (map Writer_other l)) ++ rest)
     = Parser_read_loop
         (Tree_Phyloxml (attributes phyloxml) (phylogenies phyloxml)
            (phyloxml_other phyloxml ++ l))
         0 rest.
Proof.
  intros Hl. revert phyloxml.
  induction Hl as [|obj others Hobj _ IH]; intros phyloxml.
  - split; [done|]. rewrite app_nil_r. by destruct phyloxml.
  - destruct (Parser_read_loop_other obj phyloxml
                (ET.events_of_list (map ET.reparse (map Writer_other others))
                   ++ rest) Hobj) as [Hwf Hloop].
    destruct (IH (Tree_Phyloxml (attributes phyloxml) (phylogenies phyloxml)
                    (phyloxml_other phyloxml ++ [obj]))) as [Hwfs Hloops].
    split.
    + cbn [map forallb]. by rewrite Hwf, Hwfs.
    + cbn [map]. rewrite events_of_list_cons, <- app_assoc.
      rewrite Hloop, Hloops. cbn [attributes phylogenies phyloxml_other].
      by rewrite <- app_assoc.
Qed.

(** The loop of [Parser.read] over the events of trees. *)
Lemma Parser_read_loop_trees (l : list Phylogeny) (elems : list Element)
    phyloxml rest :
  Forall2 (fun phylogeny elem =>
             ET.well_formed elem = true
             /\ unpack2 (split_namespace (ET.tag (ET.reparse elem)))
                = Ok (NAMESPACES_phy, "phylogeny")
             /\ phylogeny_tree (ET.reparse elem) = Next phylogeny) l elems ->
  Parser_read_loop phyloxml 0
    (ET.events_of_list (map ET.reparse elems) ++ rest)
  = Parser_read_loop
      (Tree_Phyloxml (attributes phyloxml) (phylogenies phyloxml ++ l)
         (phyloxml_other phyloxml))
      0 rest.
Proof.
  intros Hl. revert phyloxml.
  induction Hl as [|phylogeny elem trees elems' (_ & Htag & Htree) _ IH];
    intros phyloxml.
  - rewrite app_nil_r. by destruct phyloxml.
  - cbn [map]. rewrite events_of_list_cons, <- app_assoc.
    rewrite events_of_within. cbn [app].
    rewrite Parser_read_loop_cons, Htag.
    change (negb (String.eqb NAMESPACES_phy NAMESPACES_phy)) with false.
    change (String.eqb "phylogeny" "phylogeny") with true. cbv iota.
    pose proof (parse_phylogeny_tree (ET.reparse elem) _
                  (ET.events_of_list (map ET.reparse elems') ++ rest) Htag)
      as Hparse.
    rewrite Htree in Hparse. cbv zeta in Hparse.
    rewrite Hparse, IH. cbn [attributes phylogenies phyloxml_other].
    by rewrite <- app_assoc.
Qed.

Lemma root_attributes_empty (elem : Element) :
  ET.attrib elem = ∅ -> root_attributes elem = Ok ∅.
Proof.
  intros Hempty. unfold root_attributes.
  by rewrite Hempty, map_to_list_empty.
Qed.

(** A document whose parts are read back is read back, but for the
    attributes of its root, from what the writer builds for it. *)
Lemma read_write_document (phyloxml : Phyloxml) :
  rereadable_document unicode_MolSeq phyloxml ->
  exists written,
    write unicode_MolSeq phyloxml = Ok written
    /\ ET.well_formed written = true
    /\ read (ET.reparse written) = Some (Ok (without_attributes phyloxml)).
Proof.
  intros [Htrees Hothers].
  destruct (map_result_Forall2 (Writer_phylogeny unicode_MolSeq)
              (fun phylogeny elem =>
                 ET.well_formed elem = true
                 /\ unpack2 (split_namespace (ET.tag (ET.reparse elem)))
                    = Ok (NAMESPACES_phy, "phylogeny")
                 /\ phylogeny_tree (ET.reparse elem) = Next phylogeny)
              (phylogenies phyloxml)) as (elems & Helems & Hback).
  { eapply Forall_impl; [exact Htrees|].
    intros phylogeny Hplain.
    apply (phylogeny_tree_Writer_phylogeny phylogeny Hplain). }
  unfold write, Writer_phyloxml. rewrite Helems. cbn [mbind result_bind].
  eexists. split; [reflexivity|].
  pose proof (fun p rest => proj1 (Parser_read_loop_others
                                     (phyloxml_other phyloxml) p rest Hothers)
                              ) as Hwf.
  split.
  - rewrite well_formed_eq.
    cbn [ET.tag ET.attrib ET.text ET.children from_option].
    rewrite forallb_app, (forallb_well_formed_Forall2 _ _ _ Hback).
    rewrite (Hwf phyloxml []). reflexivity.
  - cbn [ET.reparse ET.tag ET.attrib ET.text ET.children].
    unfold read, iterparse. rewrite events_of_within.
    cbn [Parser_init fmap option_fmap option_map].
    unfold Parser_read. cbn [root parser_context].
    rewrite root_attributes_empty by (cbn [ET.attrib]; apply fmap_empty).
    change (read_loop (fuel_for ?ctx) ?p ?d ?ctx) with (Parser_read_loop p d ctx).
    unfold events_within. cbn [ET.children].
    rewrite map_app, events_of_list_app, <- app_assoc.
    rewrite (Parser_read_loop_trees _ _ _ _ Hback).
    rewrite (proj2 (Parser_read_loop_others _ _ _ Hothers)).
    rewrite Parser_read_loop_cons.
    cbn [ET.tag]. rewrite split_namespace_ns.
    change (negb (String.eqb NAMESPACES_phy NAMESPACES_phy)) with false.
    cbv iota. by rewrite Parser_read_loop_nil.
Qed.


End Reread.

(* ===================================================================== *)
(** ** The helpers on tags and on text *)
(* ===================================================================== *)

Lemma append_cons (a : ascii) (s t : string) :
  String a s +:+ t = String a (s +:+ t).
Proof. done. Qed.

Lemma index_append (sep : ascii) (before after : string) :
  Py.index sep before = None ->
  Py.index sep (before +:+ String sep after) = Some (String.length before).
Proof.
  induction before as [|a before IH]; simpl.
  - by rewrite Ascii.eqb_refl.
  - destruct (Ascii.eqb a sep); [done|].
    destruct (Py.index sep before); [done|]. intros _. by rewrite IH.
Qed.

Lemma slice_from_append (before after : string) :
  Py.slice_from (String.length before) (before +:+ after) = after.
Proof.
  induction before as [|a before IH]; simpl; [by destruct after|done].
Qed.

(** X1 (local).  [local] undoes [_ns]: it gives back the local name of a
    tag [{namespace}name] whose namespace holds no closing brace.  A tag
    that does not start with a brace is returned as it is; the empty tag
    raises an IndexError, and a tag that opens a brace and never closes
    it a ValueError. *)
Theorem local_of_ns (tag namespace : string) :
  Py.index "}" namespace = None ->
  local (_ns_in tag namespace) = Ok tag
  /\ (forall c rest, c <> "{"%char -> local (String c rest) = Ok (String c rest))
  /\ local "" = Raise (IndexError "string index out of range")
  /\ local (String "{" namespace) = Raise (ValueError "substring not found").
Proof.
  intros Hindex. repeat split.
  - rewrite ns_in_eq. unfold local. rewrite Ascii.eqb_refl.
    cbn [Py.index]. change (Ascii.eqb "{" "}") with false. cbv iota.
    rewrite index_append by done.
    replace (S (String.length namespace) + 1)
      with (S (String.length (namespace +:+ "}"))).
    + cbn [Py.slice_from].
      replace (namespace +:+ String "}" tag)
        with ((namespace +:+ "}") +:+ tag).
      * by rewrite slice_from_append.
      * clear. induction namespace as [|a s IH]; [done|].
        rewrite !append_cons. by f_equal.
    + clear. induction namespace as [|a s IH]; [done|].
      rewrite append_cons. cbn [String.length]. lia.
  - intros c rest Hc. unfold local.
    destruct (Ascii.eqb_spec c "{"); [done|done].
  - unfold local. rewrite Ascii.eqb_refl. cbn [Py.index].
    change (Ascii.eqb "{" "}") with false. cbv iota. by rewrite Hindex.
Qed.

(** X2 (split_namespace, _ns).  On tags of the form [{namespace}name],
    [split_namespace] and [_ns] are inverse to each other: the tag that
    [_ns] builds splits into its namespace and its name, and a tag that
    starts with a brace and splits in two is rebuilt by [_ns] from its
    two parts. *)
Theorem split_namespace_inverts_ns (tag namespace localtag : string) :
  (Py.index "}" namespace = None ->
   unpack2 (split_namespace (_ns_in localtag namespace))
   = Ok (namespace, localtag))
  /\ (unpack2 (split_namespace (String "{" tag)) = Ok (namespace, localtag) ->
      _ns_in localtag namespace = String "{" tag
      /\ Py.index "}" namespace = None).
Proof.
  split.
  - intros Hindex. by rewrite split_namespace_prefixed.
  - unfold split_namespace, Py.split1. cbn [Py.slice1].
    destruct (Py.partition "}" tag) as [[before after]|] eqn:Hpart; [|done].
    intros [= <- <-]. apply partition_inv in Hpart as [-> Hindex].
    split; [|done]. by rewrite ns_in_eq.
Qed.

(** *** Whitespace *)

Lemma map_string_length (f : ascii -> ascii) (s : string) :
  String.length (Py.map_string f s) = String.length s.
Proof. induction s as [|a s IH]; simpl; [done|by rewrite IH]. Qed.

(** X3 (replace_wspace).  [replace_wspace] changes every tab, line feed
    and carriage return into a space and nothing else: the text keeps its
    length, holds none of the three characters afterwards, and a second
    pass changes nothing. *)
Theorem replace_wspace_chars (text : string) :
  replace_wspace text
  = Py.map_string
      (fun c : ascii =>
         if (Ascii.eqb c "009" || Ascii.eqb c "010" || Ascii.eqb c "013")%bool
         then " "%char else c) text
  /\ String.length (replace_wspace text) = String.length text
  /\ Py.index "009" (replace_wspace text) = None
  /\ Py.index "010" (replace_wspace text) = None
  /\ Py.index "013" (replace_wspace text) = None
  /\ replace_wspace (replace_wspace text) = replace_wspace text.
Proof.
  assert (Hmap : forall t,
             replace_wspace t
             = Py.map_string
                 (fun c : ascii =>
                    if (Ascii.eqb c "009" || Ascii.eqb c "010"
                        || Ascii.eqb c "013")%bool
                    then " "%char else c) t).
  { intros t. unfold replace_wspace. induction t as [|a t IH]; [done|].
    cbn [Py.replace Py.map_string]. rewrite IH. f_equal.
    destruct (Ascii.eqb_spec a "009") as [->|H9]; [done|].
    destruct (Ascii.eqb_spec a "010") as [->|H10]; [done|].
    destruct (Ascii.eqb_spec a "013") as [->|H13]; [done|].
    done. }
  split; [apply Hmap|]. rewrite !Hmap.
  split; [apply map_string_length|].
  assert (Hnone : forall sep : ascii,
             (Ascii.eqb sep "009" || Ascii.eqb sep "010"
              || Ascii.eqb sep "013")%bool = true ->
             Py.index sep
               (Py.map_string
                  (fun c : ascii =>
                     if (Ascii.eqb c "009" || Ascii.eqb c "010"
                         || Ascii.eqb c "013")%bool
                     then " "%char else c) text) = None).
  { clear Hmap. intros sep Hsep. induction text as [|a text IH]; [done|].
    cbn [Py.map_string Py.index]. rewrite IH.
    destruct (Ascii.eqb a "009" || Ascii.eqb a "010" || Ascii.eqb a "013")%bool
      eqn:Ha.
    - destruct (Ascii.eqb_spec " " sep) as [<-|]; [done|done].
    - destruct (Ascii.eqb_spec a sep) as [->|]; [congruence|done]. }
  repeat split; try (by apply Hnone).
  clear Hmap Hnone. induction text as [|a text IH]; [done|].
  cbn [Py.map_string]. rewrite IH. f_equal.
  destruct (Ascii.eqb a "009" || Ascii.eqb a "010" || Ascii.eqb a "013")%bool
    eqn:Ha; [done|by rewrite Ha].
Qed.

(** *** [collapse_wspace] *)

(** A word: a run of characters none of which is whitespace. *)
Lemma split_ws_go_word (w : list ascii) (cur : list ascii) (rest : string) :
  forallb (fun a => negb (Py.isspace a)) w = true ->
  Py.split_ws_go cur (string_of_list_ascii w +:+ rest)
  = Py.split_ws_go (rev w ++ cur) rest.
Proof.
  revert cur. induction w as [|a w IH]; intros cur Hw; [done|].
  cbn [forallb] in Hw. apply andb_true_iff in Hw as [Ha Hw].
  cbn [string_of_list_ascii]. rewrite append_cons. cbn [Py.split_ws_go].
  apply negb_true_iff in Ha. rewrite Ha, IH by done.
  cbn [rev]. by rewrite <- app_assoc.
Qed.

Lemma split_ws_go_words (cur : list ascii) (s : string) :
  forallb (fun a => negb (Py.isspace a)) cur = true ->
  Forall (fun w => w <> ""
                   /\ forallb (fun a => negb (Py.isspace a))
                        (list_ascii_of_string w) = true)
    (Py.split_ws_go cur s).
Proof.
  revert cur. induction s as [|a s IH]; intros cur Hcur.
  - cbn [Py.split_ws_go]. destruct cur as [|c cur]; [constructor|].
    constructor; [|constructor]. split.
    + intros Hempty. apply (f_equal list_ascii_of_string) in Hempty.
      rewrite list_ascii_of_string_of_list_ascii in Hempty.
      apply (f_equal (@length ascii)) in Hempty.
      rewrite length_rev in Hempty. done.
    + rewrite list_ascii_of_string_of_list_ascii.
      rewrite forallb_forall in *. intros x Hx. apply Hcur.
      by apply in_rev.
  - cbn [Py.split_ws_go]. destruct (Py.isspace a) eqn:Ha.
    + destruct cur as [|c cur]; [by apply IH|].
      constructor; [|by apply IH]. split.
      * intros Hempty. apply (f_equal list_ascii_of_string) in Hempty.
        rewrite list_ascii_of_string_of_list_ascii in Hempty.
        apply (f_equal (@length ascii)) in Hempty.
        rewrite length_rev in Hempty. done.
      * rewrite list_ascii_of_string_of_list_ascii.
        rewrite forallb_forall in *. intros x Hx. apply Hcur.
        by apply in_rev.
    + apply IH. cbn [forallb]. by rewrite Ha.
Qed.

Lemma split_ws_join (words : list string) :
  Forall (fun w => w <> ""
                   /\ forallb (fun a => negb (Py.isspace a))
                        (list_ascii_of_string w) = true) words ->
  Py.split_ws (Py.join " " words) = words.
Proof.
  unfold Py.split_ws.
  induction 1 as [|w rest [Hne Hw] Hrest IH]; [done|].
  assert (Hword : forall tail,
             Py.split_ws_go [] (w +:+ tail)
             = Py.split_ws_go (rev (list_ascii_of_string w)) tail).
  { intros tail.
    rewrite <- (string_of_list_ascii_of_string w) at 1.
    rewrite split_ws_go_word by done. by rewrite app_nil_r. }
  assert (Hflush : Py.split_ws_go (rev (list_ascii_of_string w)) "" = [w]).
  { cbn [Py.split_ws_go].
    destruct (rev (list_ascii_of_string w)) as [|c cur] eqn:Hrev.
    - apply (f_equal (@rev ascii)) in Hrev. rewrite rev_involutive in Hrev.
      destruct w; [done|discriminate Hrev].
    - rewrite <- Hrev, rev_involutive.
      by rewrite string_of_list_ascii_of_string. }
  destruct rest as [|w' rest].
  - cbn [Py.join]. transitivity (Py.split_ws_go [] (w +:+ "")).
    + f_equal. clear. induction w as [|a w IHw]; [done|].
      rewrite append_cons. by f_equal.
    + by rewrite Hword.
  - change (Py.join " " (w :: w' :: rest))
      with (w +:+ " " +:+ Py.join " " (w' :: rest)).
    rewrite Hword.
    change (" " +:+ Py.join " " (w' :: rest))
      with (String " " (Py.join " " (w' :: rest))).
    cbn [Py.split_ws_go]. change (Py.isspace " ") with true. cbv iota.
    rewrite IH.
    destruct (rev (list_ascii_of_string w)) as [|c cur] eqn:Hrev.
    + apply (f_equal (@rev ascii)) in Hrev. rewrite rev_involutive in Hrev.
      destruct w; [done|discriminate Hrev].
    + rewrite <- Hrev, rev_involutive.
      by rewrite string_of_list_ascii_of_string.
Qed.

(** X4 (collapse_wspace).  [collapse_wspace] is idempotent: the text it
    returns is left as it is by a second pass.  An absent text stays
    absent, and a text of whitespace only collapses to the empty
    string. *)
Theorem collapse_wspace_idempotent (text : option string) :
  collapse_wspace (collapse_wspace text) = collapse_wspace text
  /\ collapse_wspace None = None
  /\ (forall t,
        forallb Py.isspace (list_ascii_of_string t) = true ->
        collapse_wspace (Some t) = Some "").
Proof.
  split; [|split; [done|]].
  - destruct text as [t|]; [|done]. unfold collapse_wspace.
    rewrite split_ws_join; [done|].
    by apply split_ws_go_words.
  - intros t Ht. unfold collapse_wspace, Py.split_ws. f_equal.
    assert (Hnone : Py.split_ws_go [] t = []); [|by rewrite Hnone].
    induction t as [|a t IH]; [done|].
    cbn [list_ascii_of_string forallb] in Ht.
    apply andb_true_iff in Ht as [Ha Ht].
    cbn [Py.split_ws_go]. rewrite Ha. by apply IH.
Qed.

(** *** Integers printed and read, and the bounds of a domain *)

Lemma digit_of_digit_char (d : nat) :
  d < 10 -> Py.digit_of (Py.digit_char d) = Some (Z.of_nat d).
Proof.
  intros Hd. do 10 (destruct d as [|d]; [reflexivity|]). lia.
Qed.

Lemma digit_char_plain (d : nat) :
  Py.isspace (Py.digit_char d) = false
  /\ Ascii.eqb (Py.digit_char d) "-" = false
  /\ Ascii.eqb (Py.digit_char d) "+" = false.
Proof. do 9 (destruct d as [|d]; [done|]). done. Qed.

Lemma repr_nat_go_digits (fuel : nat) :
  forall n, n < fuel ->
    exists k : Z,
      (0 <= k)%Z
      /\ forall acc a,
           Py.digits_go a (Py.repr_nat_go fuel n acc)
           = Py.digits_go (a * 10 ^ k + Z.of_nat n)%Z acc.
Proof.
  induction fuel as [|fuel IH]; intros n Hn; [lia|].
  cbn [Py.repr_nat_go]. destruct (Nat.ltb_spec n 10) as [Hsmall|Hbig].
  - exists 1%Z. split; [done|]. intros acc a. cbn [Py.digits_go].
    rewrite Nat.mod_small, digit_of_digit_char by done.
    f_equal. lia.
  - destruct (IH (n / 10)) as (k & Hk & Hgo).
    { apply Nat.Div0.div_lt_upper_bound. lia. }
    exists (k + 1)%Z. split; [lia|]. intros acc a.
    rewrite Hgo. cbn [Py.digits_go].
    rewrite digit_of_digit_char by (apply Nat.mod_upper_bound; lia).
    f_equal. rewrite Z.pow_add_r by lia.
    pose proof (Nat.div_mod_eq n 10) as Hdiv. lia.
Qed.

Lemma repr_nat_go_head (fuel : nat) :
  forall n acc, exists d rest,
    Py.repr_nat_go (S fuel) n acc = String (Py.digit_char d) rest.
Proof.
  induction fuel as [|fuel IH]; intros n acc.
  - cbn [Py.repr_nat_go]. destruct (Nat.ltb n 10); by eexists _, _.
  - change (Py.repr_nat_go (S (S fuel)) n acc)
      with (if Nat.ltb n 10 then String (Py.digit_char (n mod 10)) acc
            else Py.repr_nat_go (S fuel) (n / 10)
                   (String (Py.digit_char (n mod 10)) acc)).
    destruct (Nat.ltb n 10); [by eexists _, _|apply IH].
Qed.

Lemma repr_nat_go_plain (fuel : nat) :
  forall n acc,
    forallb (fun a => negb (Py.isspace a)) (list_ascii_of_string acc) = true ->
    forallb (fun a => negb (Py.isspace a))
      (list_ascii_of_string (Py.repr_nat_go fuel n acc)) = true.
Proof.
  induction fuel as [|fuel IH]; intros n acc Hacc; [done|].
  cbn [Py.repr_nat_go].
  assert (Hnext : forallb (fun a => negb (Py.isspace a))
                    (list_ascii_of_string
                       (String (Py.digit_char (n mod 10)) acc)) = true).
  { cbn [list_ascii_of_string forallb].
    by rewrite (proj1 (digit_char_plain _)), Hacc. }
  destruct (Nat.ltb n 10); [done|by apply IH].
Qed.

Lemma rstrip_plain (s : string) :
  forallb (fun a => negb (Py.isspace a)) (list_ascii_of_string s) = true ->
  Py.rstrip s = s.
Proof.
  induction s as [|a s IH]; [done|].
  cbn [list_ascii_of_string forallb]. intros [Ha Hs]%andb_true_iff.
  cbn [Py.rstrip]. rewrite (IH Hs). apply negb_true_iff in Ha. rewrite Ha.
  by destruct s.
Qed.

Lemma strip_plain (s : string) :
  forallb (fun a => negb (Py.isspace a)) (list_ascii_of_string s) = true ->
  Py.strip s = s.
Proof.
  intros Hs. unfold Py.strip.
  assert (Hl : Py.lstrip s = s).
  { destruct s as [|a s]; [done|].
    cbn [list_ascii_of_string forallb] in Hs.
    apply andb_true_iff in Hs as [Ha _]. apply negb_true_iff in Ha.
    cbn [Py.lstrip]. by rewrite Ha. }
  rewrite Hl. by apply rstrip_plain.
Qed.

Lemma int_repr_int (z : Z) : Py.int (Py.repr_int z) = Some z.
Proof.
  unfold Py.repr_int. cbv zeta.
  destruct (repr_nat_go_head (Z.abs_nat z) (Z.abs_nat z) "")
    as (d & rest & Hhead).
  destruct (repr_nat_go_digits (S (Z.abs_nat z)) (Z.abs_nat z) ltac:(lia))
    as (k & Hk & Hgo).
  pose proof (repr_nat_go_plain (S (Z.abs_nat z)) (Z.abs_nat z) "" eq_refl)
    as Hplain.
  assert (Hdigits : Py.digits (Py.repr_nat_go (S (Z.abs_nat z)) (Z.abs_nat z) "")
                    = Some (Z.of_nat (Z.abs_nat z))).
  { unfold Py.digits. rewrite Hhead, <- Hhead. by rewrite Hgo. }
  destruct (Z.ltb_spec z 0) as [Hneg|Hpos].
  - unfold Py.int. rewrite strip_plain.
    + rewrite Ascii.eqb_refl, Hdigits. cbn [option_map]. f_equal. lia.
    + cbn [list_ascii_of_string forallb]. by rewrite Hplain.
  - unfold Py.int. rewrite strip_plain by done.
    rewrite Hhead. destruct (digit_char_plain d) as (_ & -> & ->).
    rewrite <- Hhead, Hdigits. f_equal. lia.
Qed.

Section Module_properties.
Context `{PF : PyFloat}.

(** *** [dict_str2bool] *)

Lemma dict_str2bool_fold (keys : list string) (out : gmap string pyval) :
  NoDup keys ->
  (forall k, k ∈ keys ->
     match out !! k with
     | Some (VStr s) => s = "true" \/ s = "false"
     | Some _ => False
     | None => True
     end) ->
  exists out',
    foldl (fun acc key =>
             out ← acc;
             match out !! key with
             | Some (VStr s) => b ← str2bool s; Ok (<[key := VBool b]> out)
             | Some _ =>
                 Raise (TypeError "cannot concatenate 'str' and 'bool' objects")
             | None => Ok out
             end) (Ok out) keys = Ok out'
    /\ forall k,
         out' !! k
         = if decide (k ∈ keys) then
             match out !! k with
             | Some (VStr s) => Some (VBool (String.eqb s "true"))
             | other => other
             end
           else out !! k.
Proof.
  revert out. induction keys as [|key keys IH]; intros out Hnodup Hvals.
  - exists out. split; [done|]. intros k.
    by rewrite decide_False by apply not_elem_of_nil.
  - apply NoDup_cons in Hnodup as [Hfresh Hnodup].
    pose proof (Hvals key (list_elem_of_here _ _)) as Hkey.
    cbn [foldl mbind result_bind].
    destruct (out !! key) as [[s|b|x]|] eqn:Hlookup; try done.
    + assert (Hbool : str2bool s = Ok (String.eqb s "true")).
      { by destruct Hkey as [->| ->]. }
      rewrite Hbool. cbn [mbind result_bind].
      destruct (IH (<[key := VBool (String.eqb s "true")]> out) Hnodup)
        as (out' & Hfold & Hout').
      { intros k Hk. rewrite lookup_insert_ne by (by intros ->).
        by apply Hvals, list_elem_of_further. }
      exists out'. split; [exact Hfold|]. intros k. rewrite Hout'.
      destruct (decide (k = key)) as [->|Hne].
      * rewrite decide_False by done.
        rewrite decide_True by apply list_elem_of_here.
        by rewrite lookup_insert_eq, Hlookup.
      * rewrite lookup_insert_ne by done.
        destruct (decide (k ∈ keys)).
        -- by rewrite decide_True by by apply list_elem_of_further.
        -- by rewrite decide_False by (by intros [?|?]%elem_of_cons).
    + destruct (IH out Hnodup) as (out' & Hfold & Hout').
      { intros k Hk. by apply Hvals, list_elem_of_further. }
      exists out'. split; [exact Hfold|]. intros k. rewrite Hout'.
      destruct (decide (k = key)) as [->|Hne].
      * rewrite decide_False by done.
        rewrite decide_True by apply list_elem_of_here.
        by rewrite Hlookup.
      * destruct (decide (k ∈ keys)).
        -- by rewrite decide_True by by apply list_elem_of_further.
        -- by rewrite decide_False by (by intros [?|?]%elem_of_cons).
Qed.

(** X5 (dict_str2bool).  When the listed keys are distinct and each of
    them that the dictionary holds has the value [true] or [false],
    [dict_str2bool] returns a dictionary with the same keys, where the
    values at the listed keys are the booleans and every other value is
    the string it was. *)
Theorem dict_str2bool_converts (dct : gmap string string) (keys : list string) :
  NoDup keys ->
  (forall k s, k ∈ keys -> dct !! k = Some s -> s = "true" \/ s = "false") ->
  exists out,
    dict_str2bool dct keys = Ok out
    /\ forall k,
         out !! k
         = (fun s => if decide (k ∈ keys) then VBool (String.eqb s "true")
                     else VStr s) <$> dct !! k.
Proof.
  intros Hnodup Hvals. unfold dict_str2bool.
  destruct (dict_str2bool_fold keys (VStr <$> dct) Hnodup)
    as (out & Hfold & Hout).
  { intros k Hk. rewrite lookup_fmap.
    destruct (dct !! k) as [s|] eqn:Hs; [|done]. by apply (Hvals k). }
  exists out. split; [exact Hfold|]. intros k. rewrite Hout, lookup_fmap.
  by destruct (decide (k ∈ keys)), (dct !! k).
Qed.

(** *** [get_child_text] and the values that are false *)

(** X6 (get_child_text, to_color).  [get_child_text] evaluates
    [child.text and construct(child.text) or None], so a converted value
    that is false is given as [None]: a colour component written [0]
    is read as absent, and any other as its number. *)
Theorem to_color_zero_absent (elem red green blue : Element)
    (r g b : string) (nr ng nb : Z) :
  ET.find elem (_ns "red") = Some red -> ET.text red = Some r ->
  ET.find elem (_ns "green") = Some green -> ET.text green = Some g ->
  ET.find elem (_ns "blue") = Some blue -> ET.text blue = Some b ->
  Py.int r = Some nr -> Py.int g = Some ng -> Py.int b = Some nb ->
  to_color elem
  = Ok (Tree_BranchColor (if Z.eqb nr 0 then None else Some nr)
          (if Z.eqb ng 0 then None else Some ng)
          (if Z.eqb nb 0 then None else Some nb)).
Proof.
  intros Hred Hr Hgreen Hg Hblue Hb Hnr Hng Hnb.
  assert (Hchild : forall tag child t n,
             ET.find elem (_ns tag) = Some child -> ET.text child = Some t ->
             Py.int t = Some n ->
             get_child_int elem tag
             = Ok (if Z.eqb n 0 then None else Some n)).
  { intros tag child t n Hfind Htext Hint.
    unfold get_child_int, get_child_text. rewrite Hfind, Htext.
    destruct t as [|a t]; [done|]. cbn [Py.truthy].
    unfold int_strict. rewrite Hint. cbn [mbind result_bind].
    by destruct (Z.eqb n 0). }
  unfold to_color.
  rewrite (Hchild _ _ _ _ Hred Hr Hnr), (Hchild _ _ _ _ Hgreen Hg Hng),
    (Hchild _ _ _ _ Hblue Hb Hnb).
  done.
Qed.

(** *** The cursor only moves forward *)

Lemma parse_clade_suffix (fuel : nat) :
  (forall parent ctx r ctx',
      _parse_clade_at fuel parent ctx = Some (r, ctx') -> ctx' `suffix_of` ctx)
  /\ (forall clade tag_stack ctx r ctx',
        _parse_clade_loop fuel clade tag_stack ctx = Some (r, ctx') ->
        ctx' `suffix_of` ctx).
Proof.
  induction fuel as [|fuel [IHat IHloop]]; [by split|].
  split.
  - intros parent ctx r ctx'. simpl.
    destruct (_parse_clade_head parent); [apply IHloop|].
    by intros [= _ <-].
  - intros clade tag_stack [|[event elem] ctx] r ctx'; simpl;
      [by intros [= _ <-]|].
    destruct (unpack2 _) as [[namespace tag]|];
      [|intros [= _ <-]; by apply suffix_cons_r].
    destruct event.
    + destruct (tag =? "clade").
      * destruct (_parse_clade_at fuel elem ctx) as [[[subclade|e] ctx1]|]
          eqn:Hat; [| |done].
        -- intros Hloop. apply IHat in Hat. apply IHloop in Hloop.
           apply suffix_cons_r. by etrans.
        -- intros [= _ <-]. apply IHat in Hat. by apply suffix_cons_r.
      * destruct (in_list tag _clade_tracked_tags);
          intros Hloop; apply IHloop in Hloop; by apply suffix_cons_r.
    + destruct (tag =? "clade"); [intros [= _ <-]; by apply suffix_cons_r|].
      destruct tag_stack as [|top popped];
        [intros [= _ <-]; by apply suffix_cons_r|].
      destruct (negb (tag =? top)).
      * intros Hloop. apply IHloop in Hloop. by apply suffix_cons_r.
      * destruct (_parse_clade_assign clade namespace tag elem) as [clade'|];
          [|intros [= _ <-]; by apply suffix_cons_r].
        intros Hloop. apply IHloop in Hloop. by apply suffix_cons_r.
Qed.

Lemma parse_phylogeny_loop_suffix (fuel : nat) :
  forall phylogeny ctx r ctx',
    _parse_phylogeny_loop fuel phylogeny ctx = Some (r, ctx') ->
    ctx' `suffix_of` ctx.
Proof.
  induction fuel as [|fuel IH]; [done|].
  intros phylogeny [|[event elem] ctx] r ctx'; simpl; [by intros [= _ <-]|].
  destruct (unpack2 _) as [[namespace tag]|];
    [|intros [= _ <-]; by apply suffix_cons_r].
  destruct event.
  - destruct (tag =? "clade").
    + destruct (phy_clade phylogeny);
        [intros [= _ <-]; by apply suffix_cons_r|].
      destruct (_parse_clade elem ctx) as [[[clade|e] ctx1]|] eqn:Hclade;
        [| |done].
      * intros Hloop. apply IH in Hloop.
        apply (proj1 (parse_clade_suffix _)) in Hclade.
        apply suffix_cons_r. by etrans.
      * intros [= _ <-]. apply (proj1 (parse_clade_suffix _)) in Hclade.
        by apply suffix_cons_r.
    + intros Hloop. apply IH in Hloop. by apply suffix_cons_r.
  - destruct (tag =? "phylogeny"); [intros [= _ <-]; by apply suffix_cons_r|].
    destruct (_parse_phylogeny_assign phylogeny namespace tag elem);
      [|intros [= _ <-]; by apply suffix_cons_r].
    intros Hloop. apply IH in Hloop. by apply suffix_cons_r.
Qed.

Lemma parse_phylogeny_suffix parent ctx r ctx' :
  _parse_phylogeny parent ctx = Some (r, ctx') -> ctx' `suffix_of` ctx.
Proof.
  unfold _parse_phylogeny.
  destruct (_parse_phylogeny_head parent); [apply parse_phylogeny_loop_suffix|].
  by intros [= _ <-].
Qed.

Lemma Parser_parse_next_suffix ctx r ctx' :
  Parser_parse_next ctx = Some (r, ctx') -> ctx' `suffix_of` ctx.
Proof.
  induction ctx as [|[event elem] ctx IH]; simpl; [by intros [= _ <-]|].
  destruct (ET.is_start event && (ET.tag elem =? _ns "phylogeny")).
  - intros H. apply parse_phylogeny_suffix in H. by apply suffix_cons_r.
  - intros H. apply IH in H. by apply suffix_cons_r.
Qed.

(** X7 (_parse_clade, _parse_phylogeny, Parser.parse).  The parser only
    moves its cursor forward: whatever the events are, and whether the
    call returns or raises, the events that [_parse_clade],
    [_parse_phylogeny] and a request of the generator leave are a suffix
    of the events they were given. *)
Theorem cursor_moves_forward (parent : Element) (ctx : context) :
  (forall r ctx', _parse_clade parent ctx = Some (r, ctx') ->
                  ctx' `suffix_of` ctx)
  /\ (forall r ctx', _parse_phylogeny parent ctx = Some (r, ctx') ->
                     ctx' `suffix_of` ctx)
  /\ (forall r ctx', Parser_parse_next ctx = Some (r, ctx') ->
                     ctx' `suffix_of` ctx).
Proof.
  split; [|split].
  - intros r ctx'. apply (proj1 (parse_clade_suffix _)).
  - intros r ctx'. apply parse_phylogeny_suffix.
  - intros r ctx'. apply Parser_parse_next_suffix.
Qed.

(** X8 (_parse_clade).  On the events of a document, a call of
    [_parse_clade] that returns has consumed the events of its element
    and no other: the cursor is left just behind the end event of the
    element, whatever follows it, and the clade it returns is the one
    read off the element alone. *)
Theorem parse_clade_consumes_its_element (elem : Element) (namespace : string)
    (rest : context) (clade : Clade) (ctx' : context) :
  unpack2 (split_namespace (ET.tag elem)) = Ok (namespace, "clade") ->
  _parse_clade elem (events_within elem ++ rest) = Some (Ok clade, ctx') ->
  ctx' = rest /\ clade_tree elem = Ok clade.
Proof.
  intros Htag Hparse.
  pose proof (parse_clade_tree elem namespace rest Htag) as Htree.
  unfold events_within in Hparse. rewrite <- app_assoc in Hparse.
  cbn [app] in Hparse.
  destruct (clade_tree elem) as [clade'|e].
  - rewrite Htree in Hparse. by injection Hparse as -> ->.
  - destruct Htree as [tail Htree]. rewrite Htree in Hparse. done.
Qed.

(** *** [read] and [parse] find the same trees *)

Lemma namespaced_events (elem : Element) :
  namespaced elem = true ->
  Forall (fun ev => namespaced_tag (ET.tag ev.2) = true) (ET.events_of elem).
Proof.
  induction elem as [tag attrib text children IH] using Element_forest_ind.
  cbn [namespaced ET.tag ET.children]. intros [Htag Hkids]%andb_true_iff.
  rewrite events_of_eq. cbn [ET.children].
  constructor; [done|]. apply Forall_app. split; [|by repeat constructor].
  clear Htag. induction children as [|child rest IHrest]; [constructor|].
  cbn [forallb] in Hkids. apply andb_true_iff in Hkids as [Hchild Hrest].
  apply Forall_cons in IH as [IHchild IH].
  rewrite events_of_list_cons. apply Forall_app. split.
  - by apply IHchild.
  - by apply IHrest.
Qed.

Lemma starts_phylogeny_split (tag namespace localtag : string) :
  namespaced_tag tag = true ->
  unpack2 (split_namespace tag) = Ok (namespace, localtag) ->
  String.eqb tag (_ns "phylogeny")
  = negb (negb (String.eqb namespace NAMESPACES_phy))
    && String.eqb localtag "phylogeny".
Proof.
  intros Htag Hsplit.
  destruct (namespaced_tag_split tag Htag) as (ns & lt & Hsplit' & Hbuild).
  rewrite Hsplit in Hsplit'. injection Hsplit' as <- <-.
  rewrite negb_involutive.
  destruct (String.eqb_spec tag (_ns "phylogeny")) as [Heq|Hne].
  - rewrite Heq in Hsplit. rewrite split_namespace_ns in Hsplit.
    by injection Hsplit as <- <-.
  - destruct (String.eqb_spec namespace NAMESPACES_phy) as [->|]; [|done].
    destruct (String.eqb_spec localtag "phylogeny") as [->|]; [|done].
    by destruct Hne.
Qed.

Lemma list_of_generator_skip (fuel : nat) event elem ctx :
  ET.is_start event && String.eqb (ET.tag elem) (_ns "phylogeny") = false ->
  list_of_generator fuel (mkGenerator ((event, elem) :: ctx) false)
  = list_of_generator fuel (mkGenerator ctx false).
Proof.
  intros Hskip. destruct fuel as [|fuel]; [done|].
  cbn [list_of_generator next gen_finished gen_context Parser_parse_next].
  by rewrite Hskip.
Qed.

Lemma read_loop_agrees (n : nat) :
  forall ctx phyloxml other_depth result ctx',
    length ctx <= n ->
    Forall (fun ev => namespaced_tag (ET.tag ev.2) = true) ctx ->
    Parser_read_loop phyloxml other_depth ctx = Some (Ok result, ctx') ->
    exists trees,
      phylogenies result = phylogenies phyloxml ++ trees
      /\ forall fuel,
           length ctx < fuel ->
           list_of_generator fuel (mkGenerator ctx false) = Some (Ok trees).
Proof.
  induction n as [|n IH];
    intros [|[event elem] ctx] phyloxml other_depth result ctx' Hlen Hns Hread;
    try (cbn [length] in Hlen; lia).
  - rewrite Parser_read_loop_nil in Hread. injection Hread as <- <-.
    exists []. split; [by rewrite app_nil_r|].
    intros [|fuel] Hfuel; [cbn [length] in Hfuel; lia|done].
  - rewrite Parser_read_loop_nil in Hread. injection Hread as <- <-.
    exists []. split; [by rewrite app_nil_r|].
    intros [|fuel] Hfuel; [cbn [length] in Hfuel; lia|done].
  - apply Forall_cons in Hns as [Htag Hns]. cbn [snd] in Htag.
    cbn [length] in Hlen.
    rewrite Parser_read_loop_cons in Hread.
    destruct (unpack2 (split_namespace (ET.tag elem)))
      as [[namespace localtag]|] eqn:Hsplit; [|done].
    pose proof (starts_phylogeny_split _ _ _ Htag Hsplit) as Hstart.
    destruct event.
    + destruct (negb (String.eqb namespace NAMESPACES_phy)) eqn:Hforeign.
      { destruct (IH ctx _ _ _ _ ltac:(lia) Hns Hread) as (trees & Heq & Hgen).
        exists trees. split; [done|]. intros fuel Hfuel.
        rewrite list_of_generator_skip by (by rewrite Hstart).
        apply Hgen. cbn [length] in Hfuel. lia. }
      destruct (String.eqb localtag "phylogeny") eqn:Hlocal.
      * destruct (_parse_phylogeny elem ctx) as [[[phylogeny|e] ctx1]|]
          eqn:Hparse; [|done|done].
        pose proof (parse_phylogeny_suffix _ _ _ _ Hparse) as Hsuffix.
        assert (Hlen1 : length ctx1 <= length ctx).
        { destruct Hsuffix as [k ->]. rewrite length_app. lia. }
        assert (Hns1 : Forall (fun ev => namespaced_tag (ET.tag ev.2) = true)
                         ctx1).
        { destruct Hsuffix as [k ->]. by apply Forall_app in Hns as [_ ?]. }
        destruct (IH ctx1 _ _ _ _ ltac:(lia) Hns1 Hread)
          as (trees & Heq & Hgen).
        exists (phylogeny :: trees). split.
        { rewrite Heq. cbn [phylogenies]. by rewrite <- app_assoc. }
        intros [|fuel] Hfuel; [lia|]. cbn [length] in Hfuel.
        cbn [list_of_generator next gen_finished gen_context Parser_parse_next
             ET.is_start andb].
        rewrite Hstart. cbn [negb andb]. rewrite Hparse.
        rewrite Hgen by lia. done.
      * destruct (IH ctx _ _ _ _ ltac:(lia) Hns Hread) as (trees & Heq & Hgen).
        exists trees. split; [done|]. intros fuel Hfuel.
        rewrite list_of_generator_skip by (by rewrite Hstart).
        apply Hgen. cbn [length] in Hfuel. lia.
    + assert (Hskip : forall trees,
                 (forall fuel, length ctx < fuel ->
                    list_of_generator fuel (mkGenerator ctx false)
                    = Some (Ok trees)) ->
                 forall fuel, length ((EvEnd, elem) :: ctx) < fuel ->
                   list_of_generator fuel
                     (mkGenerator ((EvEnd, elem) :: ctx) false)
                   = Some (Ok trees)).
      { intros trees Hgen fuel Hfuel. rewrite list_of_generator_skip by done.
        apply Hgen. cbn [length] in Hfuel. lia. }
      destruct (negb (String.eqb namespace NAMESPACES_phy)).
      * destruct (Z.eqb (other_depth - 1) 0).
        -- destruct (to_other elem) as [otr|]; [|done].
           destruct (IH ctx _ _ _ _ ltac:(lia) Hns Hread)
             as (trees & Heq & Hgen).
           exists trees. split; [done|]. by apply Hskip.
        -- destruct (IH ctx _ _ _ _ ltac:(lia) Hns Hread)
             as (trees & Heq & Hgen).
           exists trees. split; [done|]. by apply Hskip.
      * destruct (IH ctx _ _ _ _ ltac:(lia) Hns Hread) as (trees & Heq & Hgen).
        exists trees. split; [done|]. by apply Hskip.
Qed.

(** X9 (read, parse).  On a document whose tags all carry a namespace,
    [read] and [parse] find the same trees: when [read] returns a
    document, draining the generator of [parse] gives the trees of that
    document, in the same order. *)
Theorem read_agrees_with_parse (file : Element) (phyloxml : Phyloxml) :
  namespaced file = true ->
  read file = Some (Ok phyloxml) ->
  parse_list file = Some (Ok (phylogenies phyloxml)).
Proof.
  intros Hns Hread.
  apply namespaced_events in Hns. rewrite events_of_within in Hns.
  apply Forall_cons in Hns as [_ Hns].
  unfold read, iterparse in Hread. rewrite events_of_within in Hread.
  cbn [Parser_init] in Hread. unfold Parser_read in Hread.
  cbn [root parser_context] in Hread.
  destruct (root_attributes file) as [attrs|]; [|done].
  change (read_loop (fuel_for ?ctx) ?p ?d ?ctx)
    with (Parser_read_loop p d ctx) in Hread.
  destruct (Parser_read_loop (Phyloxml_init attrs) 0 (events_within file))
    as [[r ctx']|] eqn:Hloop; [|done].
  cbn in Hread. injection Hread as ->.
  destruct (read_loop_agrees _ _ _ _ _ _ (le_n _) Hns Hloop)
    as (trees & Heq & Hgen).
  unfold parse_list, parse, iterparse. rewrite events_of_within.
  cbn [Parser_init mbind result_bind parser_context gen_context].
  rewrite Hgen by lia. by rewrite Heq.
Qed.

(** *** What the writer cannot write *)

Lemma singular_simple_int (tag : string) (val : option Z) :
  singular (Writer_simple_int tag) val
  = Ok (simple_elems tag (serialize_int <$> val)).
Proof. by destruct val. Qed.

Lemma Writer_color_ok (obj : BranchColor) :
  Writer_color obj
  = Ok (ET.mkElement (_ns "color") ∅ None
          (simple_elems "red" (serialize_int <$> color_red obj)
             ++ simple_elems "green" (serialize_int <$> color_green obj)
             ++ simple_elems "blue" (serialize_int <$> color_blue obj))).
Proof.
  unfold Writer_color. rewrite !singular_simple_int.
  etrans; [exact (handle_complex_ok _ _ [_; _; _] _)|]. cbn [concat].
  by rewrite app_nil_r.
Qed.

Section Writers.
Variable unicode_MolSeq : MolSeq -> string.

(** X10 (Writer.clade, Writer.node_id).  The parser stores the [node_id]
    of a clade as a string, and [Writer.node_id] looks up the attribute
    [provider] on it: writing a clade that has a [node_id] raises an
    AttributeError, whatever else the clade holds. *)
Theorem Writer_clade_node_id (clade : Clade) (id : string) :
  node_id clade = Some id ->
  Writer_clade unicode_MolSeq clade
  = Raise (AttributeError "'str' object has no attribute 'provider'").
Proof.
  intros Hid. destruct clade as [len source nm wd col nid ev bc dt
                                   confs tax seqs dist refs props subs oth].
  cbn [node_id] in Hid. subst. cbn [Writer_clade].
  cbn [name branch_length confidences width color node_id id_source].
  rewrite singular_simple_str, !singular_simple_float, plural_confidence.
  assert (Hcolor : exists elems, singular Writer_color col = Ok elems).
  { destruct col as [c|]; cbn [singular]; [|by eexists].
    rewrite Writer_color_ok. by eexists. }
  destruct Hcolor as [elems ->].
  cbn [singular Writer_node_id mbind result_bind].
  exact (handle_complex_raise _ _ [_; _; _; _; _] _ _ _).
Qed.

(** X11 (Writer.date, Writer.taxonomy).  The subnode tables of the
    writer name methods that the class does not define: a date is
    written exactly when it has neither a minimum nor a maximum, and a
    taxonomy that has an authority or a synonym is not written; the
    writer raises an AttributeError instead. *)
Theorem Writer_missing_methods (date : Date) (taxonomy : Taxonomy) :
  (is_ok (Writer_date date) = true
   <-> date_minimum date = None /\ date_maximum date = None)
  /\ (is_Some (date_minimum date) ->
      Writer_date date
      = Raise (AttributeError "'Writer' object has no attribute 'minimum'"))
  /\ (is_ok (Writer_taxonomy taxonomy) = true ->
      taxonomy_authority taxonomy = None /\ taxonomy_synonyms taxonomy = []).
Proof.
  assert (Hdate : forall minimum,
             date_minimum date = Some minimum ->
             Writer_date date
             = Raise (AttributeError
                        "'Writer' object has no attribute 'minimum'")).
  { intros minimum Hmin. unfold Writer_date. rewrite Hmin.
    rewrite singular_simple_str, singular_simple_float.
    cbn [singular Writer_missing mbind result_bind].
    exact (handle_complex_raise _ _ [_; _] _ _ _). }
  split; [|split].
  - split.
    + intros Hok. destruct (date_minimum date) as [minimum|] eqn:Hmin.
      { by rewrite (Hdate minimum) in Hok. }
      split; [done|]. destruct (date_maximum date) as [maximum|] eqn:Hmax;
        [|done].
      unfold Writer_date in Hok. rewrite Hmin, Hmax in Hok.
      rewrite singular_simple_str, singular_simple_float in Hok.
      cbn [singular Writer_missing mbind result_bind] in Hok.
      by rewrite (handle_complex_raise _ _ [_; _; _] _ [] _ : _handle_complex _ _ [Ok _; Ok _; Ok _; Raise _] _ = _) in Hok.
    + intros [Hmin Hmax]. unfold Writer_date. rewrite Hmin, Hmax.
      rewrite singular_simple_str, singular_simple_float.
      cbn [singular].
      by rewrite (handle_complex_ok _ _ [_; _; _; _] _
                  : _handle_complex _ _ [Ok _; Ok _; Ok _; Ok _] _ = _).
  - intros [minimum Hmin]. by apply (Hdate minimum).
  - intros Hok. unfold Writer_taxonomy in Hok.
    rewrite !singular_simple_str in Hok.
    destruct (singular Writer_id (taxonomy_id taxonomy)) as [ids|e] eqn:Hid.
    2:{ by rewrite (handle_complex_raise _ _ [] _ _ _
                    : _handle_complex _ _ (Raise _ :: _) _ = _) in Hok. }
    destruct (taxonomy_authority taxonomy) as [authority|].
    { cbn [singular Writer_missing mbind result_bind] in Hok.
      by rewrite (handle_complex_raise _ _ [_; _; _] _ _ _
                  : _handle_complex _ _ (Ok _ :: Ok _ :: Ok _ :: Raise _ :: _) _
                    = _) in Hok. }
    split; [done|].
    destruct (taxonomy_synonyms taxonomy) as [|synonym synonyms]; [done|].
    cbn [singular plural map_result Writer_missing mbind result_bind] in Hok.
    assert (Hnames : exists elems,
               plural (Writer_simple_str "common_name")
                 (taxonomy_common_names taxonomy) = Ok elems).
    { eexists. by apply map_result_ok. }
    destruct Hnames as [elems Hnames]. rewrite Hnames in Hok.
    by rewrite (handle_complex_raise _ _ [_; _; _; _; _] _ _ _
                : _handle_complex _ _
                    (Ok _ :: Ok _ :: Ok _ :: Ok _ :: Ok _ :: Raise _ :: _) _
                  = _) in Hok.
Qed.

End Writers.

(** *** [dump_tags] *)

Lemma append_assoc_string (a b c : string) :
  (a +:+ b) +:+ c = a +:+ (b +:+ c).
Proof.
  induction a as [|x a IH]; [done|]. rewrite !append_cons. by f_equal.
Qed.

Lemma append_empty_r (a : string) : a +:+ "" = a.
Proof. induction a as [|x a IH]; [done|]. rewrite append_cons. by f_equal. Qed.

Lemma unlines_app (l1 l2 : list string) :
  unlines (l1 ++ l2) = unlines l1 +:+ unlines l2.
Proof.
  induction l1 as [|line l1 IH]; [done|].
  cbn [app unlines]. rewrite IH.
  rewrite append_assoc_string. by rewrite append_cons.
Qed.

Lemma dump_tags_events (elem : Element) :
  forall written rest,
    foldl (fun written '(event, elem) =>
             match event with
             | EvStart => written +:+ ET.tag elem +:+ String "010" EmptyString
             | EvEnd => written
             end) written (ET.events_of elem ++ rest)
    = foldl (fun written '(event, elem) =>
               match event with
               | EvStart => written +:+ ET.tag elem +:+ String "010" EmptyString
               | EvEnd => written
               end) (written +:+ unlines (tags_of elem)) rest.
Proof.
  induction elem as [tag attrib text children IH] using Element_forest_ind.
  intros written rest. rewrite events_of_eq.
  cbn [ET.children ET.tag app foldl tags_of unlines].
  rewrite <- app_assoc. cbn [app].
  assert (Hkids : forall written rest,
             foldl (fun written '(event, elem) =>
                      match event with
                      | EvStart =>
                          written +:+ ET.tag elem +:+ String "010" EmptyString
                      | EvEnd => written
                      end) written (ET.events_of_list children ++ rest)
             = foldl (fun written '(event, elem) =>
                        match event with
                        | EvStart =>
                            written +:+ ET.tag elem +:+ String "010" EmptyString
                        | EvEnd => written
                        end)
                 (written +:+ unlines (flat_map tags_of children)) rest).
  { clear written rest. induction children as [|child others IHothers];
      intros written rest.
    - cbn [flat_map unlines]. by rewrite append_empty_r.
    - apply Forall_cons in IH as [IHchild IH].
      rewrite events_of_list_cons, <- app_assoc, IHchild, (IHothers IH).
      cbn [flat_map]. by rewrite unlines_app, append_assoc_string. }
  rewrite Hkids. cbn [foldl]. f_equal.
  by rewrite !append_assoc_string, !append_cons.
Qed.

(** X12 (dump_tags).  [dump_tags] writes the tag of every element of the
    document once, each on a line of its own, an element before the
    elements it contains and these in document order. *)
Theorem dump_tags_lists_elements (handle : Element) :
  dump_tags handle = unlines (tags_of handle)
  /\ length (tags_of handle)
     = length (List.filter (fun ev => ET.is_start ev.1) (iterparse handle)).
Proof.
  split.
  - unfold dump_tags, iterparse.
    rewrite <- (app_nil_r (ET.events_of handle)), dump_tags_events.
    done.
  - unfold iterparse.
    induction handle as [tag attrib text children IH] using Element_forest_ind.
    rewrite events_of_eq.
    cbn [ET.children tags_of length List.filter ET.is_start fst].
    f_equal. rewrite List.filter_app, length_app.
    cbn [List.filter ET.is_start fst length]. rewrite Nat.add_0_r.
    induction children as [|child others IHothers]; [done|].
    apply Forall_cons in IH as [IHchild IH].
    rewrite events_of_list_cons, List.filter_app, !length_app.
    cbn [flat_map]. rewrite length_app, IHchild, (IHothers IH). done.
Qed.

(** *** Foreign elements under a tree, and namespaces under a clade *)

(** X13 (_parse_phylogeny).  The loop of [_parse_phylogeny] converts a
    foreign element at each end event it meets, whatever its depth: a
    foreign element that lies within another, below a tree, is appended
    to the foreign nodes of the tree on its own, and then again within
    the node of the element around it. *)
Theorem parse_phylogeny_nested_foreign (phylogeny : Phylogeny)
    (tag namespace : string) attrib text
    (tag' namespace' : string) attrib' text' (rest : context) :
  let known :=
    "clade" :: "phylogeny" :: _phylogeny_complex_types
      ++ _phylogeny_list_types ++ ["name"; "description"] in
  let inner := ET.mkElement (_ns_in tag' namespace') attrib' text' [] in
  let outer := ET.mkElement (_ns_in tag namespace) attrib text [inner] in
  let inner_node := Tree_Other tag' namespace' attrib' (strip_or_none text') [] in
  Py.index "}" namespace = None -> Py.index "}" namespace' = None ->
  namespace <> NAMESPACES_phy -> namespace' <> NAMESPACES_phy ->
  in_list tag known = false -> in_list tag' known = false ->
  phylogeny_loop phylogeny (ET.events_of outer ++ rest)
  = phylogeny_loop
      (set_phy_other
         (phy_other phylogeny
            ++ [inner_node;
                Tree_Other tag namespace attrib (strip_or_none text)
                  [inner_node]])
         phylogeny)
      rest.
Proof.
  intros known inner outer inner_node Hindex Hindex' Hns Hns' Htag Htag'.
  assert (Hsplit : unpack2 (split_namespace (ET.tag outer))
                   = Ok (namespace, tag)).
  { cbn [outer ET.tag]. by rewrite split_namespace_prefixed. }
  assert (Hsplit' : unpack2 (split_namespace (ET.tag inner))
                    = Ok (namespace', tag')).
  { cbn [inner ET.tag]. by rewrite split_namespace_prefixed. }
  assert (Hinner : to_other inner = Ok inner_node).
  { rewrite to_other_eq, Hsplit'. done. }
  assert (Houter : to_other outer
                   = Ok (Tree_Other tag namespace attrib (strip_or_none text)
                           [inner_node])).
  { rewrite to_other_eq, Hsplit. cbn [mbind result_bind outer ET.children
                                        map_result].
    rewrite Hinner. done. }
  rewrite !events_of_eq. cbn [outer ET.children].
  rewrite events_of_list_cons, events_of_eq. cbn [inner ET.children].
  fold inner. fold outer.
  change (ET.events_of_list []) with (@nil (ET.event * Element)).
  cbn [app].
  rewrite phylogeny_loop_cons, Hsplit.
  rewrite (proj1 (phylogeny_assign_unknown tag namespace phylogeny outer
                    Htag Hns)).
  rewrite phylogeny_loop_cons, Hsplit'.
  rewrite (proj1 (phylogeny_assign_unknown tag' namespace' phylogeny inner
                    Htag' Hns')).
  rewrite phylogeny_loop_cons, Hsplit'.
  destruct (phylogeny_assign_unknown tag' namespace' phylogeny inner
              Htag' Hns') as (_ & -> & ->).
  rewrite Hinner. cbn [mbind result_bind].
  rewrite phylogeny_loop_cons, Hsplit.
  destruct (phylogeny_assign_unknown tag namespace
              (set_phy_other (phy_other phylogeny ++ [inner_node]) phylogeny)
              outer Htag Hns) as (_ & -> & ->).
  rewrite Houter. cbn [mbind result_bind].
  destruct phylogeny. cbn. by rewrite <- app_assoc.
Qed.

Lemma clade_assign_ignores_namespace (tag namespace namespace' : string)
    (tag1 tag2 : string) attrib text children (clade : Clade) :
  in_list tag _clade_tracked_tags = true ->
  _parse_clade_assign clade namespace tag
    (ET.mkElement tag1 attrib text children)
  = _parse_clade_assign clade namespace' tag
      (ET.mkElement tag2 attrib text children).
Proof.
  unfold in_list.
  cbn [app existsb _clade_tracked_tags _clade_complex_types _clade_list_types].
  rewrite !orb_true_iff.
  intros H.
  repeat (destruct H as [H|H]); try discriminate H;
    apply String.eqb_eq in H; subst tag; reflexivity.
Qed.

Lemma tracked_not_clade (tag : string) :
  in_list tag _clade_tracked_tags = true -> String.eqb tag "clade" = false.
Proof.
  intros Htracked. destruct (String.eqb_spec tag "clade") as [->|]; [|done].
  discriminate Htracked.
Qed.

Lemma clade_walk_ignores_namespace (tag namespace : string) attrib text
    children st :
  in_list tag _clade_tracked_tags = true ->
  Py.index "}" namespace = None ->
  clade_walk (ET.mkElement (_ns_in tag namespace) attrib text children) st
  = clade_walk (ET.mkElement (_ns tag) attrib text children) st.
Proof.
  intros Htracked Hindex. rewrite !clade_walk_eq. cbn [ET.tag ET.children].
  rewrite split_namespace_prefixed, split_namespace_ns by done.
  cbn [unpack2 mbind result_bind].
  change (unpack2 [namespace; tag]) with (Ok (namespace, tag)).
  cbn [mbind result_bind].
  rewrite (tracked_not_clade tag Htracked), Htracked.
  destruct (clade_walk_children children (st.1, tag :: st.2))
    as [[clade tag_stack]|e]; [|done].
  cbn [mbind result_bind]. destruct tag_stack as [|top popped]; [done|].
  destruct (negb (String.eqb tag top)); [done|].
  by rewrite (clade_assign_ignores_namespace tag namespace NAMESPACES_phy
                (_ns_in tag namespace) (_ns tag)).
Qed.

(** X14 (_parse_clade).  Under a clade an element is recognised by the
    local name of its tag alone: an element with the name of a tracked
    child, in whatever namespace, is pushed, popped and assigned as the
    phyloXML element of that name is, and the loop gives the same result
    on the one as on the other. *)
Theorem parse_clade_ignores_namespace (tag namespace : string) attrib text
    children (clade : Clade) (tag_stack : list string) (rest : context) :
  in_list tag _clade_tracked_tags = true ->
  Py.index "}" namespace = None ->
  fst <$> clade_loop clade tag_stack
            (ET.events_of (ET.mkElement (_ns_in tag namespace) attrib text
                             children) ++ rest)
  = fst <$> clade_loop clade tag_stack
              (ET.events_of (ET.mkElement (_ns tag) attrib text children)
                 ++ rest).
Proof.
  intros Htracked Hindex.
  pose proof (clade_loop_walk
                (ET.mkElement (_ns_in tag namespace) attrib text children)
                (clade, tag_stack) rest) as Hforeign.
  pose proof (clade_loop_walk
                (ET.mkElement (_ns tag) attrib text children)
                (clade, tag_stack) rest) as Hphy.
  rewrite (clade_walk_ignores_namespace _ _ _ _ _ _ Htracked Hindex)
    in Hforeign.
  unfold clade_loop_follows in Hforeign, Hphy. cbn [fst snd] in Hforeign, Hphy.
  destruct (clade_walk (ET.mkElement (_ns tag) attrib text children)
              (clade, tag_stack)) as [[clade' tag_stack']|e].
  - by rewrite Hforeign, Hphy.
  - destruct Hforeign as [tail ->]. destruct Hphy as [tail' ->]. done.
Qed.

(** *** [_clean_attrib] *)

(** X15 (_clean_attrib).  Of the attributes it is given, each named
    once, [_clean_attrib] keeps those that are set and drops those that
    are [None]: the dictionary it builds holds, at the name of an
    attribute, the value of that attribute when it has one, and nothing
    at any other name. *)
Theorem clean_attrib_lookup (attrs : list (string * option string)) :
  NoDup (map fst attrs) ->
  (forall key val, (key, val) ∈ attrs -> _clean_attrib attrs !! key = val)
  /\ (forall key, key ∉ map fst attrs -> _clean_attrib attrs !! key = None).
Proof.
  unfold _clean_attrib.
  assert (Hfold : forall (l : list (string * option string))
                         (out : gmap string string),
             NoDup (map fst l) ->
             (forall key val, (key, val) ∈ l ->
                out !! key = None ->
                foldl (fun out '(key, val) =>
                         match val with
                         | Some v => <[key := v]> out
                         | None => out
                         end) out l !! key = val)
             /\ (forall key, key ∉ map fst l ->
                   foldl (fun out '(key, val) =>
                            match val with
                            | Some v => <[key := v]> out
                            | None => out
                            end) out l !! key = out !! key)).
  { induction l as [|[k v] l IH]; intros out Hnodup.
    - split; [by intros key val Hin%elem_of_nil|done].
    - cbn [map fst] in Hnodup. apply NoDup_cons in Hnodup as [Hfresh Hnodup].
      cbn [foldl]. split.
      + intros key val [Heq|Hin]%elem_of_cons Hnone.
        * injection Heq as -> ->.
          rewrite (proj2 (IH _ Hnodup) k Hfresh).
          destruct v as [s|]; [by rewrite lookup_insert_eq|done].
        * assert (Hne : key <> k).
          { intros ->. apply Hfresh.
            by apply (list_elem_of_fmap_2 fst l (k, val)). }
          apply (proj1 (IH _ Hnodup) key val Hin).
          destruct v as [s|]; [by rewrite lookup_insert_ne|done].
      + intros key Hkey. cbn [map fst] in Hkey.
        apply not_elem_of_cons in Hkey as [Hne Hkey].
        rewrite (proj2 (IH _ Hnodup) key Hkey).
        destruct v as [s|]; [by rewrite lookup_insert_ne|done]. }
  intros Hnodup. split.
  - intros key val Hin. by apply (proj1 (Hfold attrs ∅ Hnodup)).
  - intros key Hkey. by rewrite (proj2 (Hfold attrs ∅ Hnodup)).
Qed.

(** *** Strings that a file keeps *)

Lemma all_of_impl (P Q : ascii -> bool) (s : string) :
  (forall a, P a = true -> Q a = true) ->
  ET.all_of P s = true -> ET.all_of Q s = true.
Proof.
  intros HPQ. induction s as [|a s IH]; [done|].
  cbn [ET.all_of]. intros [Ha Hs]%andb_true_iff.
  by rewrite (HPQ a Ha), (IH Hs).
Qed.

Lemma kept_is_char (s : string) :
  ET.all_of ET.kept s = true -> ET.all_of ET.is_char s = true.
Proof.
  apply all_of_impl. unfold ET.kept. by intros a [H _]%andb_true_iff.
Qed.

Lemma character_data_cons (a : ascii) (s : string) :
  ET.character_data (String a s)
  = if Ascii.eqb a "013" then
      match s with
      | String b _ =>
          if Ascii.eqb b "010" then ET.character_data s
          else String "010" (ET.character_data s)
      | EmptyString => String "010" EmptyString
      end
    else String a (ET.character_data s).
Proof. reflexivity. Qed.

(** A string of kept characters is delivered as it was written, as
    character data and as the value of an attribute. *)
Lemma character_data_kept (s : string) :
  ET.all_of ET.kept s = true -> ET.character_data s = s.
Proof.
  induction s as [|a s IH]; [done|].
  cbn [ET.all_of]. intros [Ha Hs]%andb_true_iff.
  unfold ET.kept in Ha. apply andb_true_iff in Ha as [_ Ha].
  apply negb_true_iff in Ha. apply orb_false_iff in Ha as [Ha Hcr].
  by rewrite character_data_cons, Hcr, (IH Hs).
Qed.

Lemma attribute_value_kept (s : string) :
  ET.all_of ET.kept s = true -> ET.attribute_value s = s.
Proof.
  intros Hs. unfold ET.attribute_value. rewrite character_data_kept by done.
  induction s as [|a s IH]; [done|].
  cbn [ET.all_of] in Hs. apply andb_true_iff in Hs as [Ha Hs].
  unfold ET.kept in Ha. apply andb_true_iff in Ha as [_ Ha].
  apply negb_true_iff in Ha. apply orb_false_iff in Ha as [Ha _].
  cbn [Py.map_string]. by rewrite Ha, (IH Hs).
Qed.

Lemma attribute_reads_back_kept (s : string) :
  ET.all_of ET.kept s = true -> attribute_reads_back s.
Proof.
  intros Hs. split; [by apply kept_is_char|by apply attribute_value_kept].
Qed.

Lemma digit_char_kept (d : nat) : ET.kept (Py.digit_char d) = true.
Proof. do 9 (destruct d as [|d]; [done|]). done. Qed.

(** The print of an integer holds digits and a sign. *)
Lemma repr_nat_go_kept (fuel : nat) :
  forall n acc,
    ET.all_of ET.kept acc = true ->
    ET.all_of ET.kept (Py.repr_nat_go fuel n acc) = true.
Proof.
  induction fuel as [|fuel IH]; intros n acc Hacc; [done|].
  cbn [Py.repr_nat_go].
  assert (Hnext : ET.all_of ET.kept (String (Py.digit_char (n mod 10)) acc)
                  = true).
  { cbn [ET.all_of]. by rewrite Hacc, digit_char_kept. }
  destruct (Nat.ltb n 10); [done|by apply IH].
Qed.

Lemma repr_int_kept (z : Z) : ET.all_of ET.kept (Py.repr_int z) = true.
Proof.
  unfold Py.repr_int.
  destruct (Z.ltb z 0); [cbn [ET.all_of]; rewrite repr_nat_go_kept; done|].
  by apply repr_nat_go_kept.
Qed.

(** X16 (to_domain, Writer.domain).  A domain survives a write and a
    read: the writer prints [start + 1] and [end] as the attributes
    [from] and [to], the parser reads the integers back and takes one
    from the first, so that the bounds come back as they were.  The name
    comes back when it holds characters of XML, is not empty and is what
    [strip] makes of the character data the parser delivers for it; the
    identifier when it is the value the parser delivers for it; the
    confidence when [float] reads it from what the parser delivers of
    its print. *)
Theorem to_domain_Writer_domain (obj : ProteinDomain) :
  domain_value obj <> "" ->
  ET.all_of ET.is_char (domain_value obj) = true ->
  Py.strip (ET.character_data (domain_value obj)) = domain_value obj ->
  from_option attribute_reads_back True (domain_id obj) ->
  (forall c, domain_confidence obj = Some c ->
             ET.all_of ET.is_char (serialize_float c) = true
             /\ float (ET.attribute_value (serialize_float c)) = Some c) ->
  exists elem,
    Writer_domain obj = Ok elem
    /\ ET.well_formed elem = true
    /\ ET.get elem "from" = Some (Py.repr_int (domain_start obj + 1))
    /\ to_domain (ET.reparse elem) = Ok obj.
Proof.
  intros Hvalue Hchars Hstrip Hid Hconf.
  destruct obj as [value start stop confidence id].
  cbn [domain_value domain_confidence domain_id] in *.
  unfold Writer_domain.
  cbn [domain_value domain_start domain_end domain_confidence domain_id].
  eexists. split; [reflexivity|].
  (* the attributes, in the file and out of it *)
  set (attrib0 := ({[ "from" := Py.repr_int (start + 1);
                      "to" := Py.repr_int stop ]} : gmap string string)).
  set (attrib1 := match confidence with
                  | Some c => <["confidence" := serialize_float c]> attrib0
                  | None => attrib0
                  end).
  set (attrib2 := match id with
                  | Some i => <["id" := i]> attrib1
                  | None => attrib1
                  end).
  assert (Hfrom : attrib2 !! "from" = Some (Py.repr_int (start + 1))).
  { unfold attrib2, attrib1, attrib0.
    destruct confidence, id; by simplify_map_eq. }
  assert (Hto : attrib2 !! "to" = Some (Py.repr_int stop)).
  { unfold attrib2, attrib1, attrib0.
    destruct confidence, id; by simplify_map_eq. }
  assert (Hc : attrib2 !! "confidence" = serialize_float <$> confidence).
  { unfold attrib2, attrib1, attrib0.
    destruct confidence, id; by simplify_map_eq. }
  assert (Hi : attrib2 !! "id" = id).
  { unfold attrib2, attrib1, attrib0.
    destruct confidence, id; by simplify_map_eq. }
  assert (Hok : ET.attrib_ok attrib2 = true).
  { apply attrib_ok_Forall. unfold attrib2, attrib1, attrib0.
    assert (H0 : map_Forall (fun key val =>
                   ET.is_qname key && negb (String.eqb key "xmlns")
                   && ET.all_of ET.is_char val = true)
                   ({[ "from" := Py.repr_int (start + 1);
                       "to" := Py.repr_int stop ]} : gmap string string)).
    { apply map_Forall_insert_2.
      - cbn [andb]. change (ET.is_qname "from" && negb ("from" =? "xmlns"))
          with true. apply kept_is_char, repr_int_kept.
      - apply map_Forall_singleton.
        change (ET.is_qname "to" && negb ("to" =? "xmlns")) with true.
        apply kept_is_char, repr_int_kept. }
    assert (H1 : map_Forall (fun key val =>
                   ET.is_qname key && negb (String.eqb key "xmlns")
                   && ET.all_of ET.is_char val = true)
                   (match confidence with
                    | Some c => <["confidence" := serialize_float c]> attrib0
                    | None => attrib0
                    end)).
    { destruct confidence as [c|]; [|exact H0].
      apply map_Forall_insert_2; [|exact H0].
      change (ET.is_qname "confidence" && negb ("confidence" =? "xmlns"))
        with true. apply (Hconf c eq_refl). }
    destruct id as [i|]; [|exact H1].
    apply map_Forall_insert_2; [|exact H1].
    change (ET.is_qname "id" && negb ("id" =? "xmlns")) with true.
    apply Hid. }
  clearbody attrib2. clear attrib1 attrib0.
  split; [|split; [exact Hfrom|]].
  { rewrite well_formed_eq.
    cbn [ET.tag ET.attrib ET.text ET.children from_option forallb
         serialize_str].
    unfold serialize_str. rewrite Hok, Hchars. reflexivity. }
  unfold to_domain, text_strip, ET.get.
  cbn [ET.reparse ET.text ET.attrib serialize_str].
  rewrite reparse_text_nonempty by done. cbn [mbind result_bind].
  rewrite !lookup_fmap, Hfrom, Hto, Hc, Hi.
  cbn [fmap option_fmap option_map].
  rewrite !attribute_value_kept by apply repr_int_kept.
  unfold int_strict_opt, int_strict. rewrite !int_repr_int.
  cbn [mbind result_bind]. unfold serialize_str.
  rewrite Hstrip, Z.add_simpl_r. f_equal. f_equal.
  - destruct confidence as [c|]; [|done].
    cbn [fmap option_fmap option_map]. unfold _float.
    by rewrite (proj2 (Hconf c eq_refl)).
  - destruct id as [i|]; [|done]. simpl in Hid.
    cbn [fmap option_fmap option_map]. by rewrite (proj2 Hid).
Qed.

End Module_properties.

Section More_properties.
Context `{PF : PyFloat}.

(** *** The tags the loops do not know *)

(** X19 (_parse_phylogeny).  The loop of [_parse_phylogeny] keeps no
    stack of tags: at the end event of a phyloXML element whose name is
    not among those of the children of a tree it raises the error of a
    misidentified tag, also when the element lies within a child of the
    tree, as the [desc] of a [date] does. *)
Theorem parse_phylogeny_misidentified (phylogeny : Phylogeny)
    (tag : string) attrib text (tag' : string) attrib' text'
    (kids : list Element) (rest : context) :
  let known :=
    "clade" :: "phylogeny" :: _phylogeny_complex_types
      ++ _phylogeny_list_types ++ ["name"; "description"] in
  let child := ET.mkElement (_ns tag') attrib' text' [] in
  let parent := ET.mkElement (_ns tag) attrib text (child :: kids) in
  String.eqb tag "clade" = false ->
  in_list tag' known = false ->
  phylogeny_loop phylogeny (ET.events_of parent ++ rest)
  = Some (Raise (PhyloXMLError ("Misidentified tag: " +:+ tag')),
          ET.events_of_list kids ++ (EvEnd, parent) :: rest).
Proof.
  intros known child parent Hclade Htag'.
  assert (Hunknown : String.eqb tag' "clade" = false
                     /\ String.eqb tag' "phylogeny" = false
                     /\ forall p,
                          _parse_phylogeny_assign p NAMESPACES_phy tag' child
                          = Raise (PhyloXMLError
                                     ("Misidentified tag: " +:+ tag'))).
  { revert Htag'. unfold known, in_list.
    cbn [app existsb _phylogeny_complex_types _phylogeny_list_types].
    rewrite !orb_false_iff.
    intros (Hc & Htree & Hdate & Hid & Hconf & Hprop & Hrel & Hseq & Hname
            & Hdesc & _).
    split; [done|]. split; [done|]. intros p.
    unfold _parse_phylogeny_assign, in_list.
    cbn [existsb _phylogeny_complex_types _phylogeny_list_types].
    by rewrite Hdate, Hid, Hconf, Hprop, Hrel, Hseq, Hname, Hdesc. }
  destruct Hunknown as (Hclade' & Htree' & Hassign).
  rewrite events_of_eq. cbn [parent ET.children].
  rewrite events_of_list_cons, events_of_eq. cbn [child ET.children].
  fold child. fold parent.
  change (ET.events_of_list []) with (@nil (ET.event * Element)).
  rewrite <- !app_assoc. cbn [app].
  rewrite phylogeny_loop_cons. cbn [parent ET.tag].
  rewrite split_namespace_ns, Hclade. fold parent.
  rewrite phylogeny_loop_cons. cbn [child ET.tag].
  rewrite split_namespace_ns, Hclade'. fold child.
  rewrite phylogeny_loop_cons. cbn [child ET.tag].
  rewrite split_namespace_ns, Htree'. fold child.
  rewrite Hassign. by rewrite <- app_assoc.
Qed.

Lemma conversion_error_known (e : exn) (tag : string) :
  conversion_error e -> e <> PhyloXMLError ("Misidentified tag: " +:+ tag).
Proof. by destruct e. Qed.

Lemma clade_assign_never_misidentified clade namespace tag elem e tag' :
  in_list tag _clade_tracked_tags = true ->
  _parse_clade_assign clade namespace tag elem = Raise e ->
  e <> PhyloXMLError ("Misidentified tag: " +:+ tag').
Proof.
  intros Htracked. unfold _clade_tracked_tags in Htracked.
  rewrite !in_list_app in Htracked.
  unfold _parse_clade_assign.
  destruct (in_list tag _clade_complex_types).
  { intros H. apply conversion_error_known.
    revert e H. change (only_conversion_errors
      (if String.eqb tag "color" then
         v ← to_color elem; Ok (set_color (Some v) clade)
       else if String.eqb tag "events" then
         v ← to_events elem; Ok (set_events (Some v) clade)
       else if String.eqb tag "binary_characters" then
         v ← to_binary_characters elem;
         Ok (set_binary_characters (Some v) clade)
       else v ← to_date elem; Ok (set_date (Some v) clade))).
    repeat case_match;
      (apply oce_bind;
       [first [apply oce_to_color | apply oce_to_events
              | apply oce_to_binary_characters | apply oce_to_date]
       |intros; apply oce_ok]). }
  destruct (in_list tag _clade_list_types).
  { intros H. apply conversion_error_known.
    revert e H. change (only_conversion_errors
      (if String.eqb tag "confidence" then
         v ← to_confidence elem;
         Ok (set_confidences (confidences clade ++ [v]) clade)
       else if String.eqb tag "taxonomy" then
         v ← to_taxonomy elem;
         Ok (set_taxonomies (taxonomies clade ++ [v]) clade)
       else if String.eqb tag "sequence" then
         v ← to_sequence elem; Ok (set_sequences (sequences clade ++ [v]) clade)
       else if String.eqb tag "distribution" then
         v ← to_distribution elem;
         Ok (set_distributions (distributions clade ++ [v]) clade)
       else if String.eqb tag "reference" then
         v ← to_reference elem;
         Ok (set_references (references clade ++ [v]) clade)
       else
         v ← to_property elem;
         Ok (set_properties (properties clade ++ [v]) clade))).
    repeat case_match;
      (apply oce_bind;
       [first [apply oce_to_confidence | apply oce_to_taxonomy
              | apply oce_to_sequence | apply oce_to_distribution
              | apply oce_to_reference | apply oce_to_property]
       |intros; apply oce_ok]). }
  simpl in Htracked. unfold in_list in Htracked. simpl in Htracked.
  destruct (tag =? "branch_length").
  { destruct (branch_length clade); [|done]. by intros [= <-]. }
  destruct (tag =? "width"); [done|].
  destruct (tag =? "name"); [done|].
  destruct (tag =? "node_id"); [done|].
  done.
Qed.

Lemma parse_clade_loop_never_misidentified (fuel : nat) :
  (forall parent ctx e ctx' tag,
      _parse_clade_at fuel parent ctx = Some (Raise e, ctx') ->
      e <> PhyloXMLError ("Misidentified tag: " +:+ tag))
  /\ (forall clade tag_stack ctx e ctx' tag,
      Forall (fun t => in_list t _clade_tracked_tags = true) tag_stack ->
      _parse_clade_loop fuel clade tag_stack ctx = Some (Raise e, ctx') ->
      e <> PhyloXMLError ("Misidentified tag: " +:+ tag)).
Proof.
  induction fuel as [|fuel [IHat IHloop]]; [done|].
  split.
  - intros parent ctx e ctx' tag. simpl.
    destruct (_parse_clade_head parent) as [clade|e0] eqn:Hhead.
    + by apply IHloop.
    + intros [= <- _]. apply conversion_error_known.
      by apply (oce_parse_clade_head parent).
  - intros clade tag_stack [|[event elem] ctx] e ctx' tag Hstack; simpl;
      [done|].
    destruct (unpack2 _) as [[namespace t]|e0] eqn:Hsplit.
    2:{ intros [= <- _]. apply conversion_error_known.
        by apply (oce_unpack2 _ _ Hsplit). }
    destruct event.
    + destruct (t =? "clade").
      * destruct (_parse_clade_at fuel elem ctx) as [[[subclade|e0] ctx1]|]
          eqn:Hat; [| |done].
        -- by apply IHloop.
        -- intros [= <- _]. by apply (IHat _ _ _ _ tag Hat).
      * destruct (in_list t _clade_tracked_tags) eqn:Htracked.
        -- apply IHloop. by constructor.
        -- by apply IHloop.
    + destruct (t =? "clade"); [done|].
      destruct tag_stack as [|top popped]; [by intros [= <- _]|].
      apply Forall_cons in Hstack as [Htop Hpopped].
      destruct (String.eqb_spec t top) as [->|Hne]; simpl.
      * destruct (_parse_clade_assign clade namespace top elem)
          as [clade'|e0] eqn:Hassign.
        -- by apply IHloop.
        -- intros [= <- _].
           by apply (clade_assign_never_misidentified _ _ _ _ _ _ Htop Hassign).
      * apply IHloop. by constructor.
Qed.

(** X20 (_parse_clade).  Whatever the events are, [_parse_clade] never
    raises the error of a misidentified tag: its loop assigns an element
    only when the tag is at the top of the stack, the stack holds tracked
    tags only, and each of them has its branch before the last. *)
Theorem parse_clade_never_misidentified (parent : Element) (ctx : context)
    (e : exn) (ctx' : context) (tag : string) :
  _parse_clade parent ctx = Some (Raise e, ctx') ->
  e <> PhyloXMLError ("Misidentified tag: " +:+ tag).
Proof. apply (proj1 (parse_clade_loop_never_misidentified _)). Qed.

(** *** Elements without text *)

(** X21 (to_property, to_id, _parse_clade, _parse_phylogeny).  The
    builders of an accession, an id, a property and a uri strip the text
    of their element without testing it: on an element that has no text
    they raise an AttributeError, and so do the loops of the parser at
    the end event of an empty [property] under a clade and of an empty
    [id] under a tree. *)
Theorem builders_need_text (elem : Element) (namespace : string) :
  ET.text elem = None ->
  let error : exn :=
    AttributeError "'NoneType' object has no attribute 'strip'" in
  to_accession elem = Raise error
  /\ to_id elem = Raise error
  /\ to_property elem = Raise error
  /\ to_uri elem = Raise error
  /\ (forall clade popped ctx,
        unpack2 (split_namespace (ET.tag elem)) = Ok (namespace, "property") ->
        clade_loop clade ("property" :: popped) ((EvEnd, elem) :: ctx)
        = Some (Raise error, ctx))
  /\ (forall phylogeny ctx,
        unpack2 (split_namespace (ET.tag elem)) = Ok (namespace, "id") ->
        phylogeny_loop phylogeny ((EvEnd, elem) :: ctx)
        = Some (Raise error, ctx)).
Proof.
  intros Htext error.
  assert (Hstrip : text_strip elem = Raise error).
  { unfold text_strip. by rewrite Htext. }
  assert (Hprop : to_property elem = Raise error).
  { unfold to_property. by rewrite Hstrip. }
  assert (Hid : to_id elem = Raise error).
  { unfold to_id. by rewrite Hstrip. }
  split; [unfold to_accession; by rewrite Hstrip|].
  split; [exact Hid|]. split; [exact Hprop|].
  split; [unfold to_uri; by rewrite Hstrip|]. split.
  - intros clade popped ctx Htag. rewrite clade_loop_cons, Htag.
    change (String.eqb "property" "clade") with false.
    change (negb (String.eqb "property" "property")) with false. cbv iota.
    change (_parse_clade_assign clade namespace "property" elem)
      with (v ← to_property elem;
            Ok (set_properties (properties clade ++ [v]) clade)).
    by rewrite Hprop.
  - intros phylogeny ctx Htag. rewrite phylogeny_loop_cons, Htag.
    change (String.eqb "id" "phylogeny") with false. cbv iota.
    change (_parse_phylogeny_assign phylogeny namespace "id" elem)
      with (v ← to_id elem; Ok (set_phy_id (Some v) phylogeny)).
    by rewrite Hid.
Qed.

End More_properties.

#[local] Existing Instance integral_float.

Lemma parse_first_tree_only_C10_witness :
  exists gen,
    parse ex_three_trees = Ok gen
    /\ exists r gen' tail,
         next gen = Some (r, gen')
         /\ gen_context gen'
            = tail ++ ET.events_of_list (drop 1 (ET.children ex_three_trees))
                ++ [(EvEnd, ex_three_trees)].
Proof.
  destruct (parse_first_tree_only_C10 (_ns "phyloxml") ∅ None []
              (drop 1 (ET.children ex_three_trees))
              (phy_elem "phylogeny" ∅ None [phy_leaf "name" "a"])
              eq_refl ltac:(constructor)) as (gen & Hgen & _ & Hnext & _).
  exists gen. split; [exact Hgen|exact Hnext].
Defined.

(** The three trees of the example, asked for one at a time: the first
    request reads the tree [a] and leaves the events of the other two, the
    second fails on the tree of two roots, and the generator is then
    finished without having touched the third tree. *)
Example parse_three_trees :
  (gen ← parse ex_three_trees;
   Ok (length (gen_context gen), requests 3 gen))
  = Ok (17,
        [(Ok (Some "a"), 13);
         (Raise (AssertionError "Phylogeny object should only have 1 clade"), 7);
         (Raise StopIteration, 7)]).
Proof. vm_compute. reflexivity. Qed.


(** C3, the claim as stated, fails.  A clade without the attribute that
    holds two [branch_length] elements has one of the two sources only,
    and its parse raises the error of the length set twice.  A clade
    that has both sources, the attribute not being a number, fails with
    the ValueError of [float] instead of that error. *)
Lemma branch_length_once_C3_counterexample :
  (ET.get ex_clade_two_length_elements "branch_length" = None
   /\ raised (_parse_clade ex_clade_two_length_elements
                (events_within ex_clade_two_length_elements))
      = Some (PhyloXMLError branch_length_twice))
  /\ (ET.get ex_clade_bad_attribute_and_length "branch_length" = Some "abc"
      /\ raised (_parse_clade ex_clade_bad_attribute_and_length
                   (events_within ex_clade_bad_attribute_and_length))
         = Some (ValueError "could not convert string to float: abc")).
Proof. repeat split; vm_compute; reflexivity. Qed.

Lemma branch_length_once_C3_witness :
  _parse_clade ex_clade_two_lengths (events_within ex_clade_two_lengths ++ [])
  = Some (Raise (PhyloXMLError branch_length_twice),
          [(EvEnd, ex_clade_two_lengths)])
  /\ raised (_parse_clade ex_clade_bad_numbers
               (events_within ex_clade_bad_numbers ++ []))
     <> Some (PhyloXMLError branch_length_twice).
Proof.
  destruct (branch_length_once_C3 (_ns "clade")
              (ET.attrib ex_clade_two_lengths)
              None [] [] (phy_leaf "branch_length" "4")
              NAMESPACES_phy NAMESPACES_phy "3" []
              eq_refl ltac:(vm_compute; reflexivity) eq_refl)
    as (_ & Htwice & _ & Honce).
  split.
  - eapply Htwice; [reflexivity|]. vm_compute. reflexivity.
  - apply (Honce ex_clade_bad_numbers NAMESPACES_phy []); reflexivity.
Defined.





(** C1 (_parse_clade).  The stack test compares an end tag with the top
    of the stack only, so a tracked tag that closes inside a tracked
    child passes it: the [name] of a [sequence] is pushed above
    [sequence], popped at its own end event and assigned to the clade.
    Here the clade is named [A] and its sequence [SEQ]; the clade comes
    out named [SEQ]. *)
Theorem parse_clade_nested_name_C1 :
  returned (fun clade => (name clade, map sequence_name (sequences clade)))
    (_parse_clade ex_clade_sequence_name (events_within ex_clade_sequence_name))
  = Some (Some "SEQ", [Some "SEQ"]).
Proof. vm_compute. reflexivity. Qed.

(** C4 (_parse_clade).  The end event of a foreign element never reaches
    [to_other]: with an empty stack the stack test raises an IndexError,
    and under a tracked element the event is passed over and the element
    lost. *)
Theorem parse_clade_foreign_C4 :
  raised (_parse_clade ex_clade_foreign (events_within ex_clade_foreign))
  = Some (IndexError "list index out of range")
  /\ returned (fun clade => (name clade, length (other clade)))
       (_parse_clade ex_clade_foreign_in_name
          (events_within ex_clade_foreign_in_name))
     = Some (Some "A", 0).
Proof. split; vm_compute; reflexivity. Qed.


(** C5's and C9's splitting, run: the parts a prefixed tag splits into. *)
Example split_namespace_clade :
  split_namespace (_ns "clade") = ["http://www.phyloxml.org"; "clade"].
Proof. reflexivity. Qed.

(** C9, the claim as stated, fails: the text [" hi "] of a foreign
    element comes back as ["hi"]. *)
Lemma other_roundtrip_C9_counterexample :
  other_roundtrip ex_foreign_padded = Ok (trimmed ex_foreign_padded)
  /\ ET.text (trimmed ex_foreign_padded) = Some "hi"
  /\ other_roundtrip ex_foreign_padded <> Ok ex_foreign_padded.
Proof. split; [reflexivity|]. split; [reflexivity|]. discriminate. Qed.

Lemma other_roundtrip_C9_witness :
  exists obj,
    to_other ex_foreign_padded = Ok obj
    /\ Writer_other obj = trimmed ex_foreign_padded.
Proof.
  destruct (other_roundtrip_C9 ex_foreign_padded eq_refl)
    as (obj & Hobj & Hw & _).
  exists obj. by split.
Defined.

(** C7, the claim as stated, fails: a [branch_length] attribute that is
    not a number aborts the parse of the clade. *)
Lemma float_leniency_C7_counterexample :
  ET.get ex_clade_bad_attribute "branch_length" = Some "abc"
  /\ float "abc" = None
  /\ raised (_parse_clade ex_clade_bad_attribute
               (events_within ex_clade_bad_attribute))
     = Some (ValueError "could not convert string to float: abc").
Proof. repeat split; vm_compute; reflexivity. Qed.

Lemma float_leniency_C7_witness :
  clade_loop empty_clade ["width"] [(EvEnd, phy_leaf "width" "wide")]
  = clade_loop (set_width None empty_clade) [] [].
Proof.
  assert (Hwide : float "wide" = None) by (vm_compute; reflexivity).
  apply (float_leniency_C7 empty_clade [] (phy_leaf "width" "wide")
           "http://www.phyloxml.org" "wide" [] eq_refl Hwide).
  reflexivity.
Defined.

(** The three lenient fields at once. *)
Example parse_clade_bad_numbers :
  returned (fun clade => (branch_length clade, width clade,
                          map confidence_value (confidences clade),
                          map confidence_type (confidences clade)))
    (_parse_clade ex_clade_bad_numbers (events_within ex_clade_bad_numbers))
  = Some (None, None, [None], [Some "bootstrap"]).
Proof. vm_compute. reflexivity. Qed.

Lemma str2bool_strict_C6_witness :
  _parse_phylogeny ex_phylogeny_bad_flag []
  = Some (Raise (ValueError "String could not be converted to boolean: True"),
          []).
Proof.
  destruct (str2bool_strict_C6 "True") as (_ & _ & H & _).
  destruct (H ltac:(discriminate) ltac:(discriminate)) as [_ Hp].
  apply Hp. left. reflexivity.
Defined.

(** The documents that [read] builds from the two examples. *)
Lemma read_ex_document : read ex_document = Some (Ok ex_phyloxml).
Proof. vm_compute. reflexivity. Qed.

Lemma read_ex_rich_document :
  read ex_rich_document = Some (Ok ex_rich_phyloxml).
Proof. vm_compute. reflexivity. Qed.

Ltac rereadable :=
  cbn -[rereadable_clade reads_back attribute_reads_back name_reads_back
        float_reads_back rereadable_tree_other rereadable_other
        in_list NAMESPACES_phy];
  lazymatch goal with
  | |- _ /\ _ => split; rereadable
  | |- True => exact I
  | |- _ = _ => vm_compute; reflexivity
  | |- _ <> _ => discriminate
  | |- attribute_reads_back _ => split; vm_compute; reflexivity
  | |- name_reads_back _ => split; vm_compute; reflexivity
  | |- float_reads_back _ => split; vm_compute; reflexivity
  | |- reads_back _ _ _ _ =>
      eexists; split; [reflexivity|]; split; [vm_compute; reflexivity|];
      split; vm_compute; reflexivity
  | |- Forall _ [] => constructor
  | |- Forall _ (_ :: _) => constructor; rereadable
  | |- rereadable_clade _ _ => apply rereadable_clade_eq; rereadable
  | |- rereadable_tree_other _ => unfold rereadable_tree_other; rereadable
  | |- rereadable_other _ => unfold rereadable_other; rereadable
  | |- rereadable_phylogeny _ _ => unfold rereadable_phylogeny; rereadable
  | |- rereadable_document _ _ => unfold rereadable_document; rereadable
  end.

(** Every part of the second example is read back from what the writer
    makes of it: its identifiers, its colour, its taxonomy, its events,
    its date, its reference, its properties and its foreign nodes. *)
Lemma rereadable_ex_rich_phyloxml :
  rereadable_document ex_unicode_MolSeq ex_rich_phyloxml.
Proof. unfold ex_rich_phyloxml, ex_rich_clade_read. rereadable. Qed.



(** *** The properties of the module, run on examples *)

Lemma local_of_ns_witness :
  local (_ns "clade") = Ok "clade"
  /\ local (String "{" NAMESPACES_phy) = Raise (ValueError "substring not found").
Proof.
  destruct (local_of_ns "clade" NAMESPACES_phy eq_refl) as (H1 & _ & _ & H4).
  by split.
Defined.

Lemma split_namespace_inverts_ns_witness :
  unpack2 (split_namespace (_ns_in "note" "http://example.org"))
  = Ok ("http://example.org", "note")
  /\ _ns_in "note" "http://example.org" = "{http://example.org}note".
Proof.
  destruct (split_namespace_inverts_ns "http://example.org}note"
              "http://example.org" "note") as [H1 H2].
  split; [apply H1; reflexivity|]. apply H2. reflexivity.
Defined.

Lemma collapse_wspace_idempotent_witness :
  collapse_wspace (collapse_wspace (Some " a  b ")) = collapse_wspace (Some " a  b ")
  /\ collapse_wspace (Some "  ") = Some "".
Proof.
  destruct (collapse_wspace_idempotent (Some " a  b ")) as (H1 & _ & H3).
  split; [exact H1|]. apply H3. reflexivity.
Defined.

Lemma dict_str2bool_converts_witness :
  exists out,
    dict_str2bool {[ "rooted" := "true"; "type" := "gene" ]}
      ["rooted"; "rerootable"] = Ok out
    /\ out !! "rooted" = Some (VBool true)
    /\ out !! "type" = Some (VStr "gene")
    /\ out !! "rerootable" = None.
Proof.
  destruct (dict_str2bool_converts
              {[ "rooted" := "true"; "type" := "gene" ]}
              ["rooted"; "rerootable"]) as (out & Hout & Hlookup).
  - cbn [map fst]. apply NoDup_cons. split; [|apply NoDup_singleton].
    intros H%list_elem_of_singleton. discriminate H.
  - intros k s [->|[->|Hk%elem_of_nil]%elem_of_cons]%elem_of_cons;
      [|done|done].
    intros H. vm_compute in H. injection H as <-. by left.
  - exists out. split; [exact Hout|]. rewrite !Hlookup.
    repeat split; vm_compute; reflexivity.
Defined.

Lemma to_color_zero_absent_witness :
  to_color
    (phy_elem "color" ∅ None
       [phy_leaf "red" "0"; phy_leaf "green" "0"; phy_leaf "blue" "255"])
  = Ok (Tree_BranchColor None None (Some 255%Z)).
Proof.
  apply (to_color_zero_absent
           (phy_elem "color" ∅ None
              [phy_leaf "red" "0"; phy_leaf "green" "0"; phy_leaf "blue" "255"])
           (phy_leaf "red" "0") (phy_leaf "green" "0") (phy_leaf "blue" "255")
           "0" "0" "255" 0 0 255); reflexivity.
Defined.

Lemma cursor_moves_forward_witness :
  exists r ctx',
    _parse_clade ex_clade_foreign (events_within ex_clade_foreign)
    = Some (r, ctx')
    /\ ctx' `suffix_of` events_within ex_clade_foreign.
Proof.
  destruct (parse_clade_returns ex_clade_foreign
              (events_within ex_clade_foreign)) as (r & ctx' & Hparse & _).
  exists r, ctx'. split; [exact Hparse|].
  by apply (proj1 (cursor_moves_forward ex_clade_foreign
                     (events_within ex_clade_foreign)) r ctx').
Defined.

Lemma parse_clade_consumes_its_element_witness :
  exists clade,
    _parse_clade ex_clade_bad_numbers
      (events_within ex_clade_bad_numbers ++ [(EvEnd, ex_document)])
    = Some (Ok clade, [(EvEnd, ex_document)])
    /\ clade_tree ex_clade_bad_numbers = Ok clade.
Proof.
  destruct (parse_clade_returns ex_clade_bad_numbers
              (events_within ex_clade_bad_numbers ++ [(EvEnd, ex_document)]))
    as ([clade|e] & ctx' & Hparse & _).
  - destruct (parse_clade_consumes_its_element ex_clade_bad_numbers
                NAMESPACES_phy [(EvEnd, ex_document)] clade ctx' eq_refl Hparse)
      as [-> Htree].
    exists clade. by split.
  - exfalso. apply (f_equal raised) in Hparse. vm_compute in Hparse.
    discriminate Hparse.
Defined.

Lemma read_agrees_with_parse_witness :
  parse_list ex_document = Some (Ok (phylogenies ex_phyloxml)).
Proof.
  apply (read_agrees_with_parse ex_document ex_phyloxml).
  - vm_compute. reflexivity.
  - apply read_ex_document.
Defined.

Lemma Writer_clade_node_id_witness :
  Writer_clade ex_unicode_MolSeq (set_node_id (Some "n1") empty_clade)
  = Raise (AttributeError "'str' object has no attribute 'provider'").
Proof.
  apply (Writer_clade_node_id ex_unicode_MolSeq
           (set_node_id (Some "n1") empty_clade) "n1").
  reflexivity.
Defined.

Lemma Writer_missing_methods_witness :
  Writer_date (Tree_Date (PF := integral_float) None None None (Some 3%Z) None)
  = Raise (AttributeError "'Writer' object has no attribute 'minimum'").
Proof.
  destruct (Writer_missing_methods
              (Tree_Date (PF := integral_float) None None None (Some 3%Z) None)
              (Tree_Taxonomy None None None None None [] []
                 None None []))
    as (_ & H & _).
  apply H. by eexists.
Defined.

Lemma parse_phylogeny_nested_foreign_witness :
  returned (fun phylogeny => length (phy_other phylogeny))
    (_parse_phylogeny (phy_elem "phylogeny" ∅ None [])
       (ET.events_of
          (ET.mkElement (_ns_in "note" "http://example.org") ∅ (Some "a")
             [ET.mkElement (_ns_in "part" "http://example.org") ∅ (Some "b")
                []])
        ++ [(EvEnd, phy_elem "phylogeny" ∅ None [])]))
  = Some 2.
Proof.
  rewrite parse_phylogeny_eq.
  change (_parse_phylogeny_head (phy_elem "phylogeny" ∅ None []))
    with (Ok (Tree_Phylogeny (PF := integral_float) None None None None None
                None None None [] None [] [] [] [])).
  cbv iota.
  rewrite (parse_phylogeny_nested_foreign _ "note" "http://example.org" ∅
             (Some "a") "part" "http://example.org" ∅ (Some "b"));
    [|reflexivity|reflexivity|discriminate|discriminate
     |reflexivity|reflexivity].
  vm_compute. reflexivity.
Defined.

Lemma parse_clade_ignores_namespace_witness :
  fst <$> clade_loop empty_clade []
            (ET.events_of (ET.mkElement (_ns_in "name" "http://example.org") ∅
                             (Some "A") []) ++ [])
  = fst <$> clade_loop empty_clade []
              (ET.events_of (ET.mkElement (_ns "name") ∅ (Some "A") []) ++ []).
Proof.
  apply (parse_clade_ignores_namespace "name" "http://example.org" ∅
           (Some "A") [] empty_clade [] []); reflexivity.
Defined.

Lemma clean_attrib_lookup_witness :
  _clean_attrib [("ref", Some "r"); ("unit", None)] !! "ref" = Some "r"
  /\ _clean_attrib [("ref", Some "r"); ("unit", None)] !! "unit" = None.
Proof.
  destruct (clean_attrib_lookup [("ref", Some "r"); ("unit", None)])
    as [Hin _].
  - cbn [map fst]. apply NoDup_cons. split; [|apply NoDup_singleton].
    intros H%list_elem_of_singleton. discriminate H.
  - split; apply Hin; repeat constructor.
Defined.

Lemma to_domain_Writer_domain_witness :
  exists elem,
    Writer_domain (Tree_ProteinDomain (PF := integral_float) "kinase" 0 120
                     (Some 3%Z) (Some "PF00069"))
    = Ok elem
    /\ ET.well_formed elem = true
    /\ ET.get elem "from" = Some "1"
    /\ to_domain (ET.reparse elem)
       = Ok (Tree_ProteinDomain (PF := integral_float) "kinase" 0 120
               (Some 3%Z) (Some "PF00069")).
Proof.
  apply (to_domain_Writer_domain
           (Tree_ProteinDomain (PF := integral_float) "kinase" 0 120
              (Some 3%Z) (Some "PF00069"))).
  - discriminate.
  - reflexivity.
  - reflexivity.
  - split; vm_compute; reflexivity.
  - intros c [= <-]. split; vm_compute; reflexivity.
Defined.

Lemma parse_clade_never_other_witness :
  returned (fun clade => other clade)
    (_parse_clade ex_clade_foreign_in_name
       (events_within ex_clade_foreign_in_name))
  = Some [].
Proof.
  destruct (_parse_clade ex_clade_foreign_in_name
              (events_within ex_clade_foreign_in_name))
    as [[[clade|e] ctx']|] eqn:Hparse.
  - cbn [returned]. f_equal.
    apply (parse_clade_never_other _ _ _ _ Hparse).
  - exfalso. apply (f_equal (returned (fun _ => tt))) in Hparse.
    vm_compute in Hparse. discriminate Hparse.
  - exfalso. apply (f_equal (returned (fun _ => tt))) in Hparse.
    vm_compute in Hparse. discriminate Hparse.
Defined.

Lemma parse_phylogeny_misidentified_witness :
  raised
    (_parse_phylogeny (phy_elem "phylogeny" ∅ None [])
       (ET.events_of (phy_elem "date" ∅ None [phy_leaf "desc" "Silurian"])
        ++ [(EvEnd, phy_elem "phylogeny" ∅ None [])]))
  = Some (PhyloXMLError "Misidentified tag: desc").
Proof.
  rewrite parse_phylogeny_eq.
  change (_parse_phylogeny_head (phy_elem "phylogeny" ∅ None []))
    with (Ok (Tree_Phylogeny (PF := integral_float) None None None None None
                None None None [] None [] [] [] [])).
  cbv iota. unfold phy_leaf, phy_elem.
  rewrite (parse_phylogeny_misidentified _ "date" ∅ None "desc" ∅
             (Some "Silurian") []); reflexivity.
Defined.

Lemma parse_clade_never_misidentified_witness :
  raised (_parse_clade ex_clade_foreign (events_within ex_clade_foreign))
  <> Some (PhyloXMLError "Misidentified tag: note").
Proof.
  destruct (_parse_clade ex_clade_foreign (events_within ex_clade_foreign))
    as [[[clade|e] ctx']|] eqn:Hparse; cbn [raised]; try discriminate.
  intros [= ->].
  by apply (parse_clade_never_misidentified _ _ _ _ "note" Hparse).
Defined.

Lemma builders_need_text_witness :
  to_property (phy_elem "property" {[ "ref" := "NOAA:depth" ]} None [])
  = Raise (AttributeError "'NoneType' object has no attribute 'strip'")
  /\ clade_loop empty_clade ["property"]
       [(EvEnd, phy_elem "property" {[ "ref" := "NOAA:depth" ]} None [])]
     = Some (Raise (AttributeError "'NoneType' object has no attribute 'strip'"),
             []).
Proof.
  destruct (builders_need_text
              (phy_elem "property" {[ "ref" := "NOAA:depth" ]} None [])
              NAMESPACES_phy eq_refl) as (_ & _ & Hprop & _ & Hloop & _).
  split; [exact Hprop|]. apply Hloop. reflexivity.
Defined.
